(** * HoroQuiz: a shallow embedding of the web client and of the storage schema

    The development follows the repository layout:
    - [Json]            the JSON values exchanged over HTTP and the WebSocket,
                        with the text parser the browser applies to frames;
    - [Ws]              [connectRoom] and [sendWs] of [frontend/src/lib];
    - [Types]           [frontend/src/types.ts];
    - [GameCanvas]      the [message] listener of the mini-game frame;
    - [QuestionCard]    the student's answer card;
    - [StudentPlayPage], [DashboardPage], [NewQuizPage]   parts of [App.tsx];
    - [Schema]          [backend/migrations/20260226180000_init.sql];
    - [Grader], [Envelope]   the server side, which is not part of the
                        sources at hand and is modelled from the specification.

    Part I holds the definitions, Part II the lemmas and theorems. *)

From Stdlib Require Import String Ascii List ZArith NArith Bool Arith Lia.
From Stdlib Require Import DecimalString.
From Stdlib Require DecimalNat.
Import ListNotations.

Local Open Scope string_scope.
Local Open Scope list_scope.

(* ================================================================== *)
(** * Part I: definitions                                              *)
(* ================================================================== *)

(** ** JSON values and [JSON.parse] *)

Module Json.

(** A number keeps its lexeme: the development never computes with
    fractional values, and two numbers are compared through their text. *)
#[warnings="-register-all"] Inductive value :=
| JNull
| JBool (b : bool)
| JNumber (lexeme : string)
| JString (s : string)
| JArray (items : list value)
| JObject (members : list (string * value)).

(** [obj[k]]: when a key occurs twice in the text the last binding wins. *)
Fixpoint assoc_last (k : string) (ms : list (string * value)) : option value :=
  match ms with
  | [] => None
  | (k', v) :: rest =>
      match assoc_last k rest with
      | Some w => Some w
      | None => if String.eqb k k' then Some v else None
      end
  end.

Definition get (k : string) (v : value) : option value :=
  match v with
  | JObject ms => assoc_last k ms
  | _ => None
  end.

(** *** Lexical helpers.  Text is a sequence of UTF-8 bytes. *)

Definition code (c : ascii) : N := N_of_ascii c.

Definition is_ws (c : ascii) : bool :=
  let n := code c in
  ((n =? 32) || (n =? 9) || (n =? 10) || (n =? 13))%N.

Definition is_digit (c : ascii) : bool :=
  let n := code c in ((48 <=? n) && (n <=? 57))%N.

Fixpoint skip_ws (s : list ascii) : list ascii :=
  match s with
  | c :: r => if is_ws c then skip_ws r else s
  | [] => []
  end.

Fixpoint span (p : ascii -> bool) (s : list ascii) : list ascii * list ascii :=
  match s with
  | c :: r => if p c then let (a, b) := span p r in (c :: a, b) else ([], s)
  | [] => ([], [])
  end.

Definition hex_val (c : ascii) : option N :=
  let n := code c in
  if ((48 <=? n) && (n <=? 57))%N then Some (n - 48)%N
  else if ((65 <=? n) && (n <=? 70))%N then Some (n - 55)%N
  else if ((97 <=? n) && (n <=? 102))%N then Some (n - 87)%N
  else None.

Definition hex4 (a b c d : ascii) : option N :=
  match hex_val a, hex_val b, hex_val c, hex_val d with
  | Some x, Some y, Some z, Some w => Some (((x * 16 + y) * 16 + z) * 16 + w)%N
  | _, _, _, _ => None
  end.

Definition byte (n : N) : ascii := ascii_of_N n.

(** UTF-8 encoding of a code point (a lone surrogate is encoded like any
    other three-byte value). *)
Definition utf8 (cp : N) : list ascii :=
  if (cp <? 128)%N then [byte cp]
  else if (cp <? 2048)%N then
    [byte (192 + cp / 64); byte (128 + cp mod 64)]
  else if (cp <? 65536)%N then
    [byte (224 + cp / 4096); byte (128 + (cp / 64) mod 64); byte (128 + cp mod 64)]
  else
    [byte (240 + cp / 262144); byte (128 + (cp / 4096) mod 64);
     byte (128 + (cp / 64) mod 64); byte (128 + cp mod 64)].

Definition is_high_surrogate (u : N) : bool := ((55296 <=? u) && (u <=? 56319))%N.
Definition is_low_surrogate (u : N) : bool := ((56320 <=? u) && (u <=? 57343))%N.

Definition simple_escape (e : ascii) : option ascii :=
  let n := code e in
  if (n =? 34)%N then Some e                 (* quote *)
  else if (n =? 92)%N then Some e            (* backslash *)
  else if (n =? 47)%N then Some e            (* slash *)
  else if (n =? 98)%N then Some (byte 8)     (* b: backspace *)
  else if (n =? 102)%N then Some (byte 12)   (* f: form feed *)
  else if (n =? 110)%N then Some (byte 10)   (* n: line feed *)
  else if (n =? 114)%N then Some (byte 13)   (* r: carriage return *)
  else if (n =? 116)%N then Some (byte 9)    (* t: tab *)
  else None.

Definition prepend (pre : list ascii) (r : option (list ascii * list ascii))
  : option (list ascii * list ascii) :=
  match r with
  | Some (body, rest) => Some (pre ++ body, rest)
  | None => None
  end.

(** The characters of a string literal, after its opening quote. *)
Fixpoint parse_chars (s : list ascii) : option (list ascii * list ascii) :=
  match s with
  | [] => None
  | c :: r =>
      if (code c =? 34)%N then Some ([], r)
      else if (code c =? 92)%N then
        match r with
        | [] => None
        | e :: r1 =>
            match simple_escape e with
            | Some x => prepend [x] (parse_chars r1)
            | None =>
                if (code e =? 117)%N then
                  match r1 with
                  | a :: b :: c' :: d :: r2 =>
                      match hex4 a b c' d with
                      | None => None
                      | Some u =>
                          match r2 with
                          | bs :: lu :: a' :: b' :: c'' :: d' :: r3 =>
                              match hex4 a' b' c'' d' with
                              | Some l =>
                                  if is_high_surrogate u && is_low_surrogate l
                                     && (code bs =? 92)%N && (code lu =? 117)%N
                                  then prepend (utf8 (65536 + (u - 55296) * 1024 + (l - 56320))%N)
                                               (parse_chars r3)
                                  else prepend (utf8 u) (parse_chars r2)
                              | None => prepend (utf8 u) (parse_chars r2)
                              end
                          | _ => prepend (utf8 u) (parse_chars r2)
                          end
                      end
                  | _ => None
                  end
                else None
            end
        end
      else if (code c <? 32)%N then None
      else prepend [c] (parse_chars r)
  end.

(** A number: an optional minus sign, an integer part without a leading
    zero, an optional fraction and an optional exponent. *)
Definition parse_number (s : list ascii) : option (list ascii * list ascii) :=
  let (sign, s1) :=
    match s with
    | c :: r => if (code c =? 45)%N then ([c], r) else ([], s)
    | [] => ([], s)
    end in
  let int_part :=
    match s1 with
    | c :: r =>
        if (code c =? 48)%N then Some ([c], r)
        else if is_digit c then let (ds, r') := span is_digit r in Some (c :: ds, r')
        else None
    | [] => None
    end in
  match int_part with
  | None => None
  | Some (ip, s2) =>
      let frac :=
        match s2 with
        | c :: r =>
            if (code c =? 46)%N then
              let (fs, r') := span is_digit r in
              match fs with [] => None | _ => Some (c :: fs, r') end
            else Some ([], s2)
        | [] => Some ([], s2)
        end in
      match frac with
      | None => None
      | Some (fp, s3) =>
          let expo :=
            match s3 with
            | c :: r =>
                if ((code c =? 101) || (code c =? 69))%N then
                  let (sg, r1) :=
                    match r with
                    | x :: r0 =>
                        if ((code x =? 43) || (code x =? 45))%N then ([x], r0) else ([], r)
                    | [] => ([], r)
                    end in
                  let (es, r') := span is_digit r1 in
                  match es with [] => None | _ => Some (c :: sg ++ es, r') end
                else Some ([], s3)
            | [] => Some ([], s3)
            end in
          match expo with
          | None => None
          | Some (ep, s4) => Some (sign ++ ip ++ fp ++ ep, s4)
          end
      end
  end.

Definition literal (word : string) (s : list ascii) : option (list ascii) :=
  let w := list_ascii_of_string word in
  if list_eq_dec ascii_dec (firstn (length w) s) w then Some (skipn (length w) s) else None.

Fixpoint parse_value (fuel : nat) (s : list ascii) {struct fuel}
  : option (value * list ascii) :=
  match fuel with
  | O => None
  | S fuel' =>
      match skip_ws s with
      | [] => None
      | c :: r =>
          let n := code c in
          if (n =? 110)%N then                                   (* null *)
            match literal "null" (c :: r) with
            | Some r' => Some (JNull, r') | None => None end
          else if (n =? 116)%N then                              (* true *)
            match literal "true" (c :: r) with
            | Some r' => Some (JBool true, r') | None => None end
          else if (n =? 102)%N then                              (* false *)
            match literal "false" (c :: r) with
            | Some r' => Some (JBool false, r') | None => None end
          else if (n =? 34)%N then                               (* string *)
            match parse_chars r with
            | Some (body, r') => Some (JString (string_of_list_ascii body), r')
            | None => None
            end
          else if (n =? 91)%N then                               (* array *)
            match skip_ws r with
            | c' :: r' =>
                if (code c' =? 93)%N then Some (JArray [], r')
                else match parse_elements fuel' r with
                     | Some (vs, r'') => Some (JArray vs, r'')
                     | None => None
                     end
            | [] => None
            end
          else if (n =? 123)%N then                              (* object *)
            match skip_ws r with
            | c' :: r' =>
                if (code c' =? 125)%N then Some (JObject [], r')
                else match parse_members fuel' r with
                     | Some (ms, r'') => Some (JObject ms, r'')
                     | None => None
                     end
            | [] => None
            end
          else
            match parse_number (c :: r) with
            | Some (lx, r') => Some (JNumber (string_of_list_ascii lx), r')
            | None => None
            end
      end
  end

with parse_elements (fuel : nat) (s : list ascii) {struct fuel}
  : option (list value * list ascii) :=
  match fuel with
  | O => None
  | S fuel' =>
      match parse_value fuel' s with
      | None => None
      | Some (v, r) =>
          match skip_ws r with
          | c :: r' =>
              if (code c =? 44)%N then
                match parse_elements fuel' r' with
                | Some (vs, r'') => Some (v :: vs, r'')
                | None => None
                end
              else if (code c =? 93)%N then Some ([v], r')
              else None
          | [] => None
          end
      end
  end

with parse_members (fuel : nat) (s : list ascii) {struct fuel}
  : option (list (string * value) * list ascii) :=
  match fuel with
  | O => None
  | S fuel' =>
      match skip_ws s with
      | q :: r0 =>
          if (code q =? 34)%N then
            match parse_chars r0 with
            | None => None
            | Some (k, r1) =>
                match skip_ws r1 with
                | colon :: r2 =>
                    if (code colon =? 58)%N then
                      match parse_value fuel' r2 with
                      | None => None
                      | Some (v, r3) =>
                          match skip_ws r3 with
                          | c :: r4 =>
                              if (code c =? 44)%N then
                                match parse_members fuel' r4 with
                                | Some (ms, r5) =>
                                    Some ((string_of_list_ascii k, v) :: ms, r5)
                                | None => None
                                end
                              else if (code c =? 125)%N then
                                Some ([(string_of_list_ascii k, v)], r4)
                              else None
                          | [] => None
                          end
                      end
                    else None
                | [] => None
                end
            end
          else None
      | [] => None
      end
  end.

(** What a script can throw. *)
Inductive Exn :=
| SyntaxError
| TypeError
| Error (message : string).

(** [JSON.parse(text)]: the value, or a [SyntaxError]. *)
Definition JSON_parse (text : string) : value + Exn :=
  let s := list_ascii_of_string text in
  match parse_value (2 * length s + 2) s with
  | Some (v, r) => match skip_ws r with [] => inl v | _ => inr SyntaxError end
  | None => inr SyntaxError
  end.

(** [JSON.stringify(value)].  Control characters are escaped, bytes above
    ASCII are copied. *)
Definition hex_digit (n : N) : ascii :=
  if (n <? 10)%N then byte (48 + n) else byte (87 + n).

Definition escape_char (c : ascii) : list ascii :=
  let n := code c in
  if (n =? 34)%N then [byte 92; byte 34]
  else if (n =? 92)%N then [byte 92; byte 92]
  else if (n =? 8)%N then [byte 92; byte 98]
  else if (n =? 12)%N then [byte 92; byte 102]
  else if (n =? 10)%N then [byte 92; byte 110]
  else if (n =? 13)%N then [byte 92; byte 114]
  else if (n =? 9)%N then [byte 92; byte 116]
  else if (n <? 32)%N then
    [byte 92; byte 117; byte 48; byte 48; hex_digit (n / 16); hex_digit (n mod 16)]
  else [c].

Definition quote (s : string) : string :=
  string_of_list_ascii
    ([byte 34] ++ flat_map escape_char (list_ascii_of_string s) ++ [byte 34]).

Fixpoint JSON_stringify (v : value) : string :=
  match v with
  | JNull => "null"
  | JBool true => "true"
  | JBool false => "false"
  | JNumber lexeme => lexeme
  | JString s => quote s
  | JArray items =>
      ("[" ++ (fix elements (l : list value) : string :=
                 match l with
                 | [] => ""
                 | [x] => JSON_stringify x
                 | x :: r => JSON_stringify x ++ "," ++ elements r
                 end) items ++ "]")%string
  | JObject members =>
      ("{" ++ (fix pairs (l : list (string * value)) : string :=
                 match l with
                 | [] => ""
                 | [(k, x)] => quote k ++ ":" ++ JSON_stringify x
                 | (k, x) :: r => quote k ++ ":" ++ JSON_stringify x ++ "," ++ pairs r
                 end) members ++ "}")%string
  end.

(** The text between the brackets of an array and between the braces of
    an object, as [JSON_stringify] writes them. *)
Definition elements_text : list value -> string :=
  fix elements (l : list value) : string :=
    match l with
    | [] => ""
    | [x] => JSON_stringify x
    | x :: r => (JSON_stringify x ++ "," ++ elements r)%string
    end.

Definition pairs_text : list (string * value) -> string :=
  fix pairs (l : list (string * value)) : string :=
    match l with
    | [] => ""
    | [(k, x)] => (quote k ++ ":" ++ JSON_stringify x)%string
    | (k, x) :: r => (quote k ++ ":" ++ JSON_stringify x ++ "," ++ pairs r)%string
    end.

(** What follows a value in a text: nothing, a comma or a closing
    bracket. *)
Definition closes (rest : list ascii) : bool :=
  match rest with
  | [] => true
  | c :: _ => ((code c =? 44) || (code c =? 93) || (code c =? 125))%N
  end.

(** A lexeme that is the text of a JSON number, whole. *)
Definition number_lexeme (lexeme : string) : bool :=
  match parse_number (list_ascii_of_string lexeme) with
  | Some (_, []) => true
  | _ => false
  end.

(** The values a serialiser writes and a parser returns: every number in
    them has the text of a JSON number. *)
Fixpoint well_formed (v : value) : bool :=
  match v with
  | JNumber lexeme => number_lexeme lexeme
  | JArray items => forallb well_formed items
  | JObject members => forallb (fun kv => well_formed (snd kv)) members
  | _ => true
  end.

(** The parser reads the text of [v] back as [v], whatever closes it,
    when its fuel is at least the length of that text. *)
Definition reads_back (v : value) : Prop :=
  forall fuel rest,
    (length (list_ascii_of_string (JSON_stringify v)) <= fuel)%nat ->
    closes rest = true ->
    parse_value fuel (list_ascii_of_string (JSON_stringify v) ++ rest) = Some (v, rest).

(** Frames are written in this file with apostrophes in place of the
    double quotes; [wire] puts the double quotes back. *)
Definition wire (s : string) : string :=
  string_of_list_ascii
    (map (fun c => if (code c =? 39)%N then byte 34 else c) (list_ascii_of_string s)).

End Json.

Import Json.

(** ** [frontend/src/types.ts] *)

Module Types.

Inductive QuestionType := Open | Single | Multi.

Record QuizOption := { o_id : string; o_text : string }.

(** [{ text } | { optionId } | { optionIds }] *)
Inductive AnswerKey :=
| KText (text : string)
| KOptionId (optionId : string)
| KOptionIds (optionIds : list string).

Record Question := {
  q_id : string;
  q_type : QuestionType;
  q_prompt : string;
  q_options : option (list QuizOption);      (* [options?] *)
  q_answer : AnswerKey
}.

Record Quiz := {
  title : string;
  description : option string;
  questions : list Question
}.

(** [WsEnvelope].  The type is erased when the program is compiled: the
    cast [JSON.parse(...) as WsEnvelope] checks nothing and changes nothing,
    so that a message is the parsed value itself, with every property the
    frame gave it, whatever its name. *)
Definition WsEnvelope := value.

Definition as_WsEnvelope (v : value) : WsEnvelope := v.

(** [question.options ?? []] *)
Definition options_or_empty (q : Question) : list QuizOption :=
  match q_options q with Some os => os | None => [] end.

(** An answer as the object literal a component builds for it. *)
Definition answer_object (a : AnswerKey) : value :=
  match a with
  | KText t => JObject [("text", JString t)]
  | KOptionId o => JObject [("optionId", JString o)]
  | KOptionIds os => JObject [("optionIds", JArray (map JString os))]
  end.

End Types.

Import Types.

(** ** [frontend/src/lib]: [connectRoom] and [sendWs] *)

Module Ws.

Inductive ReadyState := CONNECTING | OPEN | CLOSING | CLOSED.

(** A socket as the client sees it: its state and the text frames handed
    to [send], oldest first. *)
Record WebSocket := { readyState : ReadyState; sent : list string }.

Definition send (socket : WebSocket) (frame : string) : WebSocket :=
  {| readyState := readyState socket; sent := sent socket ++ [frame] |}.

Definition sendWs (socket : WebSocket) (event : string) (payload : value) : WebSocket :=
  match readyState socket with
  | OPEN =>
      send socket (JSON_stringify (JObject [("event", JString event); ("payload", payload)]))
  | _ => socket
  end.

(** Scripts run on a page state [St] and either return or throw. *)
Section Script.
Variable St : Type.

Definition Js (A : Type) : Type := St -> (A + Exn) * St.

Definition ret {A} (a : A) : Js A := fun s => (inl a, s).
Definition throw {A} (e : Exn) : Js A := fun s => (inr e, s).
Definition lift {A} (r : A + Exn) : Js A := fun s => (r, s).

Definition bind {A B} (m : Js A) (k : A -> Js B) : Js B :=
  fun s =>
    match m s with
    | (inl a, s') => k a s'
    | (inr e, s') => (inr e, s')
    end.

(** [try { body } catch { handler }] *)
Definition try_catch {A} (body : Js A) (handler : Exn -> Js A) : Js A :=
  fun s =>
    match body s with
    | (inl a, s') => (inl a, s')
    | (inr e, s') => handler e s'
    end.

(** The page's message handler, given to [connectRoom]. *)
Variable onMessage : value -> Js unit.

(** [socket.onmessage], as [connectRoom] installs it; [data] is
    [event.data] of a text frame. *)
Definition socket_onmessage (data : string) : Js unit :=
  try_catch
    (bind (lift (JSON_parse data)) onMessage)
    (fun _ => ret tt).

(** The socket object [connectRoom] returns: where it connects to and its
    [onmessage] callback. *)
Record RoomSocket := { url : string; onmessage : string -> Js unit }.

(** [connectRoom]; [protocol] and [host] are those of [window.location]. *)
Definition connectRoom (protocol host roomCode : string) : RoomSocket :=
  let proto := if String.eqb protocol "https:" then "wss" else "ws" in
  {| url := (proto ++ "://" ++ host ++ "/ws/sessions/" ++ roomCode)%string;
     onmessage := socket_onmessage |}.

(** The event loop hands the frames to the callback one after the other;
    an exception leaving the callback is reported and the loop goes on.
    The result lists the exceptions that left the callback. *)
Fixpoint deliver (frames : list string) (s : St) : list Exn * St :=
  match frames with
  | [] => ([], s)
  | data :: rest =>
      match socket_onmessage data s with
      | (inl _, s') => deliver rest s'
      | (inr e, s') => let (es, s'') := deliver rest s' in (e :: es, s'')
      end
  end.
End Script.

Arguments ret {St A}.
Arguments throw {St A}.
Arguments lift {St A}.
Arguments bind {St A B}.
Arguments try_catch {St A}.
Arguments socket_onmessage {St}.
Arguments url {St}.
Arguments onmessage {St}.
Arguments connectRoom {St}.
Arguments deliver {St}.

(** A handler that appends each value it is called with to a log, then
    runs [h]: the log tells how often and with what the handler ran. *)
Definition logged {St} (h : value -> Js St unit) : value -> Js (list value * St) unit :=
  fun v s =>
    match h v (snd s) with
    | (r, s') => (r, (fst s ++ [v], s'))
    end.

(** A page that counts the [question_push] frames it was handed, and fails
    on anything that is not an object. *)
Definition count_pushes (v : value) : Js nat unit :=
  match v with
  | JObject _ =>
      match get "event" v with
      | Some (JString "question_push") => fun n => (inl tt, S n)
      | _ => ret tt
      end
  | _ => throw TypeError
  end.

End Ws.

Import Ws.

(** ** [frontend/src/components/GameCanvas.tsx]: the [message] listener *)

Module GameCanvas.

(** [Props['mode']] *)
Inductive Mode := platformer | shooter.

(** The argument of [onTrigger]. *)
Inductive Reason := death | level_up.

Definition reason_string (r : Reason) : string :=
  match r with death => "death" | level_up => "level_up" end.

(** [event.data] once cast: [None] stands for [undefined] (a falsy value),
    and each field may be missing. *)
Record MessageData := {
  type : option string;
  source : option string;
  reason : option string
}.

Definition field_is (field : option string) (lit : string) : bool :=
  match field with Some s => String.eqb s lit | None => false end.

(** [onMessage]: [now] is [Date.now()], [lastEmit] is [lastEmitRef.current].
    The result is the new [lastEmitRef.current] and the call of [onTrigger],
    if one is made. *)
Definition onMessage (mode : Mode) (data : option MessageData) (now lastEmit : Z)
  : Z * option Reason :=
  match data with
  | None => (lastEmit, None)
  | Some d =>
      if negb (field_is (type d) "quiz_game_event") then (lastEmit, None)
      else if (now - lastEmit <? 900)%Z then (lastEmit, None)
      else
        (now,
         match mode with
         | platformer => if field_is (reason d) "death" then Some death else None
         | shooter => if field_is (reason d) "death" then Some death else None
         end)
  end.

(** The listener over a sequence of [message] events, each with the value
    of [Date.now()] at its arrival: for each event, that time and the
    [onTrigger] call it made. *)
Fixpoint trace (mode : Mode) (evs : list (Z * option MessageData)) (lastEmit : Z)
  : list (Z * option Reason) :=
  match evs with
  | [] => []
  | (now, d) :: rest =>
      let (last', call) := onMessage mode d now lastEmit in
      (now, call) :: trace mode rest last'
  end.

(** A message of the mini-game with the given reason. *)
Definition game_event (r : string) : option MessageData :=
  Some {| type := Some "quiz_game_event"; source := None; reason := Some r |}.

(** Whether a message is an event of the mini-game, which the listener
    does not drop at once. *)
Definition is_game_event (data : option MessageData) : bool :=
  match data with
  | Some d => field_is (type d) "quiz_game_event"
  | None => false
  end.

(** The throttle read as a rule on pairs of events: of two events of the
    mini-game received fewer than 900 ms apart, the later one does not
    invoke the trigger. *)
Definition only_first_triggers (mode : Mode) (evs : list (Z * option MessageData))
           (lastEmit : Z) : Prop :=
  forall i j ti tj di dj oj,
    (i < j)%nat ->
    nth_error evs i = Some (ti, di) ->
    nth_error evs j = Some (tj, dj) ->
    is_game_event di = true ->
    is_game_event dj = true ->
    (tj - ti < 900)%Z ->
    nth_error (trace mode evs lastEmit) j = Some (tj, oj) ->
    oj = None.

End GameCanvas.

(** ** [frontend/src/components/QuestionCard.tsx] *)

Module QuestionCard.

(** The three [useState] cells. *)
Record State := { open : string; single : string; multi : list string }.

Definition initial : State := {| open := ""; single := ""; multi := [] |}.

Definition includes (l : list string) (x : string) : bool :=
  existsb (String.eqb x) l.

(** The [onChange] of the checkbox of option [o]: [checked] is
    [e.target.checked]. *)
Definition onChange_multi (o : QuizOption) (checked : bool) (prev : list string)
  : list string :=
  if checked then prev ++ [o_id o]
  else filter (fun v => negb (String.eqb v (o_id o))) prev.

(** What the student can do on the card.  Options are addressed by their
    position in the rendered list. *)
Inductive Action :=
| Type_ (v : string)        (* type into the text input *)
| Pick (i : nat)            (* choose the i-th radio button *)
| Toggle (i : nat).         (* click the i-th checkbox *)

(** Only the inputs of the question's type are rendered.  A checkbox is
    controlled ([checked={multi.includes(o.id)}]): a click reports the
    opposite of what is displayed. *)
Definition dispatch (question : Question) (a : Action) (s : State) : State :=
  match a, q_type question with
  | Type_ v, Open => {| open := v; single := single s; multi := multi s |}
  | Pick i, Single =>
      match nth_error (options_or_empty question) i with
      | Some o => {| open := open s; single := o_id o; multi := multi s |}
      | None => s
      end
  | Toggle i, Multi =>
      match nth_error (options_or_empty question) i with
      | Some o =>
          {| open := open s; single := single s;
             multi := onChange_multi o (negb (includes (multi s) (o_id o))) (multi s) |}
      | None => s
      end
  | _, _ => s
  end.

(** The cells of a card that has shown [question], and no other question,
    since it was mounted. *)
Definition run (question : Question) (acts : list Action) : State :=
  fold_left (fun s a => dispatch question a s) acts initial.

(** The argument given to [onSubmit] by the button of the card. *)
Definition submitted (question : Question) (s : State) : AnswerKey :=
  match q_type question with
  | Open => KText (open s)
  | Single => KOptionId (single s)
  | Multi => KOptionIds (multi s)
  end.

Definition onSubmit_argument (question : Question) (s : State) : value :=
  answer_object (submitted question s).

(** What a card that shows one question keeps true of its ticked options:
    no id twice, and only ids of the options it renders. *)
Definition ticked_ok (q : Question) (s : State) : Prop :=
  NoDup (multi s) /\ incl (multi s) (map o_id (options_or_empty q)).

(** *** The card while it stays mounted

    The play page renders [<QuestionCard question={question} .../>] without
    a [key].  When it sets another question while the card is on the
    screen, React keeps the component and gives it the new [question]
    prop: the three cells keep their values.  They are lost when the card
    is removed from the screen. *)
Inductive Event :=
| Does (a : Action)               (* the student acts on the card *)
| Shows (question : Question).    (* the page gives the card another question *)

(** A mounted card: its [question] prop and its cells. *)
Record Card := { shown : Question; cells : State }.

Definition mount (question : Question) : Card :=
  {| shown := question; cells := initial |}.

Definition step (c : Card) (e : Event) : Card :=
  match e with
  | Does a => {| shown := shown c; cells := dispatch (shown c) a (cells c) |}
  | Shows question => {| shown := question; cells := cells c |}
  end.

(** The card mounted with [question], after these events. *)
Definition play (question : Question) (events : list Event) : Card :=
  fold_left step events (mount question).

(** The argument of [onSubmit] when the button of the card is clicked. *)
Definition click (c : Card) : value := onSubmit_argument (shown c) (cells c).

(** The questions a card has shown since it was mounted. *)
Definition questions_shown (question : Question) (events : list Event) : list Question :=
  question :: flat_map (fun e => match e with Shows q => [q] | Does _ => [] end) events.

Definition is_multi (q : Question) : bool :=
  match q_type q with Multi => true | _ => false end.

Definition is_single (q : Question) : bool :=
  match q_type q with Single => true | _ => false end.

(** The ids of the options of these questions. *)
Definition option_ids (qs : list Question) : list string :=
  flat_map (fun q => map o_id (options_or_empty q)) qs.

(** Whether the page gave the card another question. *)
Definition replaced (events : list Event) : bool :=
  existsb (fun e => match e with Shows _ => true | Does _ => false end) events.

End QuestionCard.

(** ** Strings of the client *)

Module JsString.

(** The white space that [String.prototype.trim] removes, in the UTF-8
    bytes of a text: the [WhiteSpace] and [LineTerminator] of ECMAScript.
    In one byte: tab, line feed, vertical tab, form feed, carriage return
    and space. *)
Definition white1 (a : ascii) : bool :=
  let n := code a in (((9 <=? n) && (n <=? 13)) || (n =? 32))%N.

(** In two bytes: the no-break space U+00A0. *)
Definition white2 (a b : ascii) : bool :=
  ((code a =? 194) && (code b =? 160))%N.

(** In three bytes: U+1680; U+2000 to U+200A, the line and paragraph
    separators U+2028 and U+2029, and U+202F; U+205F; the ideographic space
    U+3000; the byte order mark U+FEFF. *)
Definition white3 (a b c : ascii) : bool :=
  let x := code a in
  let y := code b in
  let z := code c in
  (((x =? 225) && (y =? 154) && (z =? 128))
   || ((x =? 226) && (y =? 128)
       && (((128 <=? z) && (z <=? 138)) || (z =? 168) || (z =? 169) || (z =? 175)))
   || ((x =? 226) && (y =? 129) && (z =? 159))
   || ((x =? 227) && (y =? 128) && (z =? 128))
   || ((x =? 239) && (y =? 187) && (z =? 191)))%N.

Section Strip.
(** What counts as white space at the head of the bytes, in one, two and
    three bytes. *)
Variable w1 : ascii -> bool.
Variable w2 : ascii -> ascii -> bool.
Variable w3 : ascii -> ascii -> ascii -> bool.

(** Whether the bytes start with white space. *)
Definition starts_white (s : list ascii) : bool :=
  match s with
  | a :: r =>
      w1 a
      || match r with
         | b :: r' =>
             w2 a b
             || match r' with
                | c :: _ => w3 a b c
                | [] => false
                end
         | [] => false
         end
  | [] => false
  end.

(** The bytes without the white space they start with. *)
Fixpoint strip (s : list ascii) : list ascii :=
  match s with
  | a :: r =>
      if w1 a then strip r
      else
        match r with
        | b :: r' =>
            if w2 a b then strip r'
            else
              match r' with
              | c :: r'' => if w3 a b c then strip r'' else s
              | [] => s
              end
        | [] => s
        end
  | [] => []
  end.
End Strip.

(** [s.trimStart()] *)
Definition trimStart_bytes (s : list ascii) : list ascii := strip white1 white2 white3 s.

(** White space at the end of a text is white space at the head of its
    bytes in reverse, each character read backwards. *)
Definition strip_reversed (s : list ascii) : list ascii :=
  strip white1 (fun b a => white2 a b) (fun c b a => white3 a b c) s.

(** [s.trim()] on the bytes of a text. *)
Definition trim_bytes (s : list ascii) : list ascii :=
  rev (strip_reversed (rev (trimStart_bytes s))).

(** [s.trim()] *)
Definition trim (s : string) : string :=
  string_of_list_ascii (trim_bytes (list_ascii_of_string s)).

(** [`${n}`] for a natural number. *)
Definition of_nat (n : nat) : string := NilZero.string_of_uint (Nat.to_uint n).

(** [`${z}`] for an integer. *)
Definition of_Z (z : Z) : string := NilZero.string_of_int (Z.to_int z).

(** [array.map((x, index) => ...)] *)
Fixpoint mapi_from {A B} (i : nat) (f : A -> nat -> B) (l : list A) : list B :=
  match l with
  | [] => []
  | x :: r => f x i :: mapi_from (S i) f r
  end.

Definition mapi {A B} (f : A -> nat -> B) (l : list A) : list B := mapi_from 0 f l.

(** [array.filter((x, index) => ...)] *)
Fixpoint filteri_from {A} (i : nat) (p : A -> nat -> bool) (l : list A) : list A :=
  match l with
  | [] => []
  | x :: r => if p x i then x :: filteri_from (S i) p r else filteri_from (S i) p r
  end.

Definition filteri {A} (p : A -> nat -> bool) (l : list A) : list A := filteri_from 0 p l.

End JsString.

(** ** [App.tsx]: the student's play page *)

Module StudentPlayPage.

Inductive Mode := platformer | shooter | classic.

(** [initialMode]: [raw] is [localStorage.getItem('session_game_mode')]. *)
Definition initialMode (raw : option string) : Mode :=
  match raw with
  | Some r =>
      if String.eqb r "platformer" then platformer
      else if String.eqb r "shooter" then shooter
      else classic
  | None => classic
  end.

Record Page := {
  mode : Mode;
  mobileView : bool;
  portrait : bool;
  socket : option WebSocket;
  question : option Question;
  awaitingNextQuestion : bool;
  mustGetCorrect : bool;
  status : string
}.

Definition is_classic (m : Mode) : bool :=
  match m with classic => true | _ => false end.

Definition some {A} (o : option A) : bool :=
  match o with Some _ => true | None => false end.

Definition triggerQuestion (reason : GameCanvas.Reason) (p : Page) : Page :=
  if negb (is_classic (mode p)) && mobileView p && portrait p then p
  else
    match socket p with
    | None => p
    | Some sock =>
        if some (question p) || awaitingNextQuestion p || mustGetCorrect p then p
        else
          {| mode := mode p;
             mobileView := mobileView p;
             portrait := portrait p;
             socket :=
               Some (sendWs sock "request_question"
                       (JObject [("reason", JString (GameCanvas.reason_string reason))]));
             question := question p;
             awaitingNextQuestion := true;
             mustGetCorrect := true;
             status := "Ответьте правильно, чтобы продолжить" |}
    end.

Definition submitAnswer (answer : value) (p : Page) : Page :=
  match socket p, question p with
  | Some sock, Some q =>
      {| mode := mode p;
         mobileView := mobileView p;
         portrait := portrait p;
         socket :=
           Some (sendWs sock "answer_submit"
                   (JObject [("questionId", JString (q_id q)); ("answer", answer)]));
         question := None;
         awaitingNextQuestion :=
           if is_classic (mode p) then awaitingNextQuestion p else true;
         mustGetCorrect := mustGetCorrect p;
         status := status p |}
  | _, _ => p
  end.

(** The canvas is rendered in the game modes only, with the page's mode. *)
Definition canvas_mode (m : Mode) : option GameCanvas.Mode :=
  match m with
  | platformer => Some GameCanvas.platformer
  | shooter => Some GameCanvas.shooter
  | classic => None
  end.

(** A [message] event on the window of the play page: the listener of the
    canvas runs, and its [onTrigger] is [triggerQuestion].  The state is
    the page together with [lastEmitRef.current] of the canvas. *)
Definition on_window_message (data : option GameCanvas.MessageData) (now : Z)
           (st : Page * Z) : Page * Z :=
  let (p, lastEmit) := st in
  match canvas_mode (mode p) with
  | None => st
  | Some m =>
      let (last', call) := GameCanvas.onMessage m data now lastEmit in
      (match call with Some r => triggerQuestion r p | None => p end, last')
  end.

(** The frames the page has handed to its socket. *)
Definition requests (p : Page) : list string :=
  match socket p with Some sock => sent sock | None => [] end.

(** The frame [{event: 'request_question', payload: {reason}}]. *)
Definition request_question (reason : string) : string :=
  JSON_stringify (JObject [("event", JString "request_question");
                           ("payload", JObject [("reason", JString reason)])]).

(** A page on which nothing holds a trigger back: a game mode, not a mobile
    in portrait, an open socket, no question shown, awaited or owed. *)
Definition idle (p : Page) : bool :=
  negb (is_classic (mode p))
  && negb (mobileView p && portrait p)
  && match socket p with
     | Some sock => match readyState sock with OPEN => true | _ => false end
     | None => false
     end
  && negb (some (question p))
  && negb (awaitingNextQuestion p)
  && negb (mustGetCorrect p).

(** The mini-game signals an event with reason [r] at time [now]: the
    requests of the page afterwards. *)
Definition requests_after (r : string) (now : Z) (st : Page * Z) : list string :=
  requests (fst (on_window_message (GameCanvas.game_event r) now st)).

(** "Both event kinds lead to a question request", in the most favourable
    situation: the page is idle and the throttle of the canvas is over. *)
Definition each_kind_requests : Prop :=
  forall (kind : GameCanvas.Reason) (p : Page) (lastEmit now : Z),
    idle p = true ->
    (900 <= now - lastEmit)%Z ->
    requests_after (GameCanvas.reason_string kind) now (p, lastEmit)
    = requests p ++ [request_question (GameCanvas.reason_string kind)].

(** The handler of the room socket for [question_push]:
    [setAwaitingNextQuestion(false); setQuestion(question)]. *)
Definition on_question_push (q : Question) (p : Page) : Page :=
  {| mode := mode p; mobileView := mobileView p; portrait := portrait p;
     socket := socket p;
     question := Some q;
     awaitingNextQuestion := false;
     mustGetCorrect := mustGetCorrect p;
     status := status p |}.

(** The page renders a card for its question, in the game modes unless it
    asks for landscape ([overlayActive && !needsLandscape], where the
    overlay is active as soon as a question is held). *)
Definition card_question (p : Page) : option Question :=
  if negb (is_classic (mode p)) && mobileView p && portrait p then None
  else question p.

(** The page and the card it has on the screen. *)
Record Screen := { page : Page; card : option QuestionCard.Card }.

(** The card after a rendering of the page: the one that was there with the
    question of the page as its prop, a new one when none was there, none
    when the page renders no card. *)
Definition render (p : Page) (old : option QuestionCard.Card) : Screen :=
  {| page := p;
     card := match card_question p, old with
             | Some q, Some c =>
                 Some {| QuestionCard.shown := q; QuestionCard.cells := QuestionCard.cells c |}
             | Some q, None => Some (QuestionCard.mount q)
             | None, _ => None
             end |}.

Inductive Happens :=
| Push (q : Question)                   (* a [question_push] frame arrives *)
| Student (a : QuestionCard.Action)     (* the student acts on the card *)
| Submit.                               (* the student clicks the button *)

Definition happens (s : Screen) (h : Happens) : Screen :=
  match h with
  | Push q => render (on_question_push q (page s)) (card s)
  | Student a =>
      {| page := page s;
         card := option_map (fun c => QuestionCard.step c (QuestionCard.Does a)) (card s) |}
  | Submit =>
      match card s with
      | Some c => render (submitAnswer (QuestionCard.click c) (page s)) (card s)
      | None => s
      end
  end.

Definition screen_after (p : Page) (hs : list Happens) : Screen :=
  fold_left happens hs (render p None).

(** A student in a platformer session, connected and playing. *)
Definition playing : Page :=
  {| mode := platformer; mobileView := false; portrait := false;
     socket := Some {| readyState := OPEN; sent := [] |};
     question := None; awaitingNextQuestion := false; mustGetCorrect := false;
     status := "Игра запущена" |}.

End StudentPlayPage.

(** ** [App.tsx] and [lib/api.ts]: starting a session from the dashboard *)

Module DashboardPage.

(** The modes the select offers, which is the type of [gameMode] in
    [api.createSession]. *)
Inductive GameMode := platformer | shooter | classic.

Definition mode_string (m : GameMode) : string :=
  match m with
  | platformer => "platformer"
  | shooter => "shooter"
  | classic => "classic"
  end.

(** [modeByQuiz : Record<number, GameMode>]; the most recent choice for a
    quiz comes first. *)
Definition ModeByQuiz := list (Z * GameMode).

Fixpoint lookup (m : ModeByQuiz) (quizId : Z) : option GameMode :=
  match m with
  | [] => None
  | (k, v) :: rest => if (k =? quizId)%Z then Some v else lookup rest quizId
  end.

(** [setModeByQuiz((p) => ({ ...p, [q.id]: value }))] *)
Definition choose (quizId : Z) (v : GameMode) (p : ModeByQuiz) : ModeByQuiz :=
  (quizId, v) :: p.

Record Request := { method : string; path : string; body : option value }.

(** [api.createSession] *)
Definition createSession (quizId : Z) (gameMode : GameMode) : Request :=
  {| method := "POST";
     path := "/sessions";
     body := Some (JObject [("quizId", JNumber (JsString.of_Z quizId));
                            ("gameMode", JString (mode_string gameMode))]) |}.

(** [startSession]: the request it sends. *)
Definition startSession (modeByQuiz : ModeByQuiz) (quizId : Z) : Request :=
  let mode := match lookup modeByQuiz quizId with Some m => m | None => classic end in
  createSession quizId mode.

(** The [gameMode] a request asks for. *)
Definition requested_mode (r : Request) : option string :=
  match body r with
  | Some b => match get "gameMode" b with Some (JString m) => Some m | _ => None end
  | None => None
  end.

End DashboardPage.

(** ** [App.tsx]: the quiz builder *)

Module NewQuizPage.

Record DraftQuestion := {
  id : string;
  type : QuestionType;
  prompt : string;
  options : list string;
  openAnswer : string;
  singleCorrect : Z;
  multiCorrect : list bool
}.

(** [createDraftQuestion]; [stamp] is [Date.now()]. *)
Definition createDraftQuestion (stamp : Z) (type : QuestionType) (seed : nat)
  : DraftQuestion :=
  {| id := ("q" ++ JsString.of_Z stamp ++ "_" ++ JsString.of_nat seed)%string;
     type := type;
     prompt := "";
     options := match type with Open => [] | _ => ["Вариант 1"; "Вариант 2"] end;
     openAnswer := "";
     singleCorrect := 0;
     multiCorrect := match type with Multi => [true; false] | _ => [] end |}.

(** [q.options.map((text, index) => ({ id: `o${index + 1}`, text: text.trim() }))] *)
Definition payload_options (texts : list string) : list QuizOption :=
  JsString.mapi
    (fun text index =>
       {| o_id := ("o" ++ JsString.of_nat (index + 1))%string;
          o_text := JsString.trim text |})
    texts.

(** [options[i]?.id ?? 'o1'] *)
Definition id_at_or_o1 (opts : list QuizOption) (i : nat) : string :=
  match nth_error opts i with Some o => o_id o | None => "o1" end.

(** A missing entry of [multiCorrect] is [undefined], which is falsy. *)
Definition selected_ids (q : DraftQuestion) (opts : list QuizOption) : list string :=
  map o_id (JsString.filteri (fun _ idx => nth idx (multiCorrect q) false) opts).

(** The body of the [questions.map] of [toQuizPayload]. *)
Definition toQuestion (q : DraftQuestion) : Question :=
  match type q with
  | Open =>
      {| q_id := id q; q_type := Open; q_prompt := JsString.trim (prompt q);
         q_options := None;
         q_answer := KText (JsString.trim (openAnswer q)) |}
  | Single =>
      let opts := payload_options (options q) in
      let i := Z.max 0 (Z.min (singleCorrect q) (Z.of_nat (length opts) - 1)) in
      {| q_id := id q; q_type := Single; q_prompt := JsString.trim (prompt q);
         q_options := Some opts;
         q_answer := KOptionId (id_at_or_o1 opts (Z.to_nat i)) |}
  | Multi =>
      let opts := payload_options (options q) in
      let selected := selected_ids q opts in
      {| q_id := id q; q_type := Multi; q_prompt := JsString.trim (prompt q);
         q_options := Some opts;
         q_answer :=
           KOptionIds (match selected with
                       | [] => [id_at_or_o1 opts 0]
                       | _ => selected
                       end) |}
  end.

(** [toQuizPayload], from the state of the page. *)
Definition toQuizPayload (title description : string) (questions : list DraftQuestion)
  : Quiz :=
  let normalizedDescription := JsString.trim description in
  {| Types.title := JsString.trim title;
     Types.description :=
       if (0 <? String.length normalizedDescription)%nat
       then Some normalizedDescription else None;
     Types.questions := map toQuestion questions |}.

End NewQuizPage.

(** ** [backend/migrations/20260226180000_init.sql]

    The tables the properties below are about, with their parents:
    [teachers], [quizzes], [quiz_questions], [quiz_answers], [game_sessions],
    [session_participants], [session_answers], [session_stats_aggregate].
    A table is the list of its rows.  [DATETIME(3)] is a number of
    milliseconds, [DECIMAL(5,2)] a number of hundredths, [BOOLEAN] a [bool],
    a nullable column an [option]. *)

Module Schema.

(** *** Column types *)

Definition lower (c : ascii) : ascii :=
  let n := code c in
  if ((65 <=? n) && (n <=? 90))%N then byte (n + 32) else c.

Fixpoint lower_string (s : string) : string :=
  match s with
  | EmptyString => EmptyString
  | String c r => String (lower c) (lower_string r)
  end.

(** Comparison of character columns.  The tables name no collation, so
    the server's default applies, which is case-insensitive; letters
    beyond ASCII are compared as they are. *)
Definition ci_eqb (a b : string) : bool :=
  String.eqb (lower_string a) (lower_string b).

(** The first [n] characters of a text in UTF-8, and the rest: a byte
    from 128 to 191 continues the character before it. *)
Fixpoint split_chars (n : nat) (s : list ascii) : list ascii * list ascii :=
  match s with
  | [] => ([], [])
  | c :: r =>
      if ((128 <=? code c) && (code c <? 192))%N
      then let (kept, cut) := split_chars n r in (c :: kept, cut)
      else match n with
           | O => ([], s)
           | S n' => let (kept, cut) := split_chars n' r in (c :: kept, cut)
           end
  end.

Definition enum_index (v : string) : option nat :=
  match NilEmpty.uint_of_string v with
  | Some u => Some (Nat.of_uint u)
  | None => None
  end.

Section Columns.
(** [strict]: whether the SQL mode is strict (the default).  Outside of
    strict mode a value that does not fit is adjusted, not refused. *)
Variable strict : bool.

(** [VARCHAR(n)] holds [n] characters: a value of more characters is cut
    to [n], which is refused in strict mode unless only spaces are cut. *)
Definition store_varchar (n : nat) (v : string) : option string :=
  let (kept, cut) := split_chars n (list_ascii_of_string v) in
  match cut with
  | [] => Some v
  | _ :: _ =>
      if forallb (fun c => (code c =? 32)%N) cut then Some (string_of_list_ascii kept)
      else if strict then None
      else Some (string_of_list_ascii kept)
  end.

(** An [ENUM] column stores the member the value names; a numeral that
    names no member is taken as the index of a member, counted from 1. *)
Definition store_enum (members : list string) (v : string) : option string :=
  match find (ci_eqb v) members with
  | Some m => Some m
  | None =>
      match enum_index v with
      | Some (S i) =>
          match nth_error members i with
          | Some m => Some m
          | None => if strict then None else Some ""
          end
      | _ => if strict then None else Some ""
      end
  end.

Definition store_integer (lo hi : Z) (v : Z) : option Z :=
  if ((lo <=? v) && (v <=? hi))%Z then Some v
  else if strict then None
  else Some (Z.max lo (Z.min hi v)).

Definition store_bigint : Z -> option Z :=
  store_integer (- 9223372036854775808) 9223372036854775807.
Definition store_int : Z -> option Z :=
  store_integer (- 2147483648) 2147483647.
Definition store_decimal_5_2 : Z -> option Z :=
  store_integer (- 99999) 99999.
End Columns.

(** *** Rows *)

Record teacher := {
  t_id : Z; t_login : string; t_password_hash : string;
  t_created_at : Z; t_updated_at : Z
}.

Record quiz := {
  qz_id : Z; qz_owner_teacher_id : Z; qz_title : string;
  qz_description : option string; qz_is_published : bool;
  qz_source_quiz_id : option Z; qz_created_at : Z; qz_updated_at : Z
}.

Record quiz_question := {
  qq_id : Z; qq_quiz_id : Z; qq_external_id : string; qq_q_type : string;
  qq_prompt : string; qq_position : Z
}.

Record quiz_answer := {
  qa_id : Z; qa_question_id : Z; qa_open_text : option string;
  qa_single_option_external_id : option string;
  qa_multi_option_external_ids : option value
}.

Record game_session := {
  gs_id : Z; gs_room_code : string; gs_join_token : string; gs_quiz_id : Z;
  gs_teacher_id : Z; gs_status : string; gs_game_mode : string;
  gs_started_at : option Z; gs_ended_at : option Z; gs_created_at : Z
}.

Record session_participant := {
  sp_id : Z; sp_session_id : Z; sp_nickname : string; sp_join_state : string;
  sp_connected_at : Z; sp_left_at : option Z
}.

Record session_answer := {
  sa_id : Z; sa_session_id : Z; sa_participant_id : Z; sa_question_id : Z;
  sa_attempt_no : Z; sa_answer_payload : value; sa_is_correct : bool;
  sa_answered_at : Z
}.

Record stats_aggregate := {
  ag_id : Z; ag_session_id : Z; ag_participant_id : option Z;
  ag_correct_count : Z; ag_wrong_count : Z; ag_correct_pct : Z;
  ag_updated_at : Z
}.

Record DB := {
  teachers : list teacher;
  quizzes : list quiz;
  quiz_questions : list quiz_question;
  quiz_answers : list quiz_answer;
  game_sessions : list game_session;
  session_participants : list session_participant;
  session_answers : list session_answer;
  session_stats_aggregate : list stats_aggregate
}.

Definition empty : DB :=
  {| teachers := []; quizzes := []; quiz_questions := []; quiz_answers := [];
     game_sessions := []; session_participants := []; session_answers := [];
     session_stats_aggregate := [] |}.

(** *** Keys

    Two rows collide when they agree on the [PRIMARY KEY] or on a
    [UNIQUE KEY].  A key with a [NULL] in it collides with no key: an
    index on a nullable column holds any number of [NULL]s. *)

Definition null_safe_key_eqb (a b : option Z) : bool :=
  match a, b with
  | Some x, Some y => (x =? y)%Z
  | _, _ => false
  end.

Definition teacher_clash (a b : teacher) : bool :=
  (t_id a =? t_id b)%Z || ci_eqb (t_login a) (t_login b).

Definition quiz_clash (a b : quiz) : bool := (qz_id a =? qz_id b)%Z.

(** [uk_quiz_questions_external (quiz_id, external_id)] *)
Definition quiz_question_clash (a b : quiz_question) : bool :=
  (qq_id a =? qq_id b)%Z
  || ((qq_quiz_id a =? qq_quiz_id b)%Z && ci_eqb (qq_external_id a) (qq_external_id b)).

(** [question_id BIGINT NOT NULL UNIQUE] *)
Definition quiz_answer_clash (a b : quiz_answer) : bool :=
  (qa_id a =? qa_id b)%Z || (qa_question_id a =? qa_question_id b)%Z.

(** [room_code ... UNIQUE], [join_token ... UNIQUE] *)
Definition game_session_clash (a b : game_session) : bool :=
  (gs_id a =? gs_id b)%Z
  || ci_eqb (gs_room_code a) (gs_room_code b)
  || ci_eqb (gs_join_token a) (gs_join_token b).

(** [uk_session_participants (session_id, nickname)] *)
Definition session_participant_clash (a b : session_participant) : bool :=
  (sp_id a =? sp_id b)%Z
  || ((sp_session_id a =? sp_session_id b)%Z && ci_eqb (sp_nickname a) (sp_nickname b)).

(** [uk_session_answers_attempt (session_id, participant_id, question_id, attempt_no)] *)
Definition session_answer_clash (a b : session_answer) : bool :=
  (sa_id a =? sa_id b)%Z
  || ((sa_session_id a =? sa_session_id b)%Z
      && (sa_participant_id a =? sa_participant_id b)%Z
      && (sa_question_id a =? sa_question_id b)%Z
      && (sa_attempt_no a =? sa_attempt_no b)%Z).

(** [uk_session_stats_aggregate (session_id, participant_id)], where
    [participant_id] is nullable. *)
Definition stats_aggregate_clash (a b : stats_aggregate) : bool :=
  (ag_id a =? ag_id b)%Z
  || ((ag_session_id a =? ag_session_id b)%Z
      && null_safe_key_eqb (ag_participant_id a) (ag_participant_id b)).

Definition free {row} (clash : row -> row -> bool) (table : list row) (r : row) : bool :=
  forallb (fun r' => negb (clash r r')) table.

(** [FOREIGN KEY ... REFERENCES parent(id)] *)
Definition refers {row} (id_of : row -> Z) (parent : list row) (k : Z) : bool :=
  existsb (fun r => (id_of r =? k)%Z) parent.

Definition refers_or_null {row} (id_of : row -> Z) (parent : list row) (k : option Z) : bool :=
  match k with Some k' => refers id_of parent k' | None => true end.

(** *** Statements *)

Inductive Stmt :=
| InsertTeacher (r : teacher)
| InsertQuiz (r : quiz)
| InsertQuizQuestion (r : quiz_question)
| InsertQuizAnswer (r : quiz_answer)
| InsertGameSession (r : game_session)
| InsertSessionParticipant (r : session_participant)
| InsertSessionAnswer (r : session_answer)
| InsertStatsAggregate (r : stats_aggregate)
| DeleteTeacher (k : Z)
| DeleteQuiz (k : Z)
| DeleteQuizQuestion (k : Z)
| DeleteQuizAnswer (k : Z)
| DeleteGameSession (k : Z)
| DeleteSessionParticipant (k : Z)
| DeleteSessionAnswer (k : Z)
| DeleteStatsAggregate (k : Z).

Definition guard (b : bool) : option unit := if b then Some tt else None.

Notation "x <- e ;; k" :=
  (match e with Some x => k | None => None end)
    (at level 61, e at next level, right associativity).

Definition without {row} (id_of : row -> Z) (k : Z) (table : list row) : list row :=
  filter (fun r => negb (id_of r =? k)%Z) table.

Section Exec.
Variable strict : bool.

(** The row as it is stored, or [None] when a column refuses its value. *)

Definition stored_teacher (r : teacher) : option teacher :=
  i <- store_bigint strict (t_id r) ;;
  l <- store_varchar strict 64 (t_login r) ;;
  h <- store_varchar strict 255 (t_password_hash r) ;;
  Some {| t_id := i; t_login := l; t_password_hash := h;
          t_created_at := t_created_at r; t_updated_at := t_updated_at r |}.

Definition stored_quiz (r : quiz) : option quiz :=
  i <- store_bigint strict (qz_id r) ;;
  o <- store_bigint strict (qz_owner_teacher_id r) ;;
  t <- store_varchar strict 255 (qz_title r) ;;
  Some {| qz_id := i; qz_owner_teacher_id := o; qz_title := t;
          qz_description := qz_description r; qz_is_published := qz_is_published r;
          qz_source_quiz_id := qz_source_quiz_id r;
          qz_created_at := qz_created_at r; qz_updated_at := qz_updated_at r |}.

Definition stored_quiz_question (r : quiz_question) : option quiz_question :=
  i <- store_bigint strict (qq_id r) ;;
  q <- store_bigint strict (qq_quiz_id r) ;;
  e <- store_varchar strict 64 (qq_external_id r) ;;
  t <- store_enum strict ["open"; "single"; "multi"] (qq_q_type r) ;;
  p <- store_int strict (qq_position r) ;;
  Some {| qq_id := i; qq_quiz_id := q; qq_external_id := e; qq_q_type := t;
          qq_prompt := qq_prompt r; qq_position := p |}.

Definition stored_quiz_answer (r : quiz_answer) : option quiz_answer :=
  i <- store_bigint strict (qa_id r) ;;
  q <- store_bigint strict (qa_question_id r) ;;
  s <- match qa_single_option_external_id r with
       | Some v => match store_varchar strict 64 v with
                   | Some v' => Some (Some v') | None => None end
       | None => Some None
       end ;;
  Some {| qa_id := i; qa_question_id := q; qa_open_text := qa_open_text r;
          qa_single_option_external_id := s;
          qa_multi_option_external_ids := qa_multi_option_external_ids r |}.

Definition stored_game_session (r : game_session) : option game_session :=
  i <- store_bigint strict (gs_id r) ;;
  c <- store_varchar strict 12 (gs_room_code r) ;;
  j <- store_varchar strict 36 (gs_join_token r) ;;
  q <- store_bigint strict (gs_quiz_id r) ;;
  t <- store_bigint strict (gs_teacher_id r) ;;
  s <- store_enum strict ["waiting"; "active"; "finished"] (gs_status r) ;;
  m <- store_enum strict ["platformer"; "shooter"; "tycoon"] (gs_game_mode r) ;;
  Some {| gs_id := i; gs_room_code := c; gs_join_token := j; gs_quiz_id := q;
          gs_teacher_id := t; gs_status := s; gs_game_mode := m;
          gs_started_at := gs_started_at r; gs_ended_at := gs_ended_at r;
          gs_created_at := gs_created_at r |}.

Definition stored_session_participant (r : session_participant)
  : option session_participant :=
  i <- store_bigint strict (sp_id r) ;;
  s <- store_bigint strict (sp_session_id r) ;;
  n <- store_varchar strict 64 (sp_nickname r) ;;
  j <- store_enum strict ["waiting"; "playing"; "left"] (sp_join_state r) ;;
  Some {| sp_id := i; sp_session_id := s; sp_nickname := n; sp_join_state := j;
          sp_connected_at := sp_connected_at r; sp_left_at := sp_left_at r |}.

Definition stored_session_answer (r : session_answer) : option session_answer :=
  i <- store_bigint strict (sa_id r) ;;
  s <- store_bigint strict (sa_session_id r) ;;
  p <- store_bigint strict (sa_participant_id r) ;;
  q <- store_bigint strict (sa_question_id r) ;;
  a <- store_int strict (sa_attempt_no r) ;;
  Some {| sa_id := i; sa_session_id := s; sa_participant_id := p; sa_question_id := q;
          sa_attempt_no := a; sa_answer_payload := sa_answer_payload r;
          sa_is_correct := sa_is_correct r; sa_answered_at := sa_answered_at r |}.

Definition stored_stats_aggregate (r : stats_aggregate) : option stats_aggregate :=
  i <- store_bigint strict (ag_id r) ;;
  s <- store_bigint strict (ag_session_id r) ;;
  p <- match ag_participant_id r with
       | Some v => match store_bigint strict v with
                   | Some v' => Some (Some v') | None => None end
       | None => Some None
       end ;;
  c <- store_int strict (ag_correct_count r) ;;
  w <- store_int strict (ag_wrong_count r) ;;
  pct <- store_decimal_5_2 strict (ag_correct_pct r) ;;
  Some {| ag_id := i; ag_session_id := s; ag_participant_id := p;
          ag_correct_count := c; ag_wrong_count := w; ag_correct_pct := pct;
          ag_updated_at := ag_updated_at r |}.

(** One statement: the new state, or [None] when the server refuses it.
    A [DELETE] removes the row with the given [id] and nothing else: the
    referential actions ([ON DELETE CASCADE], or the refusal to delete a
    parent still referred to) are left out, which only adds states to those
    the server can reach.  An [UPDATE] of a row is a [DELETE] followed by an
    [INSERT].  The statements are the plain ones: an [INSERT IGNORE], which
    in strict mode too stores the adjusted value of the non-strict mode, is
    not among them. *)
Definition exec (st : Stmt) (db : DB) : option DB :=
  match st with
  | InsertTeacher r0 =>
      r <- stored_teacher r0 ;;
      _ <- guard (free teacher_clash (teachers db) r) ;;
      Some {| teachers := teachers db ++ [r]; quizzes := quizzes db;
              quiz_questions := quiz_questions db; quiz_answers := quiz_answers db;
              game_sessions := game_sessions db;
              session_participants := session_participants db;
              session_answers := session_answers db;
              session_stats_aggregate := session_stats_aggregate db |}
  | InsertQuiz r0 =>
      r <- stored_quiz r0 ;;
      _ <- guard (free quiz_clash (quizzes db) r) ;;
      _ <- guard (refers t_id (teachers db) (qz_owner_teacher_id r)) ;;
      _ <- guard (refers_or_null qz_id (quizzes db) (qz_source_quiz_id r)) ;;
      Some {| teachers := teachers db; quizzes := quizzes db ++ [r];
              quiz_questions := quiz_questions db; quiz_answers := quiz_answers db;
              game_sessions := game_sessions db;
              session_participants := session_participants db;
              session_answers := session_answers db;
              session_stats_aggregate := session_stats_aggregate db |}
  | InsertQuizQuestion r0 =>
      r <- stored_quiz_question r0 ;;
      _ <- guard (free quiz_question_clash (quiz_questions db) r) ;;
      _ <- guard (refers qz_id (quizzes db) (qq_quiz_id r)) ;;
      Some {| teachers := teachers db; quizzes := quizzes db;
              quiz_questions := quiz_questions db ++ [r];
              quiz_answers := quiz_answers db;
              game_sessions := game_sessions db;
              session_participants := session_participants db;
              session_answers := session_answers db;
              session_stats_aggregate := session_stats_aggregate db |}
  | InsertQuizAnswer r0 =>
      r <- stored_quiz_answer r0 ;;
      _ <- guard (free quiz_answer_clash (quiz_answers db) r) ;;
      _ <- guard (refers qq_id (quiz_questions db) (qa_question_id r)) ;;
      Some {| teachers := teachers db; quizzes := quizzes db;
              quiz_questions := quiz_questions db;
              quiz_answers := quiz_answers db ++ [r];
              game_sessions := game_sessions db;
              session_participants := session_participants db;
              session_answers := session_answers db;
              session_stats_aggregate := session_stats_aggregate db |}
  | InsertGameSession r0 =>
      r <- stored_game_session r0 ;;
      _ <- guard (free game_session_clash (game_sessions db) r) ;;
      _ <- guard (refers qz_id (quizzes db) (gs_quiz_id r)) ;;
      _ <- guard (refers t_id (teachers db) (gs_teacher_id r)) ;;
      Some {| teachers := teachers db; quizzes := quizzes db;
              quiz_questions := quiz_questions db; quiz_answers := quiz_answers db;
              game_sessions := game_sessions db ++ [r];
              session_participants := session_participants db;
              session_answers := session_answers db;
              session_stats_aggregate := session_stats_aggregate db |}
  | InsertSessionParticipant r0 =>
      r <- stored_session_participant r0 ;;
      _ <- guard (free session_participant_clash (session_participants db) r) ;;
      _ <- guard (refers gs_id (game_sessions db) (sp_session_id r)) ;;
      Some {| teachers := teachers db; quizzes := quizzes db;
              quiz_questions := quiz_questions db; quiz_answers := quiz_answers db;
              game_sessions := game_sessions db;
              session_participants := session_participants db ++ [r];
              session_answers := session_answers db;
              session_stats_aggregate := session_stats_aggregate db |}
  | InsertSessionAnswer r0 =>
      r <- stored_session_answer r0 ;;
      _ <- guard (free session_answer_clash (session_answers db) r) ;;
      _ <- guard (refers gs_id (game_sessions db) (sa_session_id r)) ;;
      _ <- guard (refers sp_id (session_participants db) (sa_participant_id r)) ;;
      _ <- guard (refers qq_id (quiz_questions db) (sa_question_id r)) ;;
      Some {| teachers := teachers db; quizzes := quizzes db;
              quiz_questions := quiz_questions db; quiz_answers := quiz_answers db;
              game_sessions := game_sessions db;
              session_participants := session_participants db;
              session_answers := session_answers db ++ [r];
              session_stats_aggregate := session_stats_aggregate db |}
  | InsertStatsAggregate r0 =>
      r <- stored_stats_aggregate r0 ;;
      _ <- guard (free stats_aggregate_clash (session_stats_aggregate db) r) ;;
      _ <- guard (refers gs_id (game_sessions db) (ag_session_id r)) ;;
      _ <- guard (refers_or_null sp_id (session_participants db) (ag_participant_id r)) ;;
      Some {| teachers := teachers db; quizzes := quizzes db;
              quiz_questions := quiz_questions db; quiz_answers := quiz_answers db;
              game_sessions := game_sessions db;
              session_participants := session_participants db;
              session_answers := session_answers db;
              session_stats_aggregate := session_stats_aggregate db ++ [r] |}
  | DeleteTeacher k =>
      Some {| teachers := without t_id k (teachers db); quizzes := quizzes db;
              quiz_questions := quiz_questions db; quiz_answers := quiz_answers db;
              game_sessions := game_sessions db;
              session_participants := session_participants db;
              session_answers := session_answers db;
              session_stats_aggregate := session_stats_aggregate db |}
  | DeleteQuiz k =>
      Some {| teachers := teachers db; quizzes := without qz_id k (quizzes db);
              quiz_questions := quiz_questions db; quiz_answers := quiz_answers db;
              game_sessions := game_sessions db;
              session_participants := session_participants db;
              session_answers := session_answers db;
              session_stats_aggregate := session_stats_aggregate db |}
  | DeleteQuizQuestion k =>
      Some {| teachers := teachers db; quizzes := quizzes db;
              quiz_questions := without qq_id k (quiz_questions db);
              quiz_answers := quiz_answers db;
              game_sessions := game_sessions db;
              session_participants := session_participants db;
              session_answers := session_answers db;
              session_stats_aggregate := session_stats_aggregate db |}
  | DeleteQuizAnswer k =>
      Some {| teachers := teachers db; quizzes := quizzes db;
              quiz_questions := quiz_questions db;
              quiz_answers := without qa_id k (quiz_answers db);
              game_sessions := game_sessions db;
              session_participants := session_participants db;
              session_answers := session_answers db;
              session_stats_aggregate := session_stats_aggregate db |}
  | DeleteGameSession k =>
      Some {| teachers := teachers db; quizzes := quizzes db;
              quiz_questions := quiz_questions db; quiz_answers := quiz_answers db;
              game_sessions := without gs_id k (game_sessions db);
              session_participants := session_participants db;
              session_answers := session_answers db;
              session_stats_aggregate := session_stats_aggregate db |}
  | DeleteSessionParticipant k =>
      Some {| teachers := teachers db; quizzes := quizzes db;
              quiz_questions := quiz_questions db; quiz_answers := quiz_answers db;
              game_sessions := game_sessions db;
              session_participants := without sp_id k (session_participants db);
              session_answers := session_answers db;
              session_stats_aggregate := session_stats_aggregate db |}
  | DeleteSessionAnswer k =>
      Some {| teachers := teachers db; quizzes := quizzes db;
              quiz_questions := quiz_questions db; quiz_answers := quiz_answers db;
              game_sessions := game_sessions db;
              session_participants := session_participants db;
              session_answers := without sa_id k (session_answers db);
              session_stats_aggregate := session_stats_aggregate db |}
  | DeleteStatsAggregate k =>
      Some {| teachers := teachers db; quizzes := quizzes db;
              quiz_questions := quiz_questions db; quiz_answers := quiz_answers db;
              game_sessions := game_sessions db;
              session_participants := session_participants db;
              session_answers := session_answers db;
              session_stats_aggregate := without ag_id k (session_stats_aggregate db) |}
  end.

(** A script stops at the first statement the server refuses. *)
Fixpoint exec_all (sts : list Stmt) (db : DB) : option DB :=
  match sts with
  | [] => Some db
  | st :: rest => db' <- exec st db ;; exec_all rest db'
  end.

(** The states of a database that starts empty. *)
Definition reachable (db : DB) : Prop :=
  exists sts, exec_all sts empty = Some db.
End Exec.

(** *** Reading the state *)

(** The rows of the aggregate of a session: the class row has no
    participant. *)
Definition class_rows (db : DB) (session : Z) : list stats_aggregate :=
  filter (fun r => (ag_session_id r =? session)%Z
                   && match ag_participant_id r with None => true | Some _ => false end)
         (session_stats_aggregate db).

Definition participant_rows (db : DB) (session participant : Z) : list stats_aggregate :=
  filter (fun r => (ag_session_id r =? session)%Z
                   && match ag_participant_id r with
                      | Some p => (p =? participant)%Z
                      | None => false
                      end)
         (session_stats_aggregate db).

(** The option ids recorded as the answer of a question. *)
Definition strings_of (v : value) : list string :=
  match v with
  | JArray items =>
      flat_map (fun i => match i with JString s => [s] | _ => [] end) items
  | _ => []
  end.

Definition recorded_option_ids (db : DB) (question : Z) : list string :=
  flat_map (fun a => if (qa_question_id a =? question)%Z
                     then match qa_multi_option_external_ids a with
                          | Some v => strings_of v
                          | None => []
                          end
                     else [])
           (quiz_answers db).

Definition multi_questions (db : DB) : list quiz_question :=
  filter (fun q => String.eqb (qq_q_type q) "multi") (quiz_questions db).

(** The key of a row under a [UNIQUE KEY]; none when a column of the key is
    [NULL]. *)
Definition answer_key (r : session_answer) : Z * Z * Z * Z :=
  (sa_session_id r, sa_participant_id r, sa_question_id r, sa_attempt_no r).

Definition participant_key (r : session_participant) : Z * string :=
  (sp_session_id r, sp_nickname r).

Definition aggregate_key (r : stats_aggregate) : option (Z * Z) :=
  match ag_participant_id r with
  | Some p => Some (ag_session_id r, p)
  | None => None
  end.

Definition keys {row K} (key : row -> option K) (table : list row) : list K :=
  flat_map (fun r => match key r with Some k => [k] | None => [] end) table.

(** What every state keeps true. *)
Definition invariant (db : DB) : Prop :=
  NoDup (keys (fun r => Some (answer_key r)) (session_answers db))
  /\ NoDup (keys (fun r => Some (participant_key r)) (session_participants db))
  /\ NoDup (keys aggregate_key (session_stats_aggregate db))
  /\ Forall (fun r => In (gs_game_mode r) ["platformer"; "shooter"; "tycoon"; ""])
            (game_sessions db).

(** *** Sample scripts *)

Definition a_teacher : teacher :=
  {| t_id := 1; t_login := "teacher"; t_password_hash := "hash";
     t_created_at := 0; t_updated_at := 0 |}.

Definition a_quiz : quiz :=
  {| qz_id := 1; qz_owner_teacher_id := 1; qz_title := "Quiz"; qz_description := None;
     qz_is_published := false; qz_source_quiz_id := None;
     qz_created_at := 0; qz_updated_at := 0 |}.

Definition a_question (k : Z) (external_id q_type : string) : quiz_question :=
  {| qq_id := k; qq_quiz_id := 1; qq_external_id := external_id; qq_q_type := q_type;
     qq_prompt := "prompt"; qq_position := k |}.

Definition a_session (mode : string) : game_session :=
  {| gs_id := 1; gs_room_code := "ABCDEF"; gs_join_token := "token"; gs_quiz_id := 1;
     gs_teacher_id := 1; gs_status := "waiting"; gs_game_mode := mode;
     gs_started_at := None; gs_ended_at := None; gs_created_at := 0 |}.

Definition a_participant (k : Z) (nickname : string) : session_participant :=
  {| sp_id := k; sp_session_id := 1; sp_nickname := nickname; sp_join_state := "playing";
     sp_connected_at := 0; sp_left_at := None |}.

Definition an_answer (k participant attempt : Z) (correct : bool) : session_answer :=
  {| sa_id := k; sa_session_id := 1; sa_participant_id := participant; sa_question_id := 1;
     sa_attempt_no := attempt; sa_answer_payload := JObject [("optionId", JString "o1")];
     sa_is_correct := correct; sa_answered_at := 0 |}.

Definition an_aggregate (k : Z) (participant : option Z) : stats_aggregate :=
  {| ag_id := k; ag_session_id := 1; ag_participant_id := participant;
     ag_correct_count := 0; ag_wrong_count := 0; ag_correct_pct := 0; ag_updated_at := 0 |}.

Definition setup : list Stmt :=
  [InsertTeacher a_teacher; InsertQuiz a_quiz;
   InsertQuizQuestion (a_question 1 "q1" "single");
   InsertGameSession (a_session "platformer");
   InsertSessionParticipant (a_participant 1 "alice");
   InsertSessionParticipant (a_participant 2 "bob")].

(** A session in which alice answered twice and bob once. *)
Definition played : list Stmt :=
  setup ++ [InsertSessionAnswer (an_answer 1 1 1 false);
            InsertSessionAnswer (an_answer 2 1 2 true);
            InsertSessionAnswer (an_answer 3 2 1 true)].

(** The class row of the aggregate of session 1, written twice. *)
Definition two_class_rows : list Stmt :=
  setup ++ [InsertStatsAggregate (an_aggregate 1 None);
            InsertStatsAggregate (an_aggregate 2 None)].

(** Two multi questions: the answer row of the first has no column filled,
    the one of the second holds an empty array. *)
Definition keyless_multi : list Stmt :=
  [InsertTeacher a_teacher; InsertQuiz a_quiz;
   InsertQuizQuestion (a_question 1 "q1" "multi");
   InsertQuizQuestion (a_question 2 "q2" "multi");
   InsertQuizAnswer {| qa_id := 1; qa_question_id := 1; qa_open_text := None;
                       qa_single_option_external_id := None;
                       qa_multi_option_external_ids := None |};
   InsertQuizAnswer {| qa_id := 2; qa_question_id := 2; qa_open_text := None;
                       qa_single_option_external_id := None;
                       qa_multi_option_external_ids := Some (JArray []) |}].

Definition state_after (strict : bool) (script : list Stmt) : DB :=
  match exec_all strict script empty with Some db => db | None => empty end.

End Schema.

(** ** The answer grader (specification, section 4.1) *)

Module Grader.

Inductive Verdict := Correct | Incorrect | Malformed.

(** Modelled from the spec: the punctuation set stripped from open
    answers: full stop, comma, exclamation mark, question mark, semicolon,
    colon, double quote and apostrophe (the grader belongs to the server,
    whose code is not among the sources). *)
Definition is_punctuation (c : ascii) : bool :=
  let n := code c in
  ((n =? 46) || (n =? 44) || (n =? 33) || (n =? 63)
   || (n =? 59) || (n =? 58) || (n =? 34) || (n =? 39))%N.

(** Modelled from the spec: the white space of the normalisation of the
    absent grader, within ASCII: tab, line feed, vertical tab, form feed,
    carriage return and space. *)
Definition is_space (c : ascii) : bool :=
  let n := code c in (((9 <=? n) && (n <=? 13)) || (n =? 32))%N.

Fixpoint drop_spaces (s : list ascii) : list ascii :=
  match s with
  | c :: r => if is_space c then drop_spaces r else s
  | [] => []
  end.

(** Modelled from the spec: trimming, the first step of the
    normalisation of the absent grader. *)
Definition trim_chars (s : list ascii) : list ascii :=
  rev (drop_spaces (rev (drop_spaces s))).

(** Modelled from the spec: collapsing a run of white space to one space
    (part of the normalisation of the absent grader); [after_space] tells
    that the previous character was white space. *)
Fixpoint collapse (after_space : bool) (s : list ascii) : list ascii :=
  match s with
  | [] => []
  | c :: r =>
      if is_space c
      then if after_space then collapse true r else byte 32 :: collapse true r
      else c :: collapse false r
  end.

Section Grade.
(** Lowercasing is Unicode case folding on the server; the grader is
    defined for any such function on texts. *)
Variable lowercase : list ascii -> list ascii.

(** Modelled from the spec: the normalisation of open answers of the
    absent grader: trim, collapse inner white space to single spaces,
    lowercase, strip the punctuation set. *)
Definition normalise (text : string) : list ascii :=
  filter (fun c => negb (is_punctuation c))
         (lowercase (collapse false (trim_chars (list_ascii_of_string text)))).

Definition mem (x : string) (l : list string) : bool := existsb (String.eqb x) l.

(** Modelled from the spec: equality of two lists of option ids as sets
    (for the multi rule of the absent grader). *)
Definition same_set (a b : list string) : bool :=
  forallb (fun x => mem x b) a && forallb (fun x => mem x a) b.

(** Modelled from the spec: the absent answer grader.  A payload whose
    shape is not the one of the question's type is [Malformed];
    [open] compares the normalised texts; [single] compares the ids;
    [multi] compares the ids as sets, an empty submission being
    [Incorrect].  A key that has not the shape of the type equals no
    submission. *)
Definition grade (question : Question) (submitted : AnswerKey) : Verdict :=
  match q_type question, submitted with
  | Open, KText t =>
      match q_answer question with
      | KText k =>
          if list_eq_dec ascii_dec (normalise k) (normalise t) then Correct else Incorrect
      | _ => Incorrect
      end
  | Single, KOptionId o =>
      match q_answer question with
      | KOptionId k => if String.eqb k o then Correct else Incorrect
      | _ => Incorrect
      end
  | Multi, KOptionIds os =>
      match q_answer question with
      | KOptionIds ks =>
          match os with
          | [] => Incorrect
          | _ => if same_set ks os then Correct else Incorrect
          end
      | _ => Incorrect
      end
  | _, _ => Malformed
  end.
End Grade.

(** Modelled from the spec: the data model of section 3 for the key of a
    question: a text for [open], one option id for [single], a non-empty
    set of option ids for [multi]. *)
Definition well_formed (question : Question) : bool :=
  match q_type question, q_answer question with
  | Open, KText _ => true
  | Single, KOptionId _ => true
  | Multi, KOptionIds (_ :: _) => true
  | _, _ => false
  end.

Definition is_blank (s : string) : bool :=
  forallb is_space (list_ascii_of_string s).

(** ASCII lowercasing, one instance of [lowercase]. *)
Definition ascii_lowercase (s : list ascii) : list ascii := map Schema.lower s.

End Grader.

(** ** The outbound envelope (specification, section 4.5) *)

Module Envelope.

(** Modelled from the spec: the outbound envelope
    [{event, payload, requestId?, ts}] of the server, whose code is not
    among the sources. *)
Record Outbound := {
  event : string;
  payload : value;
  requestId : option string;
  ts : string
}.

(** Modelled from the spec: the object the absent server puts on the
    wire for an envelope, with the field names of section 4.5; the request
    identifier is left out when there is none. *)
Definition to_object (e : Outbound) : value :=
  JObject ([("event", JString (event e)); ("payload", payload e)]
           ++ match requestId e with
              | Some r => [("requestId", JString r)]
              | None => []
              end
           ++ [("ts", JString (ts e))]).

(** Modelled from the spec: serialisation of an envelope to the text of
    a frame by the absent server. *)
Definition serialize (e : Outbound) : string := JSON_stringify (to_object e).

(** What the handler of [connectRoom] is given for a frame:
    [JSON.parse(event.data) as WsEnvelope], and nothing for a frame that is
    not JSON. *)
Definition received (frame : string) : option WsEnvelope :=
  match JSON_parse frame with
  | inl v => Some (as_WsEnvelope v)
  | inr _ => None
  end.

(** An envelope that answers a request. *)
Definition answer_result : Outbound :=
  {| event := "answer_result";
     payload := JObject [("questionId", JString "q1"); ("correct", JBool true);
                         ("nextAction", JString "continue")];
     requestId := Some "r-1";
     ts := "2026-02-26T18:00:00.000Z" |}.

End Envelope.

(** ** More strings of the client *)

Module Text.

(** [s.length]: the number of UTF-16 code units of a text held as UTF-8
    bytes.  A byte that starts a character counts one, a byte that starts a
    character beyond the basic plane (four bytes) counts two, a continuation
    byte none. *)
Definition units (c : ascii) : nat :=
  let n := code c in
  if ((128 <=? n) && (n <? 192))%N then 0
  else if (240 <=? n)%N then 2
  else 1.

Definition length16_chars (s : list ascii) : nat :=
  fold_right (fun c k => units c + k) 0 s.

Definition length16 (s : string) : nat := length16_chars (list_ascii_of_string s).

(** [s.split(sep)] for a separator of one character: the pieces between
    the separators, at least one. *)
Fixpoint split_on (sep : ascii) (s : list ascii) : list (list ascii) :=
  match s with
  | [] => [[]]
  | c :: r =>
      if Ascii.eqb c sep then [] :: split_on sep r
      else match split_on sep r with
           | p :: ps => (c :: p) :: ps
           | [] => [[c]]
           end
  end.

(** [pieces.join(sep)] *)
Fixpoint join_with (sep : ascii) (pieces : list (list ascii)) : list ascii :=
  match pieces with
  | [] => []
  | [p] => p
  | p :: rest => p ++ sep :: join_with sep rest
  end.

(** [s.startsWith(prefix)] *)
Fixpoint starts_with (prefix s : list ascii) : bool :=
  match prefix, s with
  | [], _ => true
  | _ :: _, [] => false
  | a :: p, b :: r => Ascii.eqb a b && starts_with p r
  end.

(** A text that [trim] leaves as it is: no white space at either end. *)
Definition trimmed (s : list ascii) : Prop := JsString.trim_bytes s = s.

End Text.

(** ** [frontend/src/lib/api.ts] *)

Module Api.

Definition semicolon : ascii := byte 59.
Definition equals : ascii := byte 61.
Definition space : ascii := byte 32.

(** [getCookie]; [cookie] is [document.cookie]. *)
Definition getCookie (cookie name : string) : option string :=
  let target :=
    find (Text.starts_with (list_ascii_of_string name ++ [equals]))
         (map JsString.trim_bytes (Text.split_on semicolon (list_ascii_of_string cookie))) in
  match target with
  | Some t => Some (string_of_list_ascii (Text.join_with equals (tl (Text.split_on equals t))))
  | None => None
  end.

(** What [document.cookie] reads for the cookies of a page: the pairs
    [name=value], separated by a semicolon and a space. *)
Definition pair_text (c : string * string) : list ascii :=
  list_ascii_of_string (fst c) ++ equals :: list_ascii_of_string (snd c).

Definition document_cookie (jar : list (string * string)) : string :=
  string_of_list_ascii
    (Text.join_with semicolon
       (match jar with
        | [] => []
        | c :: rest => pair_text c :: map (fun c' => space :: pair_text c') rest
        end)).

(** The value of the first cookie of a name. *)
Fixpoint first_value (jar : list (string * string)) (name : string) : option string :=
  match jar with
  | [] => None
  | (n, v) :: rest => if String.eqb n name then Some v else first_value rest name
  end.

(** A cookie that [getCookie] can read back whole: no semicolon in the
    pair, no equals sign in the name, and no white space at either end of
    the pair, of any kind that [trim] removes. *)
Definition plain_cookie (c : string * string) : Prop :=
  ~ In semicolon (pair_text c)
  /\ ~ In equals (list_ascii_of_string (fst c))
  /\ Text.trimmed (pair_text c).

(** A [Headers] object: its header list, the names as they were given. *)
Definition Headers := list (string * string).

(** Header names are compared without regard to the case of ASCII
    letters. *)
Definition names (name : string) (kv : string * string) : bool :=
  String.eqb (Schema.lower_string (fst kv)) (Schema.lower_string name).

(** A header name is a token: one character or more, each a letter, a digit
    or one of the marks that may stand in a token. *)
Definition is_tchar (c : ascii) : bool :=
  let n := code c in
  (((48 <=? n) && (n <=? 57)) || ((65 <=? n) && (n <=? 90)) || ((97 <=? n) && (n <=? 122))
   || existsb (N.eqb n) [33; 35; 36; 37; 38; 39; 42; 43; 45; 46; 94; 95; 96; 124; 126])%N.

Definition is_header_name (name : string) : bool :=
  match list_ascii_of_string name with
  | [] => false
  | cs => forallb is_tchar cs
  end.

(** The argument of [set] is a [ByteString]: every code unit is below 256.
    In UTF-8 these are the texts without a byte from 196 on, the first byte
    of U+0100. *)
Definition is_byte_string (value : string) : bool :=
  forallb (fun c => (code c <? 196)%N) (list_ascii_of_string value).

(** HTTP white space: tab, line feed, carriage return and space. *)
Definition is_http_space (c : ascii) : bool :=
  let n := code c in ((n =? 9) || (n =? 10) || (n =? 13) || (n =? 32))%N.

Fixpoint drop_http_space (s : list ascii) : list ascii :=
  match s with
  | c :: r => if is_http_space c then drop_http_space r else s
  | [] => []
  end.

(** A value is normalized by removing the HTTP white space around it. *)
Definition normalize (value : list ascii) : list ascii :=
  rev (drop_http_space (rev (drop_http_space value))).

(** A header value holds no NUL, line feed or carriage return. *)
Definition is_header_value (value : list ascii) : bool :=
  forallb (fun c => negb ((code c =? 0) || (code c =? 10) || (code c =? 13))%N) value.

(** The value [set] stores for its argument; [None] stands for the
    [TypeError] it throws instead. *)
Definition header_value (value : string) : option string :=
  if is_byte_string value then
    let v := normalize (list_ascii_of_string value) in
    if is_header_value v then Some (string_of_list_ascii v) else None
  else None.

(** Setting a header in a header list: the first header of that name takes
    the value and the others of that name are removed; without one the
    header is appended. *)
Fixpoint set_in (name value : string) (h : Headers) : Headers :=
  match h with
  | [] => [(name, value)]
  | kv :: r =>
      if names name kv
      then (fst kv, value) :: filter (fun kv' => negb (names name kv')) r
      else kv :: set_in name value r
  end.

(** [headers.set(name, value)]; [None] stands for a [TypeError]. *)
Definition set_header (name value : string) (h : Headers) : option Headers :=
  if is_header_name name then
    match header_value value with
    | Some v => Some (set_in name v h)
    | None => None
    end
  else None.

(** [headers.get(name)]: the values of the headers of that name, joined by
    a comma and a space. *)
Definition get_header (name : string) (h : Headers) : option string :=
  match filter (names name) h with
  | [] => None
  | kvs => Some (String.concat ", " (map snd kvs))
  end.

(** The headers [request] gives to [fetch]; [init_headers] is
    [new Headers(init.headers)].  [None] stands for the [TypeError] of
    [set], with which [request] rejects before it calls [fetch]. *)
Definition request_headers (cookie : string) (init_headers : Headers) : option Headers :=
  let csrf := getCookie cookie "csrf_token" in
  match set_header "Content-Type" "application/json" init_headers with
  | Some headers =>
      match csrf with
      | Some (String c v) => set_header "x-csrf-token" (String c v) headers
      | _ => Some headers
      end
  | None => None
  end.

(** The response [fetch] resolves with: its status and the text of its
    body. *)
Record Response := { status : Z; text : string }.

(** [res.ok] *)
Definition ok (res : Response) : bool := ((200 <=? status res) && (status res <=? 299))%Z.

(** How the promise of [request] settles. *)
Inductive Settled :=
| Thrown (message : string)        (* [throw new Error(message)] *)
| BadJson                          (* [res.json()] rejects *)
| Undefined                        (* status 204 *)
| Json (v : value).

(** [request], once [fetch] has resolved with [res]. *)
Definition request (res : Response) : Settled :=
  if negb (ok res) then
    Thrown (if (0 <? String.length (text res))%nat then text res
            else ("HTTP " ++ JsString.of_Z (status res))%string)
  else if (status res =? 204)%Z then Undefined
  else match JSON_parse (text res) with
       | inl v => Json v
       | inr _ => BadJson
       end.

End Api.

(** ** [App.tsx]: signing in and joining *)

Module AuthPage.

Inductive Mode := login | register.

(** The calls of the page to the API. *)
Inductive Call :=
| Register (user password : string)       (* [api.register] *)
| Login (user password : string).         (* [api.login] *)

Definition user_of (c : Call) : string :=
  match c with Register u _ => u | Login u _ => u end.

Definition password_of (c : Call) : string :=
  match c with Register _ p => p | Login _ p => p end.

(** What a submit of the form did: the calls it made, in order, the error
    it left on the page and where it navigated to. *)
Record Outcome := { calls : list Call; error : string; navigated : option string }.

(** [onSubmit].  [rejects c] is [Some e] when the promise of call [c]
    rejects, [e] being [String(err)] of the error, and [None] when it
    resolves. *)
Definition onSubmit (mode : Mode) (user password : string)
           (rejects : Call -> option string) : Outcome :=
  let trimmedLogin := JsString.trim user in
  if (Text.length16 trimmedLogin <? 3)%nat then
    {| calls := []; error := "Логин должен быть не короче 3 символов"; navigated := None |}
  else if (Text.length16 password <? 8)%nat then
    {| calls := []; error := "Пароль должен быть не короче 8 символов"; navigated := None |}
  else
    let sign_in (before : list Call) :=
      match rejects (Login trimmedLogin password) with
      | Some e =>
          {| calls := before ++ [Login trimmedLogin password]; error := e; navigated := None |}
      | None =>
          {| calls := before ++ [Login trimmedLogin password]; error := "";
             navigated := Some "/teacher/dashboard" |}
      end in
    match mode with
    | login => sign_in []
    | register =>
        match rejects (Register trimmedLogin password) with
        | Some e =>
            {| calls := [Register trimmedLogin password]; error := e; navigated := None |}
        | None => sign_in [Register trimmedLogin password]
        end
    end.

End AuthPage.

Module JoinPage.

Section Join.
(** [String.prototype.toUpperCase], which follows the Unicode case mapping. *)
Variable toUpperCase : string -> string.

(** [join]: what it stores under [student_nickname] and the path it
    navigates to, or nothing. *)
Definition join (room nickname : string) : option (string * string) :=
  if (Text.length16 (JsString.trim room) <? 3)%nat
     || (Text.length16 (JsString.trim nickname) <? 2)%nat
  then None
  else Some (JsString.trim nickname,
             ("/wait/" ++ toUpperCase (JsString.trim room))%string).
End Join.

End JoinPage.

Module StudentWaitPage.

(** The effect of the page: it connects when there is a room code and a
    stored nickname, and [ws.onopen] sends [join_room].  The result is the
    socket after [onopen], if the page connected at all. *)
Definition connect (roomCode : option string) (stored_nickname : option string)
           (ws : WebSocket) : option WebSocket :=
  match roomCode, stored_nickname with
  | Some r, Some n =>
      if (0 <? String.length r)%nat && (0 <? String.length n)%nat
      then Some (sendWs ws "join_room"
                        (JObject [("role", JString "student"); ("nickname", JString n)]))
      else None
  | _, _ => None
  end.

(** The handler of the page for [start_quiz], on the frame as the cast of
    the handler types it: what [session_game_mode] holds afterwards, given
    what it held before; [gameMode] is [payload.gameMode]. *)
Definition on_start_quiz (gameMode : option string) (stored : option string)
  : option string :=
  match gameMode with
  | Some m => if (0 <? String.length m)%nat then Some m else stored
  | None => stored
  end.

End StudentWaitPage.

(** ** [App.tsx]: loading a quiz into the builder and editing it *)

Module QuizEditor.

Import NewQuizPage.

(** [array.findIndex(p)], which is [-1] when no element passes. *)
Fixpoint findIndex_from {A} (i : Z) (p : A -> bool) (l : list A) : Z :=
  match l with
  | [] => (-1)%Z
  | x :: r => if p x then i else findIndex_from (i + 1)%Z p r
  end.

Definition findIndex {A} (p : A -> bool) (l : list A) : Z := findIndex_from 0%Z p l.

(** The body of the [map] of [applyQuizFromApi], for a question that has
    the shape of [Question]: its [id], [type] and [prompt] are there, its
    options may be missing, and its answer may have any of the three shapes
    (a field the code reads and does not find counts as the empty text or the
    empty list). *)
Definition applyQuestion (q : Question) : DraftQuestion :=
  match q_type q with
  | Open =>
      {| id := q_id q; type := Open; prompt := q_prompt q; options := [];
         openAnswer := match q_answer q with KText t => t | _ => "" end;
         singleCorrect := 0; multiCorrect := [] |}
  | Single =>
      let optionId := match q_answer q with KOptionId o => o | _ => "" end in
      let sourceOptions := options_or_empty q in
      let selectedIndex := findIndex (fun o => String.eqb (o_id o) optionId) sourceOptions in
      {| id := q_id q; type := Single; prompt := q_prompt q;
         options := map o_text sourceOptions; openAnswer := "";
         singleCorrect := if (0 <=? selectedIndex)%Z then selectedIndex else 0%Z;
         multiCorrect := [] |}
  | Multi =>
      let sourceOptions := options_or_empty q in
      let optionIds := match q_answer q with KOptionIds l => l | _ => [] end in
      {| id := q_id q; type := Multi; prompt := q_prompt q;
         options := map o_text sourceOptions; openAnswer := "";
         singleCorrect := 0;
         multiCorrect :=
           map (fun o => existsb (String.eqb (o_id o)) optionIds) sourceOptions |}
  end.

(** The state of the builder that matters for the payload. *)
Record Builder := {
  b_title : string;
  b_description : string;
  b_questions : list DraftQuestion
}.

(** [applyQuizFromApi], for a response that has the shape of [Quiz]. *)
Definition applyQuizFromApi (quiz : Quiz) : Builder :=
  {| b_title := Types.title quiz;
     b_description := match Types.description quiz with Some d => d | None => "" end;
     b_questions := map applyQuestion (Types.questions quiz) |}.

Definition payload (b : Builder) : Quiz :=
  toQuizPayload (b_title b) (b_description b) (b_questions b).

(** *** The handlers of the editor *)

(** [prev.map((q, idx) => idx === qIndex ? f(q) : q)] *)
Definition at_question (qIndex : nat) (f : DraftQuestion -> DraftQuestion)
           (prev : list DraftQuestion) : list DraftQuestion :=
  JsString.mapi (fun q idx => if Nat.eqb idx qIndex then f q else q) prev.

(** [array.filter((_, i) => i !== k)] *)
Definition remove_at {A} (k : nat) (l : list A) : list A :=
  JsString.filteri (fun _ i => negb (Nat.eqb i k)) l.

(** [next = [...array]; next[k] = x].  Writing past the end leaves holes,
    which read as [undefined]; they are shown as [hole]. *)
Fixpoint array_set {A} (hole : A) (k : nat) (x : A) (l : list A) : list A :=
  match k, l with
  | O, [] => [x]
  | O, _ :: r => x :: r
  | S k', [] => hole :: array_set hole k' x []
  | S k', y :: r => y :: array_set hole k' x r
  end.

(** [Array(n).fill(false).map((_, i) => i === 0)] *)
Definition first_only (n : nat) : list bool := map (fun i => Nat.eqb i 0) (seq 0 n).

(** The [onChange] of the type select. *)
Definition changeType (nextType : QuestionType) (q : DraftQuestion) : DraftQuestion :=
  {| id := id q;
     type := nextType;
     prompt := prompt q;
     options := match nextType with
                | Open => []
                | _ => if (1 <? length (options q))%nat then options q
                       else ["Вариант 1"; "Вариант 2"]
                end;
     openAnswer := match nextType with Open => openAnswer q | _ => "" end;
     singleCorrect := 0;
     multiCorrect := match nextType with
                     | Multi => first_only (Nat.max (length (options q)) 2)
                     | _ => []
                     end |}.

Definition setPrompt (v : string) (q : DraftQuestion) : DraftQuestion :=
  {| id := id q; type := type q; prompt := v; options := options q;
     openAnswer := openAnswer q; singleCorrect := singleCorrect q;
     multiCorrect := multiCorrect q |}.

Definition setOpenAnswer (v : string) (q : DraftQuestion) : DraftQuestion :=
  {| id := id q; type := type q; prompt := prompt q; options := options q;
     openAnswer := v; singleCorrect := singleCorrect q; multiCorrect := multiCorrect q |}.

(** The radio button of option [optIndex]. *)
Definition pickSingle (optIndex : nat) (q : DraftQuestion) : DraftQuestion :=
  {| id := id q; type := type q; prompt := prompt q; options := options q;
     openAnswer := openAnswer q; singleCorrect := Z.of_nat optIndex;
     multiCorrect := multiCorrect q |}.

(** The checkbox of option [optIndex]; [checked] is [e.target.checked]. *)
Definition setMulti (optIndex : nat) (checked : bool) (q : DraftQuestion) : DraftQuestion :=
  {| id := id q; type := type q; prompt := prompt q; options := options q;
     openAnswer := openAnswer q; singleCorrect := singleCorrect q;
     multiCorrect := array_set false optIndex checked (multiCorrect q) |}.

Definition setOptionText (optIndex : nat) (v : string) (q : DraftQuestion) : DraftQuestion :=
  {| id := id q; type := type q; prompt := prompt q;
     options := array_set "" optIndex v (options q);
     openAnswer := openAnswer q; singleCorrect := singleCorrect q;
     multiCorrect := multiCorrect q |}.

(** The [x] button of option [optIndex]. *)
Definition deleteOption (optIndex : nat) (q : DraftQuestion) : DraftQuestion :=
  if (length (options q) <=? 2)%nat then q
  else
    let nextOptions := remove_at optIndex (options q) in
    {| id := id q; type := type q; prompt := prompt q;
       options := nextOptions;
       openAnswer := openAnswer q;
       singleCorrect :=
         if (Z.of_nat (length nextOptions) <=? singleCorrect q)%Z
         then (Z.of_nat (length nextOptions) - 1)%Z
         else singleCorrect q;
       multiCorrect := remove_at optIndex (multiCorrect q) |}.

Definition addOption (q : DraftQuestion) : DraftQuestion :=
  {| id := id q; type := type q; prompt := prompt q;
     options := options q
                ++ [("Вариант " ++ JsString.of_nat (length (options q) + 1))%string];
     openAnswer := openAnswer q; singleCorrect := singleCorrect q;
     multiCorrect := match type q with
                     | Multi => multiCorrect q ++ [false]
                     | _ => multiCorrect q
                     end |}.

(** What the teacher can do in the editor.  Questions and options are
    addressed by their position on the page. *)
Inductive Action :=
| StartManual                                       (* the card of the manual scenario *)
| AddQuestion (stamp : Z) (type : QuestionType)     (* [stamp] is [Date.now()] *)
| DeleteQuestion (qIndex : nat)
| ChangeType (qIndex : nat) (nextType : QuestionType)
| SetPrompt (qIndex : nat) (v : string)
| SetOpenAnswer (qIndex : nat) (v : string)
| PickSingle (qIndex optIndex : nat)
| ToggleMulti (qIndex optIndex : nat)
| SetOptionText (qIndex optIndex : nat) (v : string)
| DeleteOption (qIndex optIndex : nat)
| AddOption (qIndex : nat).

(** An input acts only where the page renders it: the answer input on an
    open question, the rows of options, with a radio button on a single and a
    checkbox on a multi question, for the options there are.  A checkbox is
    controlled ([checked={Boolean(question.multiCorrect[optIndex])}]): a
    click reports the opposite of what is displayed. *)
Definition choice (q : DraftQuestion) : bool :=
  match type q with Open => false | _ => true end.

Definition rendered (optIndex : nat) (q : DraftQuestion) : bool :=
  choice q && (optIndex <? length (options q))%nat.

Definition dispatch (a : Action) (prev : list DraftQuestion) : list DraftQuestion :=
  match a with
  | StartManual => []
  | AddQuestion stamp t => prev ++ [createDraftQuestion stamp t (length prev + 1)]
  | DeleteQuestion qIndex => remove_at qIndex prev
  | ChangeType qIndex t => at_question qIndex (changeType t) prev
  | SetPrompt qIndex v => at_question qIndex (setPrompt v) prev
  | SetOpenAnswer qIndex v =>
      at_question qIndex
        (fun q => match type q with Open => setOpenAnswer v q | _ => q end) prev
  | PickSingle qIndex optIndex =>
      at_question qIndex
        (fun q => match type q with
                  | Single => if rendered optIndex q then pickSingle optIndex q else q
                  | _ => q
                  end) prev
  | ToggleMulti qIndex optIndex =>
      at_question qIndex
        (fun q => match type q with
                  | Multi =>
                      if rendered optIndex q
                      then setMulti optIndex (negb (nth optIndex (multiCorrect q) false)) q
                      else q
                  | _ => q
                  end) prev
  | SetOptionText qIndex optIndex v =>
      at_question qIndex
        (fun q => if rendered optIndex q then setOptionText optIndex v q else q) prev
  | DeleteOption qIndex optIndex =>
      at_question qIndex
        (fun q => if rendered optIndex q then deleteOption optIndex q else q) prev
  | AddOption qIndex =>
      at_question qIndex (fun q => if choice q then addOption q else q) prev
  end.

(** The questions after a sequence of actions on the empty editor. *)
Definition edit (acts : list Action) : list DraftQuestion :=
  fold_left (fun qs a => dispatch a qs) acts [].

(** What the editor keeps true of a draft. *)
Definition tidy (q : DraftQuestion) : Prop :=
  match type q with
  | Open => options q = []
  | Single =>
      (2 <= length (options q))%nat
      /\ (0 <= singleCorrect q < Z.of_nat (length (options q)))%Z
  | Multi =>
      (2 <= length (options q))%nat
      /\ length (multiCorrect q) = length (options q)
  end.

(** The id the builder gives to the option at position [i]. *)
Definition option_id (i : nat) : string := ("o" ++ JsString.of_nat (i + 1))%string.

End QuizEditor.

(** ** [App.tsx]: the play page during a session *)

Module PlaySession.

Import StudentPlayPage.

(** A message of the server, with the shape the casts of the handler give
    it; [other] is a message with any other event. *)
Inductive ServerMessage :=
| question_push (question : Question)
| answer_result (correct : bool) (nextAction : string)
| end_quiz
| other.

(** The page, the pending [setTimeout] callbacks, oldest first, each one
    [sendWs(ws, 'request_question', {reason})] with its delay, and where
    the page has navigated to. *)
Record Live := {
  page : Page;
  timers : list (Z * string);
  location : option string
}.

Definition with_page (f : Page -> Page) (l : Live) : Live :=
  {| page := f (page l); timers := timers l; location := location l |}.

Definition setTimeout (delay : Z) (reason : string) (l : Live) : Live :=
  {| page := page l; timers := timers l ++ [(delay, reason)]; location := location l |}.

Definition setQuestion (q : option Question) (p : Page) : Page :=
  {| mode := mode p; mobileView := mobileView p; portrait := portrait p;
     socket := socket p; question := q;
     awaitingNextQuestion := awaitingNextQuestion p;
     mustGetCorrect := mustGetCorrect p; status := status p |}.

Definition setAwaitingNextQuestion (b : bool) (p : Page) : Page :=
  {| mode := mode p; mobileView := mobileView p; portrait := portrait p;
     socket := socket p; question := question p;
     awaitingNextQuestion := b;
     mustGetCorrect := mustGetCorrect p; status := status p |}.

Definition setMustGetCorrect (b : bool) (p : Page) : Page :=
  {| mode := mode p; mobileView := mobileView p; portrait := portrait p;
     socket := socket p; question := question p;
     awaitingNextQuestion := awaitingNextQuestion p;
     mustGetCorrect := b; status := status p |}.

Definition setStatus (s : string) (p : Page) : Page :=
  {| mode := mode p; mobileView := mobileView p; portrait := portrait p;
     socket := socket p; question := question p;
     awaitingNextQuestion := awaitingNextQuestion p;
     mustGetCorrect := mustGetCorrect p; status := s |}.

Definition setSocket (s : option WebSocket) (p : Page) : Page :=
  {| mode := mode p; mobileView := mobileView p; portrait := portrait p;
     socket := s; question := question p;
     awaitingNextQuestion := awaitingNextQuestion p;
     mustGetCorrect := mustGetCorrect p; status := status p |}.

Definition setViewport (mobile tall : bool) (p : Page) : Page :=
  {| mode := mode p; mobileView := mobile; portrait := tall;
     socket := socket p; question := question p;
     awaitingNextQuestion := awaitingNextQuestion p;
     mustGetCorrect := mustGetCorrect p; status := status p |}.

(** The handler the page gives to [connectRoom]. *)
Definition onMessage (roomCode : string) (msg : ServerMessage) (l : Live) : Live :=
  match msg with
  | question_push q =>
      with_page (fun p => setQuestion (Some q) (setAwaitingNextQuestion false p)) l
  | answer_result correct nextAction =>
      let l1 :=
        if is_classic (mode (page l)) then
          with_page (setStatus (if correct then "Верно, идём дальше"
                                else "Неверно, идём к следующему вопросу")) l
        else if correct then
          with_page (fun p => setAwaitingNextQuestion false
                                (setMustGetCorrect false
                                   (setStatus "Верно, продолжаем игру" p))) l
        else
          setTimeout 180 "level_up"
            (with_page (fun p => setAwaitingNextQuestion true
                                   (setStatus "Неверно, следующий вопрос" p)) l) in
      if is_classic (mode (page l)) && String.eqb nextAction "continue"
      then setTimeout 200 "level_up" l1
      else l1
  | end_quiz =>
      {| page := page l; timers := timers l;
         location := Some ("/done/" ++ roomCode)%string |}
  | other => l
  end.

(** [ws.onopen]: the socket is open by then. *)
Definition onopen (nickname : string) (l : Live) : Live :=
  let opened :=
    with_page
      (fun p =>
         setSocket
           (match socket p with
            | Some ws =>
                Some (sendWs {| readyState := OPEN; sent := sent ws |} "join_room"
                        (JObject [("role", JString "student");
                                  ("nickname", JString nickname)]))
            | None => None
            end) p) l in
  if is_classic (mode (page l)) then setTimeout 150 "level_up" opened else opened.

(** A timer fires: its callback sends on the socket of the page. *)
Definition fire (k : nat) (l : Live) : Live :=
  match nth_error (timers l) k with
  | Some (_, reason) =>
      {| page :=
           setSocket
             (match socket (page l) with
              | Some ws =>
                  Some (sendWs ws "request_question" (JObject [("reason", JString reason)]))
              | None => None
              end) (page l);
         timers := firstn k (timers l) ++ skipn (S k) (timers l);
         location := location l |}
  | None => l
  end.

(** What the page computes for its rendering. *)
Definition overlayActive (p : Page) : bool :=
  negb (is_classic (mode p))
  && (some (question p) || awaitingNextQuestion p || mustGetCorrect p).

Definition needsLandscape (p : Page) : bool :=
  negb (is_classic (mode p)) && mobileView p && portrait p.

Definition gamePaused (p : Page) : bool := overlayActive p || needsLandscape p.

(** Whether a [QuestionCard] is on the page. *)
Definition card_shown (p : Page) : bool :=
  some (question p)
  && (is_classic (mode p) || (overlayActive p && negb (needsLandscape p))).

(** What can happen on the page. *)
Inductive Event :=
| Opens                                   (* the socket opens *)
| Receives (msg : ServerMessage)          (* a frame of the server *)
| Fires (k : nat)                         (* the timer at position [k] *)
| Triggers (reason : GameCanvas.Reason)   (* [onTrigger] of the canvas *)
| Submits (answer : value)                (* [onSubmit] of the card *)
| Resizes (mobile tall : bool).           (* [updateViewport] *)

(** The canvas is there in the game modes only, and the card calls
    [onSubmit] only when it is shown. *)
Definition step (roomCode nickname : string) (e : Event) (l : Live) : Live :=
  match e with
  | Opens => onopen nickname l
  | Receives msg => onMessage roomCode msg l
  | Fires k => fire k l
  | Triggers reason =>
      if is_classic (mode (page l)) then l else with_page (triggerQuestion reason) l
  | Submits answer =>
      if card_shown (page l) then with_page (submitAnswer answer) l else l
  | Resizes mobile tall => with_page (setViewport mobile tall) l
  end.

Definition run (roomCode nickname : string) (evs : list Event) (l : Live) : Live :=
  fold_left (fun l e => step roomCode nickname e l) evs l.

(** The answer was wrong, or the event is no result at all. *)
Definition not_correct (e : Event) : bool :=
  match e with
  | Receives (answer_result true _) => false
  | _ => true
  end.

End PlaySession.

(** ** [backend/migrations/20260226180000_init.sql]: the other keys *)

Module SchemaKeys.

Import Schema.

(** The value of a character column as a [UNIQUE] index compares it. *)
Definition login_key (r : teacher) : string := lower_string (t_login r).

Definition external_key (r : quiz_question) : Z * string :=
  (qq_quiz_id r, lower_string (qq_external_id r)).

Definition room_key (r : game_session) : string := lower_string (gs_room_code r).

Definition token_key (r : game_session) : string := lower_string (gs_join_token r).

(** [id BIGINT PRIMARY KEY] of each table. *)
Definition primary_keys (db : DB) : Prop :=
  NoDup (map t_id (teachers db))
  /\ NoDup (map qz_id (quizzes db))
  /\ NoDup (map qq_id (quiz_questions db))
  /\ NoDup (map qa_id (quiz_answers db))
  /\ NoDup (map gs_id (game_sessions db))
  /\ NoDup (map sp_id (session_participants db))
  /\ NoDup (map sa_id (session_answers db))
  /\ NoDup (map ag_id (session_stats_aggregate db)).

(** [login ... UNIQUE], [uk_quiz_questions_external], [question_id ...
    UNIQUE] of [quiz_answers], [room_code ... UNIQUE], [join_token ...
    UNIQUE]. *)
Definition unique_keys (db : DB) : Prop :=
  NoDup (map login_key (teachers db))
  /\ NoDup (map external_key (quiz_questions db))
  /\ NoDup (map qa_question_id (quiz_answers db))
  /\ NoDup (map room_key (game_sessions db))
  /\ NoDup (map token_key (game_sessions db)).

End SchemaKeys.

(** ** [GameCanvas]: the touch controls and the key bridge, and the input
    of the platformer game that listens to it *)

Module Controls.

Inductive Kind := keydown | keyup.

(** A number as far as comparisons go: a double is not a number, an
    infinity, or a fraction. *)
Inductive number :=
| NaN
| NegInf
| Fin (num : Z) (den : positive)
| PosInf.

(** [a <= b] *)
Definition leb (a b : number) : bool :=
  match a, b with
  | NaN, _ => false
  | _, NaN => false
  | NegInf, _ => true
  | _, PosInf => true
  | Fin n d, Fin n' d' => (n * Zpos d' <=? n' * Zpos d)%Z
  | _, _ => false
  end.

(** [a >= b] *)
Definition geb (a b : number) : bool := leb b a.

Definition zero : number := Fin 0 1.

(** The double [0.34] and its opposite. *)
Definition threshold : number := Fin 6124895493223875 18014398509481984.
Definition minus_threshold : number := Fin (-6124895493223875) 18014398509481984.

(** What the canvas posts to the window of the frame. *)
Inductive Posted :=
| quiz_key (kind : Kind) (key : string) (code : option string)
| quiz_pause (paused : bool)
| quiz_aim (nx ny : number)
| quiz_toggle_color.

(** What the canvas does to the frame: a [postMessage], or a call of the
    [onkeydown] or [onkeyup] handler of its document. *)
Inductive Effect :=
| Post (data : Posted)
| Call (kind : Kind) (keyCode : Z).

(** The window of the frame, as far as the canvas looks at it: whether its
    document has a function as [onkeydown] and as [onkeyup]. *)
Record FrameWindow := { onkeydown : bool; onkeyup : bool }.

Definition keyCode (key : string) : Z :=
  if String.eqb key " " then 32
  else if String.eqb key "w" then 87
  else if String.eqb key "a" then 65
  else if String.eqb key "s" then 83
  else if String.eqb key "d" then 68
  else if String.eqb key "ArrowUp" then 38
  else if String.eqb key "ArrowDown" then 40
  else if String.eqb key "ArrowLeft" then 37
  else 39.

(** [emitBridgeKey]; [frame] is [frameRef.current?.contentWindow]. *)
Definition emitBridgeKey (frame : option FrameWindow) (kind : Kind) (key : string)
           (code : option string) : list Effect :=
  match frame with
  | None => []
  | Some w =>
      Post (quiz_key kind key code)
      :: (if match kind with keydown => onkeydown w | keyup => onkeyup w end
          then [Call kind (keyCode key)]
          else [])
  end.

(** [emitGameMessage] *)
Definition emitGameMessage (frame : option FrameWindow) (payload : Posted) : list Effect :=
  match frame with
  | None => []
  | Some _ => [Post payload]
  end.

(** [fromCode] of the canvas, and [keyFromCode] of the game. *)
Definition fromCode (code : string) : option string :=
  if String.eqb code "KeyW" then Some "w"
  else if String.eqb code "KeyA" then Some "a"
  else if String.eqb code "KeyS" then Some "s"
  else if String.eqb code "KeyD" then Some "d"
  else if String.eqb code "ArrowUp" then Some "ArrowUp"
  else if String.eqb code "ArrowDown" then Some "ArrowDown"
  else if String.eqb code "ArrowLeft" then Some "ArrowLeft"
  else if String.eqb code "ArrowRight" then Some "ArrowRight"
  else if String.eqb code "Space" then Some " "
  else None.

(** The canvas: [pressedRef.current], a set in the order of insertion,
    the [paused] property, and what has been done to the frame so far,
    oldest first. *)
Record Canvas := {
  pressed : list string;
  paused : bool;
  effects : list Effect
}.

Definition initial : Canvas := {| pressed := []; paused := false; effects := [] |}.

Definition has (s : list string) (x : string) : bool := existsb (String.eqb x) s.

Definition delete (s : list string) (x : string) : list string :=
  filter (fun y => negb (String.eqb y x)) s.

Definition add (s : list string) (x : string) : list string :=
  if has s x then s else s ++ [x].

Definition bar : ascii := byte 124.

(** [`${key}|${code}`] *)
Definition composite (key code : string) : string :=
  (key ++ String bar code)%string.

Section Mounted.
Variable mode : GameCanvas.Mode.
Variable frame : option FrameWindow.

Definition press (key code : string) (c : Canvas) : Canvas :=
  if paused c then c
  else if has (pressed c) (composite key code) then c
  else
    {| pressed := add (pressed c) (composite key code);
       paused := paused c;
       effects := effects c ++ emitBridgeKey frame keydown key (Some code) |}.

Definition release (key code : string) (c : Canvas) : Canvas :=
  if negb (has (pressed c) (composite key code)) then c
  else
    {| pressed := delete (pressed c) (composite key code);
       paused := paused c;
       effects := effects c ++ emitBridgeKey frame keyup key (Some code) |}.

Definition post (payload : Posted) (c : Canvas) : Canvas :=
  {| pressed := pressed c; paused := paused c;
     effects := effects c ++ emitGameMessage frame payload |}.

Definition is_shooter : bool :=
  match mode with GameCanvas.shooter => true | GameCanvas.platformer => false end.

(** [updateJoystick]; the position of the knob, which is only drawn, is
    left out. *)
Definition updateJoystick (nx ny : number) (active : bool) (c : Canvas) : Canvas :=
  if negb active || paused c then
    let c1 := release "ArrowLeft" "ArrowLeft" c in
    let c2 := release "ArrowRight" "ArrowRight" c1 in
    let c3 := release "ArrowUp" "ArrowUp" c2 in
    let c4 := if is_shooter then release "ArrowDown" "ArrowDown" c3 else c3 in
    if is_shooter then post (quiz_aim zero zero) c4 else c4
  else
    let c1 := if leb nx minus_threshold then press "ArrowLeft" "ArrowLeft" c
              else release "ArrowLeft" "ArrowLeft" c in
    let c2 := if geb nx threshold then press "ArrowRight" "ArrowRight" c1
              else release "ArrowRight" "ArrowRight" c1 in
    let c3 := if leb ny minus_threshold then press "ArrowUp" "ArrowUp" c2
              else release "ArrowUp" "ArrowUp" c2 in
    let c4 := if is_shooter
              then if geb ny threshold then press "ArrowDown" "ArrowDown" c3
                   else release "ArrowDown" "ArrowDown" c3
              else c3 in
    if is_shooter then post (quiz_aim nx ny) c4 else c4.

(** The two pieces [const [key, code] = composite.split('|')] binds, the
    second one going through [code || undefined]. *)
Definition split_composite (s : string) : string * option string :=
  match Text.split_on bar (list_ascii_of_string s) with
  | k :: c :: _ =>
      (string_of_list_ascii k,
       match c with [] => None | _ => Some (string_of_list_ascii c) end)
  | [k] => (string_of_list_ascii k, None)
  | [] => (EmptyString, None)
  end.

(** The effect that follows [paused]: it runs when the property changes. *)
Definition onPaused (now : bool) (c : Canvas) : Canvas :=
  match frame with
  | None => {| pressed := pressed c; paused := now; effects := effects c |}
  | Some _ =>
      if now then
        {| pressed := [];
           paused := true;
           effects :=
             effects c ++ Post (quiz_pause true)
             :: flat_map (fun s => let (key, code) := split_composite s in
                                   emitBridgeKey frame keyup key code)
                         (pressed c) |}
      else
        {| pressed := pressed c; paused := false;
           effects := effects c ++ [Post (quiz_pause false)] |}
  end.

(** The listeners of the canvas for the keyboard. *)
Definition onKey (kind : Kind) (code : string) (c : Canvas) : Canvas :=
  match fromCode code with
  | None => c
  | Some normalized =>
      {| pressed := pressed c; paused := paused c;
         effects := effects c ++ emitBridgeKey frame kind normalized (Some code) |}
  end.

(** What happens to the canvas. *)
Inductive Event :=
| Stick (nx ny : number)          (* the finger is on the joystick *)
| StickEnd                        (* the finger leaves the joystick *)
| FireStart                       (* the fire button, in the shooter *)
| FireEnd
| ToggleColor                     (* the colour button, in the platformer *)
| Key (kind : Kind) (code : string)
| Paused (now : bool).            (* the page changes [paused] *)

Definition step (e : Event) (c : Canvas) : Canvas :=
  match e with
  | Stick nx ny => updateJoystick nx ny true c
  | StickEnd => updateJoystick zero zero false c
  | FireStart => if is_shooter then press " " "Space" c else c
  | FireEnd => if is_shooter then release " " "Space" c else c
  | ToggleColor => if is_shooter then c else post quiz_toggle_color c
  | Key kind code => onKey kind code c
  | Paused now => onPaused now c
  end.

Definition run (evs : list Event) : Canvas :=
  fold_left (fun c e => step e c) evs initial.

End Mounted.

Definition by_touch (e : Event) : bool :=
  match e with Key _ _ => false | _ => true end.

(** *** The game: [DOWN] and the listener for [quiz_key] *)

(** The [message] listener of the game. *)
Definition game_onmessage (DOWN : list string) (data : Posted) : list string :=
  match data with
  | quiz_key kind key code =>
      let k := if (0 <? String.length key)%nat then Some key
               else match code with Some c => fromCode c | None => None end in
      match k with
      | Some k' =>
          if (0 <? String.length k')%nat then
            match kind with
            | keydown => add DOWN k'
            | keyup => delete DOWN k'
            end
          else DOWN
      | None => DOWN
      end
  | _ => DOWN
  end.

(** The [keydown] and [keyup] listeners of the game on its own document;
    [code] and [key] are those of the event. *)
Definition game_onkey (kind : Kind) (code key : string) (DOWN : list string) : list string :=
  let mapped := match fromCode code with Some k => k | None => key end in
  match kind with
  | keydown => add DOWN mapped
  | keyup => delete DOWN mapped
  end.

(** [DOWN] once the game has handled what was posted to it. *)
Definition game_DOWN (effects : list Effect) : list string :=
  fold_left (fun DOWN e => match e with
                           | Post data => game_onmessage DOWN data
                           | Call _ _ => DOWN
                           end) effects [].

(** [leftKey], [rightKey] and [upKey]; [PRESSED] holds the buttons of the
    gamepad. *)
Definition leftKey (DOWN : list string) (PRESSED : list Z) : bool :=
  has DOWN "a" || has DOWN "ArrowLeft" || existsb (Z.eqb 14) PRESSED.

Definition rightKey (DOWN : list string) (PRESSED : list Z) : bool :=
  has DOWN "d" || has DOWN "ArrowRight" || existsb (Z.eqb 15) PRESSED.

Definition upKey (DOWN : list string) (PRESSED : list Z) : bool :=
  has DOWN "w" || has DOWN "ArrowUp" || existsb (Z.eqb 0) PRESSED
  || existsb (Z.eqb 12) PRESSED.

(** The first piece of a composite. *)
Definition key_of (s : string) : string := fst (split_composite s).

(** The composites of the keys the touch controls press. *)
Definition touch_composites : list string :=
  [composite "ArrowLeft" "ArrowLeft"; composite "ArrowRight" "ArrowRight";
   composite "ArrowUp" "ArrowUp"; composite "ArrowDown" "ArrowDown";
   composite " " "Space"].

(** What the controls keep true of the keys they hold: never left and
    right together, nor up and down, and in the platformer neither down nor
    the space key. *)
Definition steered (mode : GameCanvas.Mode) (c : Canvas) : Prop :=
  (has (pressed c) (composite "ArrowLeft" "ArrowLeft")
   && has (pressed c) (composite "ArrowRight" "ArrowRight") = false)
  /\ (has (pressed c) (composite "ArrowUp" "ArrowUp")
      && has (pressed c) (composite "ArrowDown" "ArrowDown") = false)
  /\ (is_shooter mode = false ->
      has (pressed c) (composite "ArrowDown" "ArrowDown") = false
      /\ has (pressed c) (composite " " "Space") = false).

(** The keys held by touch and the keys the game takes as down agree. *)
Definition mirrored (c : Canvas) : Prop :=
  incl (pressed c) touch_composites
  /\ NoDup (pressed c)
  /\ game_DOWN (effects c) = map key_of (pressed c).

End Controls.

(** ** [QuestionCard]: counting the clicks *)

Module CardClicks.

(** Whether an action is a click on a checkbox of the option id [x]. *)
Definition hits (q : Question) (x : string) (a : QuestionCard.Action) : bool :=
  match a with
  | QuestionCard.Toggle i =>
      match nth_error (options_or_empty q) i with
      | Some o => String.eqb (o_id o) x
      | None => false
      end
  | _ => false
  end.

(** How often the checkboxes of the option id [x] were clicked. *)
Definition clicks (q : Question) (x : string) (acts : list QuestionCard.Action) : nat :=
  length (filter (hits q x) acts).

End CardClicks.

(* ================================================================== *)
(** * Part II: properties                                              *)
(* ================================================================== *)

(** ** The models at work *)

Example parse_frame :
  JSON_parse (wire "{'event': 'start_quiz', 'payload': {'n': [1, -2.5e3, true, null]}}")
  = inl (JObject [("event", JString "start_quiz");
                  ("payload", JObject [("n", JArray [JNumber "1"; JNumber "-2.5e3"; JBool true; JNull])])]).
Proof. vm_compute. reflexivity. Qed.

Example parse_escape :
  JSON_parse (wire "'a\u0041\n\ud83d\ude00'")
  = inl (JString (string_of_list_ascii
                    (map byte [97; 65; 10; 240; 159; 152; 128]%N))).
Proof. vm_compute. reflexivity. Qed.

Example stringify_frame :
  JSON_stringify (JObject [("event", JString "request_question");
                           ("payload", JObject [("reason", JString "death")])])
  = wire "{'event':'request_question','payload':{'reason':'death'}}".
Proof. vm_compute. reflexivity. Qed.

Example parse_rejects :
  map JSON_parse [""; "{"; wire "{'a':1,}"; "01"; "[1 2]"; "nul"; wire "'abc"; "1.e3"; "tru e"]
  = repeat (inr SyntaxError) 9.
Proof. vm_compute. reflexivity. Qed.

Example toQuestion_multi_default :
  q_answer (NewQuizPage.toQuestion (NewQuizPage.createDraftQuestion 1700000000000 Multi 1))
  = KOptionIds ["o1"].
Proof. vm_compute. reflexivity. Qed.

Example toQuestion_multi_none_checked :
  q_answer (NewQuizPage.toQuestion
              {| NewQuizPage.id := "q1"; NewQuizPage.type := Multi; NewQuizPage.prompt := " 2+2? ";
                 NewQuizPage.options := ["3"; " 4 "; "5"]; NewQuizPage.openAnswer := "";
                 NewQuizPage.singleCorrect := 0; NewQuizPage.multiCorrect := [false; false; false] |})
  = KOptionIds ["o1"].
Proof. vm_compute. reflexivity. Qed.

Example startSession_default :
  DashboardPage.requested_mode (DashboardPage.startSession [] 7) = Some "classic".
Proof. vm_compute. reflexivity. Qed.

(** ** The throttle of the game canvas *)

Lemma onMessage_cases mode d now lastEmit last' call :
  GameCanvas.onMessage mode d now lastEmit = (last', call) ->
  (last' = lastEmit /\ call = None) \/ (last' = now /\ (lastEmit + 900 <= now)%Z).
Proof.
  unfold GameCanvas.onMessage.
  destruct d as [d|]; [|intros [= <- <-]; now left].
  destruct (negb _); [intros [= <- <-]; now left|].
  destruct (Z.ltb_spec (now - lastEmit) 900); intros [= <- <-].
  - now left.
  - right. split; [reflexivity | lia].
Qed.

Lemma onMessage_call_accepts mode d now lastEmit last' r :
  GameCanvas.onMessage mode d now lastEmit = (last', Some r) ->
  last' = now /\ (lastEmit + 900 <= now)%Z.
Proof.
  intros H. destruct (onMessage_cases _ _ _ _ _ _ H) as [[_ E]|]; [discriminate | assumption].
Qed.

(** Every trigger of a trace comes at least 900 ms after the stamp the trace
    started from. *)
Lemma trace_trigger_after mode evs : forall lastEmit t r,
  In (t, Some r) (GameCanvas.trace mode evs lastEmit) -> (lastEmit + 900 <= t)%Z.
Proof.
  induction evs as [|[now d] rest IH]; intros lastEmit t r; simpl; [tauto|].
  destruct (GameCanvas.onMessage mode d now lastEmit) as [last' call] eqn:E.
  simpl. intros [H|H].
  - injection H as -> ->. apply onMessage_call_accepts in E. lia.
  - apply IH in H. destruct (onMessage_cases _ _ _ _ _ _ E) as [[-> _]|[-> ?]]; lia.
Qed.

(** C9. Once an event of the mini-game has invoked the question trigger, no
    later event received fewer than 900 ms after it invokes the trigger:
    two triggers are never less than 900 ms apart.  Times are the values of
    [Date.now()] at the events; the property holds from any value of
    [lastEmitRef].  The 900 ms run from the last event that passed the
    throttle, not from the last event received. *)
Theorem trigger_throttled mode evs : forall lastEmit i j ti tj ri oj,
  (i < j)%nat ->
  nth_error (GameCanvas.trace mode evs lastEmit) i = Some (ti, Some ri) ->
  nth_error (GameCanvas.trace mode evs lastEmit) j = Some (tj, oj) ->
  (tj - ti < 900)%Z ->
  oj = None.
Proof.
  induction evs as [|[now d] rest IH]; intros lastEmit i j ti tj ri oj Hij Hi Hj Hlt.
  - destruct i; discriminate.
  - simpl in Hi, Hj.
    destruct (GameCanvas.onMessage mode d now lastEmit) as [last' call] eqn:E.
    destruct j as [|j]; [lia|].
    destruct i as [|i]; simpl in Hi, Hj.
    + injection Hi as -> ->.
      apply onMessage_call_accepts in E. destruct E as [-> _].
      destruct oj as [r|]; [|reflexivity].
      apply nth_error_In, trace_trigger_after in Hj. lia.
    + eapply (IH last' i j); eauto. lia.
Qed.

Lemma trigger_throttled_witness :
  exists oj,
    nth_error (GameCanvas.trace GameCanvas.platformer
                 [(1000%Z, GameCanvas.game_event "death");
                  (1500%Z, GameCanvas.game_event "death")] 0%Z) 1
    = Some (1500%Z, oj)
    /\ oj = None.
Proof.
  eexists. split.
  - reflexivity.
  - apply (trigger_throttled GameCanvas.platformer
             [(1000%Z, GameCanvas.game_event "death");
              (1500%Z, GameCanvas.game_event "death")]
             0%Z 0%nat 1%nat 1000%Z 1500%Z GameCanvas.death None);
      [lia | reflexivity | reflexivity | lia].
Defined.

(** The window of 900 ms is counted from the last event that passed the
    throttle, so a suppressed event does not restart it: of the deaths at
    1800 and at 1950, 150 ms apart, the first is suppressed, being 800 ms
    after the trigger at 1000, and the second invokes the trigger. *)
Lemma second_of_close_pair_triggers :
  GameCanvas.trace GameCanvas.shooter
    [(1000%Z, GameCanvas.game_event "death");
     (1800%Z, GameCanvas.game_event "death");
     (1950%Z, GameCanvas.game_event "death")] 0%Z
  = [(1000%Z, Some GameCanvas.death); (1800%Z, None); (1950%Z, Some GameCanvas.death)]
  /\ ~ GameCanvas.only_first_triggers GameCanvas.shooter
        [(1000%Z, GameCanvas.game_event "death");
         (1800%Z, GameCanvas.game_event "death");
         (1950%Z, GameCanvas.game_event "death")] 0%Z.
Proof.
  split; [reflexivity|]. intros H.
  specialize (H 1%nat 2%nat 1800%Z 1950%Z (GameCanvas.game_event "death")
                (GameCanvas.game_event "death") (Some GameCanvas.death)).
  discriminate H; (reflexivity || lia).
Qed.

(** ** Game events and question requests *)

Lemma onMessage_other_reason mode d now lastEmit :
  GameCanvas.reason d <> Some "death" ->
  snd (GameCanvas.onMessage mode (Some d) now lastEmit) = None.
Proof.
  intros Hr. unfold GameCanvas.onMessage.
  destruct (negb _); [reflexivity|].
  destruct (now - lastEmit <? 900)%Z; [reflexivity|].
  assert (GameCanvas.field_is (GameCanvas.reason d) "death" = false) as ->.
  { unfold GameCanvas.field_is. destruct (GameCanvas.reason d) as [s|]; [|reflexivity].
    destruct (String.eqb_spec s "death"); [subst; congruence | reflexivity]. }
  destruct mode; reflexivity.
Qed.

Lemma onMessage_death mode now lastEmit :
  (900 <= now - lastEmit)%Z ->
  GameCanvas.onMessage mode (GameCanvas.game_event "death") now lastEmit
  = (now, Some GameCanvas.death).
Proof.
  intros H. unfold GameCanvas.onMessage, GameCanvas.game_event. simpl.
  destruct (Z.ltb_spec (now - lastEmit) 900); [lia|].
  destruct mode; reflexivity.
Qed.

Lemma triggerQuestion_idle r p :
  StudentPlayPage.idle p = true ->
  StudentPlayPage.requests (StudentPlayPage.triggerQuestion r p)
  = StudentPlayPage.requests p
    ++ [StudentPlayPage.request_question (GameCanvas.reason_string r)].
Proof.
  unfold StudentPlayPage.idle, StudentPlayPage.triggerQuestion, StudentPlayPage.requests.
  destruct (StudentPlayPage.socket p) as [sock|];
    [|rewrite !andb_false_r; discriminate].
  destruct (readyState sock) eqn:Ers;
    try (rewrite !andb_false_r; discriminate).
  destruct (StudentPlayPage.mode p), (StudentPlayPage.mobileView p),
    (StudentPlayPage.portrait p), (StudentPlayPage.question p),
    (StudentPlayPage.awaitingNextQuestion p), (StudentPlayPage.mustGetCorrect p);
    simpl; intros H; try discriminate H;
    unfold sendWs; rewrite Ers; reflexivity.
Qed.

(** C2, as stated: a level up of the mini-game sends no request, even on an
    idle page and outside of the throttle. *)
Lemma level_up_requests_nothing : ~ StudentPlayPage.each_kind_requests.
Proof.
  intros H.
  specialize (H GameCanvas.level_up StudentPlayPage.playing 0%Z 1000%Z eq_refl ltac:(lia)).
  vm_compute in H. discriminate H.
Qed.

(** C2, amended: in the game modes, an event of the mini-game with reason
    [death] that passes the throttle of the canvas makes an idle page send
    [request_question] with that reason; an event with any other reason, a
    level up included, sends nothing, whatever the state of the page. *)
Theorem death_requests_question :
  (forall p lastEmit now,
      StudentPlayPage.idle p = true ->
      (900 <= now - lastEmit)%Z ->
      StudentPlayPage.requests_after "death" now (p, lastEmit)
      = StudentPlayPage.requests p ++ [StudentPlayPage.request_question "death"])
  /\ (forall d p lastEmit now,
         GameCanvas.reason d <> Some "death" ->
         StudentPlayPage.requests
           (fst (StudentPlayPage.on_window_message (Some d) now (p, lastEmit)))
         = StudentPlayPage.requests p).
Proof.
  split.
  - intros p lastEmit now Hidle Hnow.
    unfold StudentPlayPage.requests_after, StudentPlayPage.on_window_message.
    assert (exists m, StudentPlayPage.canvas_mode (StudentPlayPage.mode p) = Some m) as [m ->].
    { unfold StudentPlayPage.idle in Hidle.
      destruct (StudentPlayPage.mode p); simpl in *; eauto; discriminate. }
    rewrite onMessage_death by assumption. simpl.
    now apply (triggerQuestion_idle GameCanvas.death).
  - intros d p lastEmit now Hr. unfold StudentPlayPage.on_window_message.
    destruct (StudentPlayPage.canvas_mode _) as [m|]; [|reflexivity].
    pose proof (onMessage_other_reason m d now lastEmit Hr) as Hc.
    destruct (GameCanvas.onMessage m (Some d) now lastEmit) as [last' call].
    simpl in Hc. subst call. reflexivity.
Qed.

Lemma death_requests_question_witness :
  StudentPlayPage.requests_after "death" 1000%Z (StudentPlayPage.playing, 0%Z)
  = [StudentPlayPage.request_question "death"]
  /\ StudentPlayPage.requests_after "level_up" 1000%Z (StudentPlayPage.playing, 0%Z) = [].
Proof.
  split.
  - apply (proj1 death_requests_question StudentPlayPage.playing 0%Z 1000%Z);
      [reflexivity | lia].
  - apply (proj2 death_requests_question
             {| GameCanvas.type := Some "quiz_game_event"; GameCanvas.source := None;
                GameCanvas.reason := Some "level_up" |}
             StudentPlayPage.playing 0%Z 1000%Z).
    discriminate.
Defined.

(** ** The answer card *)

Lemma includes_In l x : QuestionCard.includes l x = true <-> In x l.
Proof.
  unfold QuestionCard.includes. rewrite existsb_exists. split.
  - intros [y [Hy E]]. apply String.eqb_eq in E. now subst.
  - intros H. exists x. split; [assumption | apply String.eqb_refl].
Qed.

Lemma onChange_multi_within pool o prev :
  In (o_id o) pool ->
  NoDup prev ->
  incl prev pool ->
  let next := QuestionCard.onChange_multi o (negb (QuestionCard.includes prev (o_id o))) prev in
  NoDup next /\ incl next pool.
Proof.
  intros Ho Hnd Hin. unfold QuestionCard.onChange_multi.
  destruct (QuestionCard.includes prev (o_id o)) eqn:E; simpl.
  - split.
    + now apply NoDup_filter.
    + intros x Hx. apply filter_In in Hx. apply Hin, Hx.
  - split.
    + apply NoDup_rev in Hnd. rewrite <- (rev_involutive (prev ++ [o_id o])).
      apply NoDup_rev. rewrite rev_app_distr. simpl. constructor; [|assumption].
      rewrite <- in_rev. intros Hc. apply includes_In in Hc. congruence.
    + intros x Hx. apply in_app_or in Hx. destruct Hx as [Hx|[<-|[]]].
      * now apply Hin.
      * exact Ho.
Qed.

(** A click leaves the ticked ids without repetition and within any pool
    that holds the options of the question shown, if it is a multi
    question. *)
Lemma dispatch_within pool q a s :
  (QuestionCard.is_multi q = true -> incl (map o_id (options_or_empty q)) pool) ->
  NoDup (QuestionCard.multi s) ->
  incl (QuestionCard.multi s) pool ->
  NoDup (QuestionCard.multi (QuestionCard.dispatch q a s))
  /\ incl (QuestionCard.multi (QuestionCard.dispatch q a s)) pool.
Proof.
  intros Hq Hnd Hin. unfold QuestionCard.dispatch, QuestionCard.is_multi in *.
  destruct a as [v|i|i], (q_type q); try (split; assumption).
  - destruct (nth_error (options_or_empty q) i); split; assumption.
  - destruct (nth_error (options_or_empty q) i) as [o|] eqn:E; [|split; assumption].
    apply nth_error_In in E. simpl.
    apply onChange_multi_within; [|assumption..].
    apply (Hq eq_refl). now apply in_map.
Qed.

Lemma dispatch_ok q a s :
  QuestionCard.ticked_ok q s -> QuestionCard.ticked_ok q (QuestionCard.dispatch q a s).
Proof.
  intros [Hnd Hin]. apply dispatch_within; [|assumption..]. intros _ x Hx. exact Hx.
Qed.

Lemma fold_dispatch_ok q acts : forall s,
  QuestionCard.ticked_ok q s ->
  QuestionCard.ticked_ok q (fold_left (fun s a => QuestionCard.dispatch q a s) acts s).
Proof.
  induction acts as [|a rest IH]; intros s Hs; simpl; [assumption|].
  apply IH. now apply dispatch_ok.
Qed.

Lemma fold_step_within pool events : forall c,
  (forall q, In (QuestionCard.Shows q) events -> QuestionCard.is_multi q = true ->
             incl (map o_id (options_or_empty q)) pool) ->
  (QuestionCard.is_multi (QuestionCard.shown c) = true ->
   incl (map o_id (options_or_empty (QuestionCard.shown c))) pool) ->
  NoDup (QuestionCard.multi (QuestionCard.cells c)) ->
  incl (QuestionCard.multi (QuestionCard.cells c)) pool ->
  NoDup (QuestionCard.multi (QuestionCard.cells (fold_left QuestionCard.step events c)))
  /\ incl (QuestionCard.multi (QuestionCard.cells (fold_left QuestionCard.step events c))) pool.
Proof.
  induction events as [|e rest IH]; intros c Hev Hc Hnd Hin; cbn [fold_left]; [now split|].
  apply IH.
  - intros q Hq. apply Hev. now right.
  - destruct e as [a|q]; cbn [QuestionCard.step QuestionCard.shown]; [exact Hc|].
    apply Hev. now left.
  - destruct e as [a|q]; cbn [QuestionCard.step QuestionCard.cells]; [|exact Hnd].
    now apply (dispatch_within pool).
  - destruct e as [a|q]; cbn [QuestionCard.step QuestionCard.cells]; [|exact Hin].
    now apply (dispatch_within pool).
Qed.

Lemma option_ids_incl q qs :
  In q qs -> incl (map o_id (options_or_empty q)) (QuestionCard.option_ids qs).
Proof.
  intros Hq x Hx. unfold QuestionCard.option_ids. apply in_flat_map. eauto.
Qed.

Lemma shows_in_questions_shown q0 q events :
  In (QuestionCard.Shows q) events -> In q (QuestionCard.questions_shown q0 events).
Proof.
  intros H. right. apply in_flat_map. exists (QuestionCard.Shows q). split; [exact H | now left].
Qed.

Lemma never_replaced events :
  QuestionCard.replaced events = false ->
  exists acts, events = map QuestionCard.Does acts.
Proof.
  induction events as [|[a|q] rest IH]; cbn [QuestionCard.replaced existsb orb].
  - exists []. reflexivity.
  - intros H. destruct (IH H) as [acts ->]. exists (a :: acts). reflexivity.
  - discriminate.
Qed.

(** A card that was never given another question is the card of [run]. *)
Lemma play_one_question q acts :
  QuestionCard.play q (map QuestionCard.Does acts)
  = {| QuestionCard.shown := q; QuestionCard.cells := QuestionCard.run q acts |}.
Proof.
  unfold QuestionCard.play, QuestionCard.run, QuestionCard.mount.
  generalize QuestionCard.initial.
  induction acts as [|a rest IH]; intros s; cbn [map fold_left]; [reflexivity|].
  cbn [QuestionCard.step QuestionCard.shown QuestionCard.cells]. apply IH.
Qed.

(** C8. Whatever the student did on a card and whatever questions the page
    gave it since it was mounted, the value given to [onSubmit] has the
    shape of the type of the question shown: [{text}] for open, [{optionId}]
    for single, [{optionIds}] for multi.  The ids of a multi submission are
    pairwise distinct and are ids of options of the multi questions the
    card has shown since it was mounted; they are ids of the question's own
    options when the card has shown no other question. *)
Theorem card_submission_shape (q : Question) (events : list QuestionCard.Event) :
  let c := QuestionCard.play q events in
  let s := QuestionCard.cells c in
  QuestionCard.click c
  = match q_type (QuestionCard.shown c) with
    | Open => JObject [("text", JString (QuestionCard.open s))]
    | Single => JObject [("optionId", JString (QuestionCard.single s))]
    | Multi => JObject [("optionIds", JArray (map JString (QuestionCard.multi s)))]
    end
  /\ NoDup (QuestionCard.multi s)
  /\ incl (QuestionCard.multi s)
          (QuestionCard.option_ids
             (filter QuestionCard.is_multi (QuestionCard.questions_shown q events)))
  /\ (QuestionCard.replaced events = false ->
      QuestionCard.shown c = q
      /\ incl (QuestionCard.multi s) (map o_id (options_or_empty q))).
Proof.
  intros c s.
  assert (NoDup (QuestionCard.multi s)
          /\ incl (QuestionCard.multi s)
                  (QuestionCard.option_ids
                     (filter QuestionCard.is_multi (QuestionCard.questions_shown q events))))
    as [Hnd Hin].
  { apply fold_step_within.
    - intros q' Hq' Hm. apply option_ids_incl, filter_In.
      split; [now apply shows_in_questions_shown | exact Hm].
    - intros Hm. apply option_ids_incl, filter_In. split; [now left | exact Hm].
    - constructor.
    - intros x []. }
  split; [|split; [exact Hnd | split; [exact Hin|]]].
  - unfold QuestionCard.click, QuestionCard.onSubmit_argument, QuestionCard.submitted.
    destruct (q_type (QuestionCard.shown c)); reflexivity.
  - intros Hr. destruct (never_replaced events Hr) as [acts ->].
    unfold s, c. rewrite play_one_question. cbn [QuestionCard.shown QuestionCard.cells].
    split; [reflexivity|]. apply (fold_dispatch_ok q acts). split; [constructor | intros x []].
Qed.

(** The ids of an earlier question are submitted for the question that
    replaced it on the card: the student ticks [o4] and [o3] of question
    [q1], a second [question_push] brings [q2] before the answer is sent,
    and the button of the card sends [o4] and [o3] as the answer to [q2],
    whose options are [o1] and [o2]. *)
Lemma stale_ids_submitted :
  let q1 := {| q_id := "q1"; q_type := Multi; q_prompt := "first";
               q_options := Some [{| o_id := "o3"; o_text := "c" |};
                                  {| o_id := "o4"; o_text := "d" |}];
               q_answer := KOptionIds ["o3"] |} in
  let q2 := {| q_id := "q2"; q_type := Multi; q_prompt := "second";
               q_options := Some [{| o_id := "o1"; o_text := "a" |};
                                  {| o_id := "o2"; o_text := "b" |}];
               q_answer := KOptionIds ["o1"] |} in
  let c := QuestionCard.play q1 [QuestionCard.Does (QuestionCard.Toggle 1);
                                 QuestionCard.Does (QuestionCard.Toggle 0);
                                 QuestionCard.Shows q2] in
  QuestionCard.shown c = q2
  /\ QuestionCard.click c = JObject [("optionIds", JArray [JString "o4"; JString "o3"])]
  /\ ~ incl (QuestionCard.multi (QuestionCard.cells c)) (map o_id (options_or_empty q2))
  /\ StudentPlayPage.requests
       (StudentPlayPage.page
          (StudentPlayPage.screen_after StudentPlayPage.playing
             [StudentPlayPage.Push q1;
              StudentPlayPage.Student (QuestionCard.Toggle 1);
              StudentPlayPage.Student (QuestionCard.Toggle 0);
              StudentPlayPage.Push q2;
              StudentPlayPage.Submit]))
     = [wire "{'event':'answer_submit','payload':{'questionId':'q2','answer':{'optionIds':['o4','o3']}}}"].
Proof.
  cbv zeta. split; [reflexivity|]. split; [reflexivity|]. split; [|vm_compute; reflexivity].
  intros H. specialize (H "o4" (or_introl eq_refl)). simpl in H.
  destruct H as [H|[H|[]]]; discriminate H.
Qed.

(** Every card on the screen of the play page is a card mounted with some
    question and given further questions by the page. *)
Lemma screen_card_played p hs :
  match StudentPlayPage.card (StudentPlayPage.screen_after p hs) with
  | Some c => exists q events, c = QuestionCard.play q events
  | None => True
  end.
Proof.
  unfold StudentPlayPage.screen_after.
  assert (match StudentPlayPage.card (StudentPlayPage.render p None) with
          | Some c => exists q events, c = QuestionCard.play q events
          | None => True
          end) as H0.
  { unfold StudentPlayPage.render. cbn [StudentPlayPage.card].
    destruct (StudentPlayPage.card_question p) as [q|]; [|exact I].
    exists q, []. reflexivity. }
  revert H0. generalize (StudentPlayPage.render p None).
  assert (forall p' old,
             match old with
             | Some c => exists q events, c = QuestionCard.play q events
             | None => True
             end ->
             match StudentPlayPage.card (StudentPlayPage.render p' old) with
             | Some c => exists q events, c = QuestionCard.play q events
             | None => True
             end) as Hrender.
  { intros p' old Hold. unfold StudentPlayPage.render. cbn [StudentPlayPage.card].
    destruct (StudentPlayPage.card_question p') as [q|]; [|exact I].
    destruct old as [c|]; [|exists q, []; reflexivity].
    destruct Hold as [q0 [events ->]]. exists q0, (events ++ [QuestionCard.Shows q]).
    unfold QuestionCard.play. rewrite fold_left_app. reflexivity. }
  induction hs as [|h rest IH]; intros s Hs; cbn [fold_left]; [exact Hs|].
  apply IH. destruct h as [q|a|]; cbn [StudentPlayPage.happens].
  - now apply Hrender.
  - cbn [StudentPlayPage.card]. destruct (StudentPlayPage.card s) as [c|]; [|exact I].
    destruct Hs as [q0 [events ->]]. exists q0, (events ++ [QuestionCard.Does a]).
    cbn [option_map]. unfold QuestionCard.play. rewrite fold_left_app. reflexivity.
  - destruct (StudentPlayPage.card s) as [c|] eqn:E; [|now rewrite E].
    apply Hrender. exact Hs.
Qed.

Example card_toggles :
  let q := {| q_id := "q1"; q_type := Multi; q_prompt := "p";
              q_options := Some [{| o_id := "o1"; o_text := "a" |};
                                 {| o_id := "o2"; o_text := "b" |};
                                 {| o_id := "o3"; o_text := "c" |}];
              q_answer := KOptionIds ["o2"] |} in
  QuestionCard.onSubmit_argument q
    (QuestionCard.run q [QuestionCard.Toggle 2; QuestionCard.Toggle 0; QuestionCard.Toggle 2;
                         QuestionCard.Toggle 7; QuestionCard.Pick 1; QuestionCard.Toggle 1])
  = JObject [("optionIds", JArray [JString "o1"; JString "o2"])].
Proof. reflexivity. Qed.

(** ** Malformed frames *)

Section MalformedFrames.
Variable St : Type.
Variable onMessage : value -> Js St unit.

Lemma socket_onmessage_returns data s :
  fst (socket_onmessage onMessage data s) = inl tt.
Proof.
  unfold socket_onmessage, try_catch, bind, lift, ret.
  destruct (JSON_parse data) as [v|e]; [|reflexivity].
  destruct (onMessage v s) as [[[]|e] s']; reflexivity.
Qed.

Lemma deliver_reports_nothing frames : forall s,
  fst (deliver onMessage frames s) = [].
Proof.
  induction frames as [|data rest IH]; intros s; simpl; [reflexivity|].
  pose proof (socket_onmessage_returns data s) as H.
  destruct (socket_onmessage onMessage data s) as [[[]|e] s']; [apply IH | discriminate].
Qed.

Lemma socket_onmessage_malformed data e s :
  JSON_parse data = inr e ->
  socket_onmessage onMessage data s = (inl tt, s).
Proof.
  intros H. unfold socket_onmessage, try_catch, bind, lift, ret. now rewrite H.
Qed.

Lemma deliver_app before : forall after s,
  snd (deliver onMessage (before ++ after) s)
  = snd (deliver onMessage after (snd (deliver onMessage before s))).
Proof.
  induction before as [|data rest IH]; intros after s; simpl; [reflexivity|].
  pose proof (socket_onmessage_returns data s) as H.
  destruct (socket_onmessage onMessage data s) as [[[]|e] s']; [apply IH | discriminate].
Qed.

End MalformedFrames.

Lemma deliver_eq {St} (h : value -> Js St unit) frames s :
  deliver h frames s = ([], snd (deliver h frames s)).
Proof.
  rewrite <- (deliver_reports_nothing St h frames s).
  now destruct (deliver h frames s).
Qed.

(** C10. A frame whose text is not valid JSON never reaches the message
    handler of the room connection (the log of its calls and the state of
    the page stay as they were) and no exception leaves the socket callback;
    the frames around it are handled as if it had not arrived, and a
    well-formed frame that follows is handed to the handler. *)
Theorem malformed_frame_ignored {St : Type} (onMessage : value -> Js St unit)
        (data : string) (e : Exn) :
  JSON_parse data = inr e ->
  (forall protocol host roomCode calls s,
      onmessage (connectRoom (logged onMessage) protocol host roomCode) data (calls, s)
      = (inl tt, (calls, s)))
  /\ (forall before after s,
         deliver onMessage (before ++ data :: after) s
         = deliver onMessage (before ++ after) s)
  /\ (forall good v calls s,
         JSON_parse good = inl v ->
         deliver (logged onMessage) [data; good] (calls, s)
         = ([], (calls ++ [v], snd (onMessage v s)))).
Proof.
  intros Hbad. split; [|split].
  - intros protocol host roomCode calls s. simpl.
    now apply socket_onmessage_malformed with (e := e).
  - intros before after s.
    rewrite (deliver_eq onMessage (before ++ data :: after)).
    rewrite (deliver_eq onMessage (before ++ after)).
    f_equal. rewrite !deliver_app. simpl.
    now rewrite (socket_onmessage_malformed St onMessage data e _ Hbad).
  - intros good v calls s Hgood. simpl.
    rewrite (socket_onmessage_malformed _ (logged onMessage) data e _ Hbad).
    unfold socket_onmessage, try_catch, bind, lift, ret, logged. rewrite Hgood. simpl.
    destruct (onMessage v s) as [[[]|e'] s']; reflexivity.
Qed.

Lemma malformed_frame_ignored_witness :
  JSON_parse "{oops" = inr SyntaxError
  /\ onmessage (connectRoom (logged count_pushes) "https:" "quiz.local" "ABCDEF") "{oops" ([], 0)
     = (inl tt, ([], 0))
  /\ deliver count_pushes
       [wire "{'event':'question_push','payload':{}}"; "{oops";
        wire "{'event':'question_push','payload':{}}"] 0
     = deliver count_pushes
         [wire "{'event':'question_push','payload':{}}";
          wire "{'event':'question_push','payload':{}}"] 0
  /\ deliver (logged count_pushes)
       ["{oops"; wire "{'event':'question_push','payload':{}}"] ([], 0)
     = ([], ([] ++ [JObject [("event", JString "question_push"); ("payload", JObject [])]],
             snd (count_pushes
                    (JObject [("event", JString "question_push"); ("payload", JObject [])])
                    0))).
Proof.
  assert (JSON_parse "{oops" = inr SyntaxError) as H by (vm_compute; reflexivity).
  destruct (malformed_frame_ignored count_pushes "{oops" SyntaxError H) as [H1 [H2 H3]].
  split; [exact H | split; [|split]].
  - apply H1.
  - apply (H2 [wire "{'event':'question_push','payload':{}}"]
              [wire "{'event':'question_push','payload':{}}"] 0).
  - apply H3. vm_compute. reflexivity.
Defined.

Example deliver_counts :
  deliver count_pushes
    [wire "{'event':'question_push','payload':{}}"; "{oops"; "null";
     wire "{'event':'question_push','payload':{}}"] 0
  = ([], 2).
Proof. vm_compute. reflexivity. Qed.

(** ** Grading a question against its own key *)

Lemma list_ascii_of_string_app (a b : string) :
  list_ascii_of_string (a ++ b)%string = list_ascii_of_string a ++ list_ascii_of_string b.
Proof. induction a as [|c a IH]; simpl; [reflexivity | now rewrite IH]. Qed.

Lemma drop_spaces_blank w :
  forallb Grader.is_space w = true -> Grader.drop_spaces w = [].
Proof.
  induction w as [|c w IH]; simpl; [reflexivity|].
  intros H. apply andb_prop in H. destruct H as [-> H]. now apply IH.
Qed.

Lemma drop_spaces_blank_app w x :
  forallb Grader.is_space w = true ->
  Grader.drop_spaces (w ++ x) = Grader.drop_spaces x.
Proof.
  induction w as [|c w IH]; simpl; [reflexivity|].
  intros H. apply andb_prop in H. destruct H as [-> H]. now apply IH.
Qed.

Lemma drop_spaces_app_blank k w :
  forallb Grader.is_space w = true ->
  Grader.drop_spaces (k ++ w) = Grader.drop_spaces k ++ w
  \/ (Grader.drop_spaces k = [] /\ Grader.drop_spaces (k ++ w) = []).
Proof.
  intros Hw. induction k as [|c k IH]; simpl.
  - right. split; [reflexivity | now apply drop_spaces_blank].
  - destruct (Grader.is_space c); [assumption | now left].
Qed.

Lemma forallb_rev {A} (f : A -> bool) l : forallb f (rev l) = forallb f l.
Proof.
  induction l as [|x l IH]; simpl; [reflexivity|].
  rewrite forallb_app, IH. simpl. rewrite andb_true_r. apply andb_comm.
Qed.

Lemma trim_chars_padded w1 k w2 :
  forallb Grader.is_space w1 = true ->
  forallb Grader.is_space w2 = true ->
  Grader.trim_chars (w1 ++ k ++ w2) = Grader.trim_chars k.
Proof.
  intros H1 H2. unfold Grader.trim_chars.
  rewrite drop_spaces_blank_app by assumption.
  destruct (drop_spaces_app_blank k w2 H2) as [-> | [-> ->]]; [|reflexivity].
  rewrite rev_app_distr, drop_spaces_blank_app; [reflexivity|].
  now rewrite forallb_rev.
Qed.

Lemma normalise_padded lowercase before k after :
  Grader.is_blank before = true ->
  Grader.is_blank after = true ->
  Grader.normalise lowercase (before ++ k ++ after)%string = Grader.normalise lowercase k.
Proof.
  intros H1 H2. unfold Grader.normalise.
  now rewrite !list_ascii_of_string_app, trim_chars_padded.
Qed.

Lemma mem_In x l : Grader.mem x l = true <-> In x l.
Proof.
  unfold Grader.mem. rewrite existsb_exists. split.
  - intros [y [Hy E]]. apply String.eqb_eq in E. now subst.
  - intros H. exists x. split; [assumption | apply String.eqb_refl].
Qed.

Lemma same_set_incl a b : incl a b -> incl b a -> Grader.same_set a b = true.
Proof.
  intros Hab Hba. unfold Grader.same_set.
  apply andb_true_intro. split; apply forallb_forall; intros x Hx; apply mem_In; auto.
Qed.



(** The scenario of the specification for multi questions, and the rules
    for open and mismatched answers. *)
Example grade_scenarios :
  let q := {| q_id := "q1"; q_type := Multi; q_prompt := "p"; q_options := None;
              q_answer := KOptionIds ["o2"; "o4"] |} in
  let o := {| q_id := "q2"; q_type := Open; q_prompt := "p"; q_options := None;
              q_answer := KText "new york" |} in
  map (Grader.grade Grader.ascii_lowercase q)
      [KOptionIds ["o4"; "o2"]; KOptionIds ["o2"]; KOptionIds ["o2"; "o4"; "o2"];
       KOptionIds []; KText "o2"]
  = [Grader.Correct; Grader.Incorrect; Grader.Correct; Grader.Incorrect; Grader.Malformed]
  /\ map (Grader.grade Grader.ascii_lowercase o)
         [KText "  New   York! "; KText "newyork"; KOptionId "o1"]
     = [Grader.Correct; Grader.Incorrect; Grader.Malformed].
Proof. vm_compute. split; reflexivity. Qed.

(** ** Reading back what [JSON.stringify] wrote *)

(** After an escape [\u00XX] the parser looks ahead for the second half of
    a surrogate pair; there is none to find after a control character. *)
Lemma parse_chars_escaped (c : ascii) (rest : list ascii) :
  parse_chars (escape_char c ++ rest) = prepend [c] (parse_chars rest).
Proof.
  destruct c as [[|] [|] [|] [|] [|] [|] [|] [|]]; cbn; try reflexivity;
    destruct rest as [|? [|? [|? [|? [|? [|? ?]]]]]]; try reflexivity;
    match goal with
    | |- context [hex4 ?a ?b ?c ?d] => destruct (hex4 a b c d); reflexivity
    end.
Qed.

Lemma parse_chars_body (k rest : list ascii) :
  parse_chars (flat_map escape_char k ++ byte 34 :: rest) = Some (k, rest).
Proof.
  induction k as [|c k IH]; [reflexivity|].
  cbn [flat_map]. rewrite <- app_assoc, parse_chars_escaped, IH. reflexivity.
Qed.

Lemma quote_chars (s : string) :
  list_ascii_of_string (quote s)
  = byte 34 :: flat_map escape_char (list_ascii_of_string s) ++ [byte 34].
Proof. unfold quote. now rewrite list_ascii_of_string_of_list_ascii. Qed.

Lemma span_app (p : ascii -> bool) (a b : list ascii) :
  span p b = ([], b) ->
  span p (a ++ b) = (fst (span p a), snd (span p a) ++ b).
Proof.
  intros Hb. induction a as [|c a IH]; [exact Hb|].
  cbn [app span]. destruct (p c); [|reflexivity].
  rewrite IH. now destruct (span p a).
Qed.

Lemma closes_cases rest :
  closes rest = true ->
  rest = [] \/ exists c r, rest = c :: r /\ (code c = 44 \/ code c = 93 \/ code c = 125)%N.
Proof.
  destruct rest as [|c r]; [now left|]. cbn [closes]. intros H. right. exists c, r.
  split; [reflexivity|].
  apply orb_prop in H. destruct H as [H|H]; [apply orb_prop in H; destruct H as [H|H]|];
    apply N.eqb_eq in H; auto.
Qed.

Lemma span_closes rest : closes rest = true -> span is_digit rest = ([], rest).
Proof.
  intros H. destruct (closes_cases rest H) as [->|[c [r [-> Hc]]]]; [reflexivity|].
  cbn [span]. unfold is_digit. now destruct Hc as [-> |[-> | ->]].
Qed.

(** The tests of the number parser on a character that closes a value. *)
Lemma closer_is_no_part c :
  (code c = 44 \/ code c = 93 \/ code c = 125)%N ->
  (code c =? 45)%N = false /\ (code c =? 48)%N = false /\ is_digit c = false
  /\ (code c =? 46)%N = false /\ ((code c =? 101) || (code c =? 69))%N = false
  /\ ((code c =? 43) || (code c =? 45))%N = false.
Proof. unfold is_digit. intros [-> |[-> | ->]]; repeat split. Qed.

(** The fraction and the exponent of a number, read with more text after
    them. *)
Lemma parse_number_app (s lx rest : list ascii) :
  parse_number s = Some (lx, []) ->
  closes rest = true ->
  parse_number (s ++ rest) = Some (lx, rest).
Proof.
  intros H Hc. pose proof (span_closes rest Hc) as Hs.
  assert (forall r, span is_digit (r ++ rest)
                    = (fst (span is_digit r), snd (span is_digit r) ++ rest)) as Hsp
      by (intros r; now apply span_app).
  assert (match rest with
          | [] => True
          | c :: _ =>
              (code c =? 45)%N = false /\ (code c =? 48)%N = false /\ is_digit c = false
              /\ (code c =? 46)%N = false /\ ((code c =? 101) || (code c =? 69))%N = false
              /\ ((code c =? 43) || (code c =? 45))%N = false
          end) as Hr.
  { destruct (closes_cases rest Hc) as [->|[c [r [-> Hx]]]]; [exact I|].
    now apply closer_is_no_part. }
  clear Hc. unfold parse_number in *.
  repeat (cbn [app fst snd span] in *; rewrite ?Hs;
          match type of H with
          | None = Some _ => discriminate H
          | context [match ?l with [] => _ | _ :: _ => _ end] =>
              is_var l; destruct l
          | context [if ?b then _ else _] =>
              let E := fresh "E" in destruct b eqn:E
          | context [span is_digit ?r] =>
              is_var r; rewrite ?(Hsp r);
              let ds := fresh "ds" in let r' := fresh "r" in
              destruct (span is_digit r) as [ds r']
          end).
  all: try discriminate H.
  all: inversion H; subst; clear H; rewrite ?app_nil_r.
  all: destruct rest as [|x rest']; cbn [app];
    [rewrite ?app_nil_r; reflexivity|].
  all: destruct Hr as (R1 & R2 & R3 & R4 & R5 & R6);
    rewrite ?R1, ?R2, ?R3, ?R4, ?R5, ?R6; cbn [app]; rewrite ?app_nil_r; reflexivity.
Qed.

Lemma span_whole (p : ascii -> bool) (s : list ascii) :
  s = fst (span p s) ++ snd (span p s).
Proof.
  induction s as [|c s IH]; [reflexivity|]. cbn [span].
  destruct (p c); [|reflexivity]. destruct (span p s) as [a b]. cbn [fst snd app] in *.
  now f_equal.
Qed.

(** The lexeme of a number and the text after it make up the text. *)
Lemma parse_number_whole (s lx r : list ascii) :
  parse_number s = Some (lx, r) -> s = lx ++ r.
Proof.
  intros H. unfold parse_number in H.
  repeat (cbn [app fst snd span] in *;
          match type of H with
          | None = Some _ => discriminate H
          | context [match ?l with [] => _ | _ :: _ => _ end] =>
              is_var l; destruct l
          | context [if ?b then _ else _] =>
              let E := fresh "E" in destruct b eqn:E
          | context [span is_digit ?l] =>
              is_var l;
              let E := fresh "E" in
              pose proof (span_whole is_digit l) as E;
              let ds := fresh "ds" in let r' := fresh "r" in
              destruct (span is_digit l) as [ds r']; cbn [fst snd] in E; subst l
          end).
  all: try discriminate H.
  all: inversion H; subst; clear H;
    repeat (cbn [app]; rewrite <- ?app_assoc); rewrite ?app_nil_r; reflexivity.
Qed.

Lemma parse_number_starts (s lx r : list ascii) :
  parse_number s = Some (lx, r) ->
  exists c t, s = c :: t /\ ((code c =? 45)%N = true \/ is_digit c = true).
Proof.
  intros H. unfold parse_number in H.
  destruct s as [|c t]; [discriminate H|]. exists c, t. split; [reflexivity|].
  destruct (code c =? 45)%N eqn:E; [now left|]. right.
  unfold is_digit. destruct (code c =? 48)%N eqn:E0.
  - apply N.eqb_eq in E0. now rewrite E0.
  - fold (is_digit c). destruct (is_digit c); [reflexivity | discriminate H].
Qed.

Lemma number_lexeme_parses (l : string) (rest : list ascii) :
  number_lexeme l = true ->
  closes rest = true ->
  parse_number (list_ascii_of_string l ++ rest) = Some (list_ascii_of_string l, rest).
Proof.
  unfold number_lexeme. intros H Hc.
  destruct (parse_number (list_ascii_of_string l)) as [[lx [|c r]]|] eqn:E;
    try discriminate H.
  pose proof (parse_number_whole _ _ _ E) as Hw. rewrite app_nil_r in Hw. subst lx.
  now apply parse_number_app.
Qed.

(** Induction on a value, with its items and members. *)
Lemma value_induction (P : value -> Prop) :
  P JNull ->
  (forall b, P (JBool b)) ->
  (forall l, P (JNumber l)) ->
  (forall s, P (JString s)) ->
  (forall items, Forall P items -> P (JArray items)) ->
  (forall members, Forall (fun kv => P (snd kv)) members -> P (JObject members)) ->
  forall v, P v.
Proof.
  intros Hn Hb Hnum Hs Ha Ho.
  fix IH 1. intros [| b | l | s | items | members].
  - exact Hn.
  - apply Hb.
  - apply Hnum.
  - apply Hs.
  - apply Ha. induction items as [|x r IHr]; constructor; [apply IH | exact IHr].
  - apply Ho. induction members as [|[k x] r IHr]; constructor; [apply IH | exact IHr].
Qed.

Lemma stringify_array items :
  JSON_stringify (JArray items) = ("[" ++ elements_text items ++ "]")%string.
Proof. reflexivity. Qed.

Lemma stringify_object members :
  JSON_stringify (JObject members) = ("{" ++ pairs_text members ++ "}")%string.
Proof. reflexivity. Qed.

(** The text of a value starts with a character that is neither white space
    nor a closing bracket. *)
Lemma stringify_starts (v : value) :
  well_formed v = true ->
  exists c t, list_ascii_of_string (JSON_stringify v) = c :: t
              /\ is_ws c = false
              /\ (code c =? 93)%N = false /\ (code c =? 125)%N = false
              /\ match v with
                 | JNumber _ => (code c =? 45)%N = true \/ is_digit c = true
                 | _ => True
                 end.
Proof.
  destruct v as [| [|] | l | s | items | members]; cbn [JSON_stringify well_formed]; intros H;
    try (eexists; eexists; split; [reflexivity|]; repeat split; fail).
  - unfold number_lexeme in H.
    destruct (parse_number (list_ascii_of_string l)) as [[lx r]|] eqn:E; [|discriminate H].
    destruct (parse_number_starts _ _ _ E) as [c [t [-> Hc]]].
    exists c, t. split; [reflexivity|].
    assert (is_ws c = false /\ (code c =? 93)%N = false /\ (code c =? 125)%N = false) as Hn.
    { unfold is_ws, is_digit in *. destruct Hc as [Hc|Hc].
      - apply N.eqb_eq in Hc. rewrite Hc. repeat split.
      - apply andb_prop in Hc. destruct Hc as [H1 H2].
        apply N.leb_le in H1. apply N.leb_le in H2.
        repeat split; rewrite ?orb_false_iff; repeat split; apply N.eqb_neq; lia. }
    tauto.
Qed.

Lemma number_dispatch c :
  (code c =? 45)%N = true \/ is_digit c = true ->
  (code c =? 110)%N = false /\ (code c =? 116)%N = false /\ (code c =? 102)%N = false
  /\ (code c =? 34)%N = false /\ (code c =? 91)%N = false /\ (code c =? 123)%N = false.
Proof.
  unfold is_digit. intros [H|H].
  - apply N.eqb_eq in H. rewrite H. repeat split.
  - apply andb_prop in H. destruct H as [H1 H2].
    apply N.leb_le in H1. apply N.leb_le in H2. repeat split; apply N.eqb_neq; lia.
Qed.

Lemma skip_ws_starts c t : is_ws c = false -> skip_ws (c :: t) = c :: t.
Proof. intros H. cbn [skip_ws]. now rewrite H. Qed.

Lemma reads_back_number l : number_lexeme l = true -> reads_back (JNumber l).
Proof.
  intros Hl fuel rest Hf Hc.
  destruct (stringify_starts (JNumber l) Hl) as [c [t [E [Hws [_ [_ Hd]]]]]].
  pose proof (number_lexeme_parses l rest Hl Hc) as Hp.
  cbn [JSON_stringify] in *. rewrite E in *.
  destruct fuel as [|fuel]; [cbn in Hf; lia|].
  destruct (number_dispatch c Hd) as (D1 & D2 & D3 & D4 & D5 & D6).
  cbn [parse_value app]. rewrite (skip_ws_starts _ _ Hws).
  cbv zeta. rewrite D1, D2, D3, D4, D5, D6.
  change (c :: t ++ rest) with ((c :: t) ++ rest). rewrite Hp, <- E.
  now rewrite string_of_list_ascii_of_string.
Qed.

Lemma reads_back_string s : reads_back (JString s).
Proof.
  intros fuel rest Hf _. cbn [JSON_stringify] in *. rewrite quote_chars in *.
  destruct fuel as [|fuel]; [cbn in Hf; lia|].
  cbn [app]. rewrite <- app_assoc. cbn [app].
  cbn [parse_value skip_ws]. cbn. rewrite parse_chars_body.
  now rewrite string_of_list_ascii_of_string.
Qed.

Lemma reads_back_literal v :
  match v with JNull | JBool _ => True | _ => False end -> reads_back v.
Proof.
  intros Hv fuel rest Hf _.
  destruct v as [| [|] | | | |]; try destruct Hv;
    (destruct fuel as [|fuel]; [cbn in Hf; lia|]); reflexivity.
Qed.

Lemma elements_text_cons x y r :
  elements_text (x :: y :: r)
  = (JSON_stringify x ++ "," ++ elements_text (y :: r))%string.
Proof. reflexivity. Qed.

Lemma pairs_text_cons k x m r :
  pairs_text ((k, x) :: m :: r)
  = (quote k ++ ":" ++ JSON_stringify x ++ "," ++ pairs_text (m :: r))%string.
Proof. reflexivity. Qed.

(** The items of an array, up to the closing bracket. *)
Lemma parse_elements_text items :
  items <> [] ->
  Forall reads_back items ->
  forall fuel rest,
    (S (length (list_ascii_of_string (elements_text items))) <= fuel)%nat ->
    parse_elements fuel (list_ascii_of_string (elements_text items) ++ byte 93 :: rest)
    = Some (items, rest).
Proof.
  intros Hne H. induction H as [|x r Hx Hr IH]; [congruence|]. clear Hne.
  intros fuel rest Hf. destruct fuel as [|fuel]; [lia|].
  destruct r as [|y r].
  - cbn [elements_text] in *. cbn [parse_elements].
    rewrite (Hx fuel) by (reflexivity || lia). reflexivity.
  - rewrite elements_text_cons, !list_ascii_of_string_app in *.
    rewrite !length_app in Hf. cbn [list_ascii_of_string length] in Hf.
    rewrite <- !app_assoc. cbn [list_ascii_of_string app]. cbn [parse_elements].
    rewrite (Hx fuel) by (reflexivity || lia).
    cbn [skip_ws]. cbn -[parse_elements elements_text].
    rewrite IH by (discriminate || lia). reflexivity.
Qed.

(** The members of an object, up to the closing brace. *)
Lemma parse_members_text members :
  members <> [] ->
  Forall (fun kv => reads_back (snd kv)) members ->
  forall fuel rest,
    (S (length (list_ascii_of_string (pairs_text members))) <= fuel)%nat ->
    parse_members fuel (list_ascii_of_string (pairs_text members) ++ byte 125 :: rest)
    = Some (members, rest).
Proof.
  intros Hne H. induction H as [|[k x] r Hx Hr IH]; [congruence|]. clear Hne.
  cbn [snd] in Hx.
  intros fuel rest Hf. destruct fuel as [|fuel]; [lia|].
  destruct r as [|m r].
  - cbn [pairs_text] in *. rewrite !list_ascii_of_string_app, quote_chars in *.
    rewrite !length_app in Hf. cbn [list_ascii_of_string length] in Hf.
    rewrite length_app in Hf. cbn [length] in Hf.
    rewrite <- !app_assoc. cbn [list_ascii_of_string app]. rewrite <- !app_assoc.
    cbn [app parse_members skip_ws]. cbn -[parse_members parse_value parse_chars].
    rewrite parse_chars_body. cbn -[parse_members parse_value].
    rewrite (Hx fuel) by (reflexivity || lia).
    cbn. now rewrite string_of_list_ascii_of_string.
  - rewrite pairs_text_cons, !list_ascii_of_string_app, quote_chars in *.
    rewrite !length_app in Hf. cbn [list_ascii_of_string length] in Hf.
    rewrite !length_app in Hf. cbn [length] in Hf.
    rewrite <- !app_assoc. cbn [list_ascii_of_string app]. rewrite <- !app_assoc.
    cbn [app parse_members skip_ws]. cbn -[parse_members parse_value parse_chars pairs_text].
    rewrite parse_chars_body. cbn -[parse_members parse_value pairs_text].
    rewrite (Hx fuel) by (reflexivity || lia).
    cbn -[parse_members pairs_text].
    rewrite IH by (discriminate || lia).
    now rewrite string_of_list_ascii_of_string.
Qed.

Lemma wf_items_read_back items :
  Forall (fun v => well_formed v = true -> reads_back v) items ->
  forallb well_formed items = true ->
  Forall reads_back items.
Proof.
  intros H Hw. rewrite forallb_forall in Hw. rewrite Forall_forall in *.
  intros v Hv. apply H; [exact Hv | now apply Hw].
Qed.

Lemma wf_members_read_back (members : list (string * value)) :
  Forall (fun kv => well_formed (snd kv) = true -> reads_back (snd kv)) members ->
  forallb (fun kv => well_formed (snd kv)) members = true ->
  Forall (fun kv => reads_back (snd kv)) members.
Proof.
  intros H Hw. rewrite forallb_forall in Hw. rewrite Forall_forall in *.
  intros kv Hkv. apply H; [exact Hkv | now apply Hw].
Qed.

Lemma elements_text_starts x r :
  well_formed x = true ->
  exists c t, list_ascii_of_string (elements_text (x :: r)) = c :: t
              /\ is_ws c = false /\ (code c =? 93)%N = false.
Proof.
  intros Hx. destruct (stringify_starts x Hx) as [c [t [E [H1 [H2 _]]]]].
  destruct r as [|y r].
  - exists c, t. cbn [elements_text]. auto.
  - rewrite elements_text_cons, list_ascii_of_string_app, E. cbn [app]. eauto.
Qed.

Lemma pairs_text_starts k x r :
  exists t, list_ascii_of_string (pairs_text ((k, x) :: r)) = byte 34 :: t.
Proof.
  destruct r as [|m r].
  - cbn [pairs_text]. rewrite list_ascii_of_string_app, quote_chars. cbn [app]. eauto.
  - rewrite pairs_text_cons, list_ascii_of_string_app, quote_chars. cbn [app]. eauto.
Qed.

Lemma reads_back_array items :
  forallb well_formed items = true -> Forall reads_back items -> reads_back (JArray items).
Proof.
  intros Hw H fuel rest Hf _. rewrite stringify_array in *.
  rewrite !list_ascii_of_string_app in *. cbn [list_ascii_of_string app] in *.
  cbn [length] in Hf. rewrite length_app in Hf. cbn [length] in Hf.
  destruct fuel as [|fuel]; [lia|]. rewrite <- app_assoc. cbn [app].
  destruct items as [|x r]; [reflexivity|].
  cbn [forallb] in Hw. apply andb_prop in Hw. destruct Hw as [Hx _].
  destruct (elements_text_starts x r Hx) as [c [t [E [H1 H2]]]].
  pose proof (parse_elements_text (x :: r) ltac:(discriminate) H fuel rest) as Hp.
  set (e := list_ascii_of_string (elements_text (x :: r))) in *. clearbody e.
  assert (skip_ws (e ++ "]"%char :: rest) = c :: (t ++ "]"%char :: rest)) as Hs
      by (rewrite E; cbn [app]; now apply skip_ws_starts).
  cbn [parse_value skip_ws]. cbn -[parse_elements skip_ws].
  rewrite Hs, H2. change "]"%char with (byte 93). rewrite Hp by lia. reflexivity.
Qed.

Lemma reads_back_object members :
  Forall (fun kv => reads_back (snd kv)) members -> reads_back (JObject members).
Proof.
  intros H fuel rest Hf _. rewrite stringify_object in *.
  rewrite !list_ascii_of_string_app in *. cbn [list_ascii_of_string app] in *.
  cbn [length] in Hf. rewrite length_app in Hf. cbn [length] in Hf.
  destruct fuel as [|fuel]; [lia|]. rewrite <- app_assoc. cbn [app].
  destruct members as [|[k x] r]; [reflexivity|].
  destruct (pairs_text_starts k x r) as [t E].
  pose proof (parse_members_text ((k, x) :: r) ltac:(discriminate) H fuel rest) as Hp.
  set (e := list_ascii_of_string (pairs_text ((k, x) :: r))) in *. clearbody e.
  assert (skip_ws (e ++ "}"%char :: rest) = byte 34 :: (t ++ "}"%char :: rest)) as Hs
      by (rewrite E; reflexivity).
  cbn [parse_value skip_ws]. cbn -[parse_members skip_ws].
  rewrite Hs. cbn -[parse_members]. change "}"%char with (byte 125).
  rewrite Hp by lia. reflexivity.
Qed.

Lemma stringify_reads_back v : well_formed v = true -> reads_back v.
Proof.
  induction v using value_induction; intros Hw.
  - now apply reads_back_literal.
  - now apply reads_back_literal.
  - now apply reads_back_number.
  - apply reads_back_string.
  - cbn [well_formed] in Hw. apply reads_back_array; [exact Hw|].
    now apply wf_items_read_back.
  - cbn [well_formed] in Hw. apply reads_back_object. now apply wf_members_read_back.
Qed.

(** [JSON.parse] gives back the value that [JSON.stringify] wrote. *)
Lemma JSON_parse_stringify v :
  well_formed v = true -> JSON_parse (JSON_stringify v) = inl v.
Proof.
  intros Hw. unfold JSON_parse.
  pose proof (stringify_reads_back v Hw
                (2 * length (list_ascii_of_string (JSON_stringify v)) + 2)%nat []) as H.
  rewrite app_nil_r in H. rewrite H by (reflexivity || lia). reflexivity.
Qed.

(** ** The round trip of an envelope *)



(** What the client itself sends carries neither a request identifier nor
    a time stamp. *)
Example sendWs_frame :
  option_map (fun frame => JSON_parse frame)
             (hd_error (sent (sendWs {| readyState := OPEN; sent := [] |} "request_stats"
                                     (JObject []))))
  = Some (inl (JObject [("event", JString "request_stats"); ("payload", JObject [])])).
Proof. vm_compute. reflexivity. Qed.

Example answer_result_frame :
  Envelope.serialize Envelope.answer_result
  = wire "{'event':'answer_result','payload':{'questionId':'q1','correct':true,'nextAction':'continue'},'requestId':'r-1','ts':'2026-02-26T18:00:00.000Z'}".
Proof. vm_compute. reflexivity. Qed.

(** The type [WsEnvelope] of the client calls the request identifier
    [request_id]; no frame of the server has a member of that name, and no
    code of the client reads it. *)
Example answer_result_received :
  Envelope.received
    (wire "{'event':'answer_result','payload':{'questionId':'q1','correct':true,'nextAction':'continue'},'requestId':'r-1','ts':'2026-02-26T18:00:00.000Z'}")
  = Some (JObject [("event", JString "answer_result");
                   ("payload", JObject [("questionId", JString "q1"); ("correct", JBool true);
                                        ("nextAction", JString "continue")]);
                   ("requestId", JString "r-1");
                   ("ts", JString "2026-02-26T18:00:00.000Z")]).
Proof. vm_compute. reflexivity. Qed.

(** ** The storage schema *)

Section UniqueKeys.
Variables (row K : Type) (key : row -> option K) (clash : row -> row -> bool).
Hypothesis clash_key :
  forall a b k, key a = Some k -> key b = Some k -> clash a b = true.

Lemma keys_app (t u : list row) :
  Schema.keys key (t ++ u) = Schema.keys key t ++ Schema.keys key u.
Proof. unfold Schema.keys. apply flat_map_app. Qed.

Lemma keys_In k (t : list row) :
  In k (Schema.keys key t) <-> exists r, In r t /\ key r = Some k.
Proof.
  unfold Schema.keys. rewrite in_flat_map. split; intros [r [Hr H]]; exists r; split; auto.
  - destruct (key r) as [k'|]; [|destruct H]. destruct H as [<-|[]]. reflexivity.
  - rewrite H. now left.
Qed.

Lemma insert_keeps_keys_apart (t : list row) r :
  NoDup (Schema.keys key t) ->
  Schema.free clash t r = true ->
  NoDup (Schema.keys key (t ++ [r])).
Proof.
  intros Hnd Hfree. rewrite keys_app. unfold Schema.keys at 2. simpl. rewrite app_nil_r.
  destruct (key r) as [k|] eqn:Ek; [|now rewrite app_nil_r].
  apply NoDup_rev in Hnd. rewrite <- (rev_involutive (_ ++ [k])).
  apply NoDup_rev. rewrite rev_app_distr. simpl. constructor; [|assumption].
  rewrite <- in_rev. intros Hin. apply keys_In in Hin. destruct Hin as [r' [Hr' Ek']].
  unfold Schema.free in Hfree. rewrite forallb_forall in Hfree.
  specialize (Hfree r' Hr'). rewrite (clash_key r r' k Ek Ek') in Hfree. discriminate.
Qed.

Lemma filter_keeps_keys_apart (p : row -> bool) (t : list row) :
  NoDup (Schema.keys key t) -> NoDup (Schema.keys key (filter p t)).
Proof.
  pose proof keys_In as KI. unfold Schema.keys in *.
  induction t as [|r t IH]; simpl; [auto|].
  intros Hnd. destruct (p r); simpl.
  - destruct (key r) as [k|]; simpl in *; [|auto].
    inversion Hnd as [|? ? Hk Hnd']; subst. constructor; [|auto].
    intros Hin. apply Hk. apply KI in Hin. destruct Hin as [r' [Hr' E]].
    apply KI. exists r'. split; [|assumption]. apply filter_In in Hr'. tauto.
  - apply IH. destruct (key r); simpl in Hnd; [now inversion Hnd | assumption].
Qed.

End UniqueKeys.

Lemma keys_total {row K} (f : row -> K) (t : list row) :
  Schema.keys (fun r => Some (f r)) t = map f t.
Proof. induction t as [|r t IH]; simpl; [reflexivity | now rewrite <- IH]. Qed.

Lemma answer_clash_key a b k :
  Some (Schema.answer_key a) = Some k -> Some (Schema.answer_key b) = Some k ->
  Schema.session_answer_clash a b = true.
Proof.
  intros [= <-] [= E1 E2 E3 E4].
  unfold Schema.session_answer_clash. rewrite E1, E2, E3, E4, !Z.eqb_refl.
  apply orb_true_r.
Qed.

Lemma ci_eqb_refl s : Schema.ci_eqb s s = true.
Proof. apply String.eqb_refl. Qed.

Lemma participant_clash_key a b k :
  Some (Schema.participant_key a) = Some k -> Some (Schema.participant_key b) = Some k ->
  Schema.session_participant_clash a b = true.
Proof.
  intros [= <-] [= E1 E2].
  unfold Schema.session_participant_clash. rewrite E1, E2, Z.eqb_refl, ci_eqb_refl.
  apply orb_true_r.
Qed.

Lemma aggregate_clash_key a b k :
  Schema.aggregate_key a = Some k -> Schema.aggregate_key b = Some k ->
  Schema.stats_aggregate_clash a b = true.
Proof.
  unfold Schema.aggregate_key, Schema.stats_aggregate_clash.
  destruct (Schema.ag_participant_id a) as [p|]; [|discriminate].
  destruct (Schema.ag_participant_id b) as [p'|]; [|discriminate].
  intros [= <-] [= E1 E2]. simpl. rewrite E1, E2, !Z.eqb_refl. apply orb_true_r.
Qed.

Lemma guard_true b u : Schema.guard b = Some u -> b = true.
Proof. destruct b; [reflexivity | discriminate]. Qed.

Lemma store_enum_range strict members v m :
  Schema.store_enum strict members v = Some m -> In m members \/ m = "".
Proof.
  unfold Schema.store_enum. destruct (find _ members) as [x|] eqn:E.
  - intros [= <-]. left. now apply find_some in E.
  - destruct (Schema.enum_index v) as [[|i]|];
      try (destruct strict; [discriminate | intros [= <-]; now right]).
    destruct (nth_error members i) as [x|] eqn:En.
    + intros [= <-]. left. eapply nth_error_In; eassumption.
    + destruct strict; [discriminate | intros [= <-]; now right].
Qed.

Lemma stored_game_mode strict r0 r :
  Schema.stored_game_session strict r0 = Some r ->
  In (Schema.gs_game_mode r) ["platformer"; "shooter"; "tycoon"; ""].
Proof.
  unfold Schema.stored_game_session.
  repeat match goal with
         | |- match ?e with _ => _ end = Some _ -> _ => destruct e eqn:?; [|discriminate]
         end.
  intros [= <-]. simpl.
  match goal with H : Schema.store_enum _ ["platformer"; _; _] _ = Some _ |- _ =>
    apply store_enum_range in H; simpl in *; intuition
  end.
Qed.

(** Splits the hypothesis that a statement was accepted into the checks that
    it passed. *)
Ltac accepted H :=
  unfold Schema.exec in H;
  repeat match type of H with
         | match ?e with _ => _ end = Some _ =>
             let E := fresh "E" in destruct e eqn:E; [|discriminate H]
         end;
  injection H as <-.

Lemma exec_invariant strict st db db' :
  Schema.exec strict st db = Some db' -> Schema.invariant db -> Schema.invariant db'.
Proof.
  intros H [Ha [Hp [Hg Hm]]]. unfold Schema.invariant.
  destruct st; accepted H; simpl; repeat split; try assumption;
    try (apply filter_keeps_keys_apart; assumption).
  - apply Forall_app. split; [assumption|]. constructor; [|constructor].
    eapply stored_game_mode; eassumption.
  - eapply insert_keeps_keys_apart;
      [apply participant_clash_key | assumption | eapply guard_true; eassumption].
  - eapply insert_keeps_keys_apart;
      [apply answer_clash_key | assumption | eapply guard_true; eassumption].
  - eapply insert_keeps_keys_apart;
      [apply aggregate_clash_key | assumption | eapply guard_true; eassumption].
  - unfold Schema.without. rewrite Forall_forall in *. intros r Hr.
    apply filter_In in Hr. apply Hm, Hr.
Qed.

Lemma exec_all_invariant strict sts : forall db db',
  Schema.exec_all strict sts db = Some db' -> Schema.invariant db -> Schema.invariant db'.
Proof.
  induction sts as [|st rest IH]; simpl; intros db db' H Hinv.
  - now injection H as <-.
  - destruct (Schema.exec strict st db) as [db1|] eqn:E; [|discriminate].
    eapply IH; [eassumption|]. eapply exec_invariant; eassumption.
Qed.

Lemma reachable_invariant strict db :
  Schema.reachable strict db -> Schema.invariant db.
Proof.
  intros [sts H]. eapply exec_all_invariant; [eassumption|].
  repeat split; simpl; constructor.
Qed.

(** C6. In every state of the database no two rows of [session_answers]
    have the same session, participant, question and attempt number, and no
    two rows of [session_participants] have the same session and nickname. *)
Theorem storage_keys_unique strict db :
  Schema.reachable strict db ->
  NoDup (map Schema.answer_key (Schema.session_answers db))
  /\ NoDup (map Schema.participant_key (Schema.session_participants db)).
Proof.
  intros H. apply reachable_invariant in H. destruct H as [Ha [Hp _]].
  rewrite keys_total in Ha. rewrite keys_total in Hp. now split.
Qed.

Lemma storage_keys_unique_witness :
  NoDup (map Schema.answer_key
           (Schema.session_answers (Schema.state_after true Schema.played)))
  /\ NoDup (map Schema.participant_key
              (Schema.session_participants (Schema.state_after true Schema.played))).
Proof.
  apply (storage_keys_unique true (Schema.state_after true Schema.played)).
  exists Schema.played. reflexivity.
Defined.

Example played_rows :
  map Schema.answer_key (Schema.session_answers (Schema.state_after true Schema.played))
  = [(1, 1, 1, 1); (1, 1, 1, 2); (1, 2, 1, 1)]%Z
  /\ Schema.exec true (Schema.InsertSessionAnswer (Schema.an_answer 4 1 2 false))
       (Schema.state_after true Schema.played) = None
  /\ Schema.exec true (Schema.InsertSessionParticipant (Schema.a_participant 3 "Alice"))
       (Schema.state_after true Schema.played) = None.
Proof. vm_compute. repeat split. Qed.

Lemma filter_none {A} (p : A -> bool) (l : list A) :
  (forall x, In x l -> p x = false) -> filter p l = [].
Proof.
  induction l as [|x l IH]; simpl; intros H; [reflexivity|].
  rewrite (H x (or_introl eq_refl)). apply IH. intros y Hy. apply H. now right.
Qed.

(** The part of the aggregate key that the schema does enforce: a session has
    at most one row for each participant. *)
Lemma one_row_per_participant strict db session participant :
  Schema.reachable strict db ->
  (length (Schema.participant_rows db session participant) <= 1)%nat.
Proof.
  intros H. apply reachable_invariant in H. destruct H as [_ [_ [Hg _]]].
  unfold Schema.participant_rows. revert Hg.
  pose proof (keys_In _ _ Schema.aggregate_key) as KI.
  unfold Schema.keys in *.
  induction (Schema.session_stats_aggregate db) as [|r t IH]; simpl; [lia|].
  intros Hnd.
  destruct ((Schema.ag_session_id r =? session)%Z
            && match Schema.ag_participant_id r with
               | Some p => (p =? participant)%Z
               | None => false
               end) eqn:E.
  - apply andb_prop in E. destruct E as [Es Ep].
    destruct (Schema.ag_participant_id r) as [p|] eqn:Er; [|discriminate].
    apply Z.eqb_eq in Es, Ep. subst session participant.
    assert (Schema.aggregate_key r = Some (Schema.ag_session_id r, p)) as Ek
        by (unfold Schema.aggregate_key; now rewrite Er).
    rewrite Ek in Hnd. simpl in Hnd. inversion Hnd as [|? ? Hk Hnd']; subst.
    rewrite filter_none; [simpl; lia|].
    intros r' Hr'.
    destruct ((Schema.ag_session_id r' =? Schema.ag_session_id r)%Z
              && match Schema.ag_participant_id r' with
                 | Some p' => (p' =? p)%Z
                 | None => false
                 end) eqn:E'; [|reflexivity].
    exfalso. apply Hk. apply KI. exists r'. split; [assumption|].
    apply andb_prop in E'. destruct E' as [Es' Ep'].
    unfold Schema.aggregate_key.
    destruct (Schema.ag_participant_id r') as [p'|]; [|discriminate].
    apply Z.eqb_eq in Es', Ep'. now rewrite Es', Ep'.
  - apply IH. destruct (Schema.aggregate_key r); simpl in Hnd;
      [now inversion Hnd | assumption].
Qed.

(** C5. The unique key on [(session_id, participant_id)] does not keep the
    class row of a session unique: its [participant_id] is [NULL], and the
    server accepts the class row of session 1 a second time.  The state with
    two class rows is reached in either SQL mode. *)
Theorem class_row_not_unique :
  forall strict,
    Schema.reachable strict (Schema.state_after strict Schema.two_class_rows)
    /\ length (Schema.class_rows (Schema.state_after strict Schema.two_class_rows) 1) = 2%nat.
Proof.
  intros strict. split.
  - exists Schema.two_class_rows. destruct strict; reflexivity.
  - destruct strict; reflexivity.
Qed.

(** A second row for a participant is refused. *)
Example participant_row_unique :
  let script := Schema.setup ++ [Schema.InsertStatsAggregate (Schema.an_aggregate 1 (Some 2%Z))] in
  Schema.exec true (Schema.InsertStatsAggregate (Schema.an_aggregate 2 (Some 2%Z)))
    (Schema.state_after true script) = None
  /\ length (Schema.participant_rows (Schema.state_after true script) 1 2) = 1%nat.
Proof. vm_compute. split; reflexivity. Qed.

(** ** The game mode of a session *)

Lemma classic_not_a_member :
  Schema.store_enum true ["platformer"; "shooter"; "tycoon"] "classic" = None.
Proof. reflexivity. Qed.

Lemma stored_classic r :
  Schema.gs_game_mode r = "classic" -> Schema.stored_game_session true r = None.
Proof.
  intros H. unfold Schema.stored_game_session. rewrite H, classic_not_a_member.
  repeat (first [ reflexivity
                | match goal with
                  | |- match ?e with _ => _ end = None => destruct e
                  end ]).
Qed.

Lemma classic_refused db r :
  Schema.gs_game_mode r = "classic" ->
  Schema.exec true (Schema.InsertGameSession r) db = None.
Proof.
  intros H. unfold Schema.exec. now rewrite stored_classic.
Qed.

(** C1. The dashboard asks for the mode [classic] when the teacher chose
    none, and the schema cannot hold it: in strict mode the server refuses
    the row of such a session, and in no state of the database, in either
    mode, does a row of [game_sessions] have the game mode [classic]. *)
Theorem classic_session_not_stored :
  (forall quizId,
      DashboardPage.requested_mode (DashboardPage.startSession [] quizId) = Some "classic")
  /\ (forall db r,
         Schema.gs_game_mode r = "classic" ->
         Schema.exec true (Schema.InsertGameSession r) db = None)
  /\ (forall strict db r,
         Schema.reachable strict db ->
         In r (Schema.game_sessions db) ->
         Schema.gs_game_mode r <> "classic").
Proof.
  split; [|split].
  - intros quizId. reflexivity.
  - apply classic_refused.
  - intros strict db r H Hr. apply reachable_invariant in H. destruct H as [_ [_ [_ Hm]]].
    rewrite Forall_forall in Hm. specialize (Hm r Hr). intros E. rewrite E in Hm.
    simpl in Hm. intuition discriminate.
Qed.

Lemma classic_session_not_stored_witness :
  DashboardPage.requested_mode (DashboardPage.startSession [] 7) = Some "classic"
  /\ Schema.exec true (Schema.InsertGameSession (Schema.a_session "classic"))
       (Schema.state_after true (firstn 3 Schema.setup)) = None
  /\ Schema.gs_game_mode (Schema.a_session "platformer") <> "classic".
Proof.
  destruct classic_session_not_stored as [H1 [H2 H3]].
  split; [apply H1 | split].
  - apply H2. reflexivity.
  - apply (H3 true (Schema.state_after true Schema.setup)).
    + exists Schema.setup. reflexivity.
    + simpl. left. reflexivity.
Defined.

(** Outside of strict mode the row is stored with an empty game mode. *)
Example classic_stored_empty :
  option_map (fun db => map Schema.gs_game_mode (Schema.game_sessions db))
             (Schema.exec false (Schema.InsertGameSession (Schema.a_session "classic"))
                (Schema.state_after false (firstn 3 Schema.setup)))
  = Some [""].
Proof. vm_compute. reflexivity. Qed.

Example enum_by_index :
  Schema.store_enum true ["platformer"; "shooter"; "tycoon"] "3" = Some "tycoon"
  /\ Schema.store_enum true ["platformer"; "shooter"; "tycoon"] "Shooter" = Some "shooter"
  /\ Schema.store_enum true ["platformer"; "shooter"; "tycoon"] "4" = None.
Proof. vm_compute. repeat split. Qed.

Example tycoon_stored :
  option_map (fun db => map Schema.gs_game_mode (Schema.game_sessions db))
             (Schema.exec true (Schema.InsertGameSession (Schema.a_session "tycoon"))
                (Schema.state_after true (firstn 3 Schema.setup)))
  = Some ["tycoon"].
Proof. vm_compute. reflexivity. Qed.

(** ** The key of a multi question *)

(** The quiz builder never sends a multi question without an option id. *)
Lemma toQuizPayload_multi_key title description drafts q :
  In q (questions (NewQuizPage.toQuizPayload title description drafts)) ->
  q_type q = Multi ->
  exists k ks, q_answer q = KOptionIds (k :: ks).
Proof.
  unfold NewQuizPage.toQuizPayload. simpl. intros Hq. apply in_map_iff in Hq.
  destruct Hq as [d [<- _]]. unfold NewQuizPage.toQuestion.
  destruct (NewQuizPage.type d); simpl; try discriminate. intros _.
  destruct (NewQuizPage.selected_ids d _) as [|k ks]; eauto.
Qed.

(** C7. The schema does not make the key of a multi question non-empty:
    the server accepts, for a multi question, an answer row with every column
    empty, and one whose array of option ids is empty. *)
Theorem multi_key_not_enforced :
  forall strict,
    Schema.reachable strict (Schema.state_after strict Schema.keyless_multi)
    /\ map (fun q => (Schema.qq_external_id q,
                      Schema.recorded_option_ids
                        (Schema.state_after strict Schema.keyless_multi) (Schema.qq_id q)))
           (Schema.multi_questions (Schema.state_after strict Schema.keyless_multi))
       = [("q1", []); ("q2", [])].
Proof.
  intros strict. split.
  - exists Schema.keyless_multi. destruct strict; reflexivity.
  - destruct strict; reflexivity.
Qed.

(* ================================================================== *)
(** * Part II, continued: the rest of the client and of the schema      *)
(* ================================================================== *)

(** ** Cookies and requests *)

Lemma split_on_cons sep s : exists p ps, Text.split_on sep s = p :: ps.
Proof.
  induction s as [|c r [p [ps IH]]]; simpl; [eauto|].
  destruct (Ascii.eqb c sep); [eauto|]. rewrite IH. eauto.
Qed.

Lemma join_split sep s : Text.join_with sep (Text.split_on sep s) = s.
Proof.
  induction s as [|c r IH]; simpl; [reflexivity|].
  destruct (Ascii.eqb_spec c sep) as [->|Hne].
  - destruct (split_on_cons sep r) as [p [ps E]]. rewrite E in *. simpl in *.
    now rewrite IH.
  - destruct (split_on_cons sep r) as [p [ps E]]. rewrite E in *.
    destruct ps; simpl in *; now rewrite <- IH.
Qed.

Lemma split_on_none sep s : ~ In sep s -> Text.split_on sep s = [s].
Proof.
  induction s as [|c r IH]; simpl; [reflexivity|]. intros H.
  destruct (Ascii.eqb_spec c sep) as [->|Hne]; [tauto|].
  rewrite IH by tauto. reflexivity.
Qed.

Lemma split_on_app sep a b :
  ~ In sep a -> Text.split_on sep (a ++ sep :: b) = a :: Text.split_on sep b.
Proof.
  induction a as [|c r IH]; simpl; intros H.
  - now rewrite Ascii.eqb_refl.
  - destruct (Ascii.eqb_spec c sep) as [->|Hne]; [tauto|].
    rewrite IH by tauto. reflexivity.
Qed.

Lemma split_join sep pieces :
  pieces <> [] ->
  (forall p, In p pieces -> ~ In sep p) ->
  Text.split_on sep (Text.join_with sep pieces) = pieces.
Proof.
  induction pieces as [|p rest IH]; [congruence|]. intros _ H.
  destruct rest as [|q rest].
  - simpl. apply split_on_none, H. now left.
  - change (Text.join_with sep (p :: q :: rest))
      with (p ++ sep :: Text.join_with sep (q :: rest)).
    rewrite split_on_app by (apply H; now left).
    rewrite IH; [reflexivity | discriminate |]. intros x Hx. apply H. now right.
Qed.

Lemma starts_with_app prefix s : Text.starts_with prefix (prefix ++ s) = true.
Proof.
  induction prefix as [|a p IH]; simpl; [reflexivity|].
  now rewrite Ascii.eqb_refl.
Qed.

(** Two names without the separator: the pair of one starts with the other
    followed by the separator only if the names are the same. *)
Lemma starts_with_name_sep (sep : ascii) n : forall m v,
  ~ In sep n -> ~ In sep m ->
  Text.starts_with (m ++ [sep]) (n ++ sep :: v) = true -> n = m.
Proof.
  induction n as [|a n IH]; intros [|b m] v Hn Hm; simpl.
  - reflexivity.
  - intros H. apply andb_prop in H. destruct H as [H _].
    apply Ascii.eqb_eq in H. exfalso. apply Hm. now left.
  - intros H. apply andb_prop in H. destruct H as [H _].
    apply Ascii.eqb_eq in H. exfalso. apply Hn. left. congruence.
  - intros H. apply andb_prop in H. destruct H as [H1 H2].
    apply Ascii.eqb_eq in H1. subst b. f_equal.
    apply (IH m v); [intros Hc; apply Hn; now right | intros Hc; apply Hm; now right | exact H2].
Qed.

Lemma starts_with_name n m v :
  ~ In Api.equals n -> ~ In Api.equals m ->
  Text.starts_with (m ++ [Api.equals]) (n ++ Api.equals :: v) = true -> n = m.
Proof. apply starts_with_name_sep. Qed.

Lemma starts_with_pair (sep : ascii) n v :
  Text.starts_with (n ++ [sep]) (n ++ sep :: v) = true.
Proof.
  induction n as [|a n IH]; simpl; now rewrite Ascii.eqb_refl.
Qed.

Lemma value_after_name n v :
  ~ In Api.equals n ->
  Text.join_with Api.equals (tl (Text.split_on Api.equals (n ++ Api.equals :: v))) = v.
Proof.
  intros H. rewrite split_on_app by assumption. simpl. apply join_split.
Qed.

Lemma trim_after_space s :
  Text.trimmed s -> JsString.trim_bytes (Api.space :: s) = s.
Proof.
  unfold Text.trimmed, JsString.trim_bytes. intros H.
  change (JsString.trimStart_bytes (Api.space :: s)) with (JsString.trimStart_bytes s).
  exact H.
Qed.

Lemma list_ascii_inj a b : list_ascii_of_string a = list_ascii_of_string b -> a = b.
Proof.
  intros H. rewrite <- (string_of_list_ascii_of_string a), <- (string_of_list_ascii_of_string b).
  now rewrite H.
Qed.

Lemma find_cookie name jar :
  Forall Api.plain_cookie jar ->
  ~ In Api.equals (list_ascii_of_string name) ->
  match find (Text.starts_with (list_ascii_of_string name ++ [Api.equals]))
             (map Api.pair_text jar) with
  | Some t =>
      exists v, Api.first_value jar name = Some v
                /\ t = list_ascii_of_string name ++ Api.equals :: list_ascii_of_string v
  | None => Api.first_value jar name = None
  end.
Proof.
  intros Hjar Hname. induction Hjar as [|[n v] jar [_ [Hn _]] _ IH]; simpl; [reflexivity|].
  unfold Api.pair_text at 1. simpl in *.
  destruct (Text.starts_with _ _) eqn:E.
  - apply starts_with_name in E; [|assumption..].
    apply list_ascii_inj in E. subst n. rewrite String.eqb_refl. eauto.
  - destruct (String.eqb_spec n name) as [->|Hne]; [|exact IH].
    now rewrite starts_with_pair in E.
Qed.

Lemma segments_of_cookie jar :
  Forall Api.plain_cookie jar ->
  jar <> [] ->
  map JsString.trim_bytes
      (Text.split_on Api.semicolon (list_ascii_of_string (Api.document_cookie jar)))
  = map Api.pair_text jar.
Proof.
  intros Hjar Hne. unfold Api.document_cookie.
  rewrite list_ascii_of_string_of_list_ascii.
  destruct jar as [|c rest]; [congruence|].
  inversion Hjar as [|? ? [Hc1 [_ Hc3]] Hrest]; subst.
  rewrite split_join.
  - simpl. rewrite Hc3. f_equal. rewrite map_map.
    apply map_ext_in. intros c' Hc'.
    rewrite Forall_forall in Hrest. destruct (Hrest c' Hc') as [_ [_ H3]].
    now apply trim_after_space.
  - discriminate.
  - intros p [<-|Hp]; [assumption|].
    apply in_map_iff in Hp. destruct Hp as [c' [<- Hc']].
    rewrite Forall_forall in Hrest. destruct (Hrest c' Hc') as [H1 _].
    intros [Hs|Hs]; [discriminate Hs | tauto].
Qed.

Lemma getCookie_document_cookie (jar : list (string * string)) (name : string) :
  Forall Api.plain_cookie jar ->
  ~ In Api.equals (list_ascii_of_string name) ->
  Api.getCookie (Api.document_cookie jar) name = Api.first_value jar name.
Proof.
  intros Hjar Hname. unfold Api.getCookie.
  destruct jar as [|c rest] eqn:Ej.
  - unfold Api.document_cookie. simpl.
    destruct (list_ascii_of_string name); reflexivity.
  - rewrite <- Ej in *. rewrite segments_of_cookie by (assumption || (subst; discriminate)).
    pose proof (find_cookie name jar Hjar Hname) as H.
    destruct (find _ _) as [t|].
    + destruct H as [v [-> ->]]. rewrite value_after_name by assumption.
      now rewrite string_of_list_ascii_of_string.
    + now rewrite H.
Qed.

(** X1. In the cookie string of cookies that have no semicolon, no equals
    sign in their names and no white space at either end of a pair,
    [getCookie] finds the value of the first cookie of the given name,
    whole, equals signs included, and finds nothing when there is no cookie
    of that name. *)
Theorem getCookie_first_value (jar : list (string * string)) (name : string) :
  Forall Api.plain_cookie jar ->
  ~ In Api.equals (list_ascii_of_string name) ->
  Api.getCookie (Api.document_cookie jar) name = Api.first_value jar name.
Proof. apply getCookie_document_cookie. Qed.

Lemma not_in_existsb (c : ascii) l : existsb (Ascii.eqb c) l = false -> ~ In c l.
Proof.
  intros H Hin. assert (existsb (Ascii.eqb c) l = true) as E.
  { apply existsb_exists. exists c. split; [assumption | apply Ascii.eqb_refl]. }
  congruence.
Qed.

Lemma getCookie_first_value_witness :
  Api.getCookie
    (Api.document_cookie [("theme", "dark"); ("csrf_token", "a=b=="); ("csrf_token", "old")])
    "csrf_token"
  = Api.first_value [("theme", "dark"); ("csrf_token", "a=b=="); ("csrf_token", "old")]
                    "csrf_token".
Proof.
  apply (getCookie_first_value
           [("theme", "dark"); ("csrf_token", "a=b=="); ("csrf_token", "old")] "csrf_token").
  - repeat constructor; try (apply not_in_existsb; reflexivity); reflexivity.
  - apply not_in_existsb. reflexivity.
Defined.

(** A value that ends with a no-break space comes back without it. *)
Example getCookie_examples :
  Api.getCookie "theme=dark; csrf_token=a=b==; csrf_token=old" "csrf_token" = Some "a=b=="
  /\ Api.getCookie "theme=dark" "csrf_token" = None
  /\ Api.getCookie "" "csrf_token" = None
  /\ Api.getCookie "xcsrf_token=1" "csrf_token" = None
  /\ Api.getCookie ("csrf_token=abc" ++ String (byte 194) (String (byte 160) "; x=1"))
                   "csrf_token"
     = Some "abc".
Proof. vm_compute. repeat split. Qed.

Lemma names_same name name' kv :
  Schema.lower_string name = Schema.lower_string name' ->
  Api.names name kv = Api.names name' kv.
Proof. unfold Api.names. now intros ->. Qed.

Lemma names_other name name' kv :
  Schema.lower_string name <> Schema.lower_string name' ->
  Api.names name' kv = true -> Api.names name kv = false.
Proof.
  unfold Api.names. intros Hne H. apply String.eqb_eq in H.
  apply String.eqb_neq. congruence.
Qed.

Lemma filter_filter_none {A} (p : A -> bool) (l : list A) :
  filter p (filter (fun x => negb (p x)) l) = [].
Proof.
  induction l as [|x l IH]; simpl; [reflexivity|].
  destruct (p x) eqn:E; simpl; [exact IH | now rewrite E].
Qed.

Lemma filter_filter_all {A} (p q : A -> bool) (l : list A) :
  (forall x, p x = true -> q x = true) ->
  filter p (filter q l) = filter p l.
Proof.
  intros H. induction l as [|x l IH]; simpl; [reflexivity|].
  destruct (q x) eqn:Eq; simpl.
  - now rewrite IH.
  - destruct (p x) eqn:Ep; [|exact IH]. apply H in Ep. congruence.
Qed.

(** After [set] there is one header of that name, with the value set. *)
Lemma filter_set_in name name' value h :
  Schema.lower_string name = Schema.lower_string name' ->
  exists n, filter (Api.names name) (Api.set_in name' value h) = [(n, value)].
Proof.
  intros Hn. induction h as [|kv r IH]; cbn [Api.set_in].
  - exists name'. cbn [filter]. unfold Api.names. cbn [fst]. rewrite Hn, String.eqb_refl.
    reflexivity.
  - destruct (Api.names name' kv) eqn:E.
    + exists (fst kv). cbn [filter].
      replace (Api.names name (fst kv, value)) with true
        by (rewrite <- E; unfold Api.names; cbn [fst]; now rewrite Hn).
      f_equal. rewrite (filter_ext _ _ (fun kv' => names_same name name' kv' Hn)).
      apply filter_filter_none.
    + cbn [filter]. rewrite (names_same name name' kv Hn), E. exact IH.
Qed.

Lemma get_set_in name name' value h :
  Schema.lower_string name = Schema.lower_string name' ->
  Api.get_header name (Api.set_in name' value h) = Some value.
Proof.
  intros Hn. unfold Api.get_header.
  destruct (filter_set_in name name' value h Hn) as [n ->]. reflexivity.
Qed.

Lemma get_set_in_other name name' value h :
  Schema.lower_string name <> Schema.lower_string name' ->
  Api.get_header name (Api.set_in name' value h) = Api.get_header name h.
Proof.
  intros Hne. unfold Api.get_header.
  assert (filter (Api.names name) (Api.set_in name' value h) = filter (Api.names name) h)
    as ->; [|reflexivity].
  induction h as [|kv r IH]; cbn [Api.set_in filter].
  - unfold Api.names. cbn [fst].
    destruct (String.eqb_spec (Schema.lower_string name') (Schema.lower_string name));
      [congruence | reflexivity].
  - destruct (Api.names name' kv) eqn:E; cbn [filter].
    + rewrite (names_other name name' kv Hne E).
      replace (Api.names name (fst kv, value)) with false
        by (symmetry; apply (names_other name name'); [exact Hne | exact E]).
      apply filter_filter_all. intros x Hx.
      destruct (Api.names name' x) eqn:Ex; [|reflexivity].
      rewrite (names_other name name' x Hne Ex) in Hx. discriminate Hx.
    + now rewrite IH.
Qed.

Lemma set_content_type h :
  Api.set_header "Content-Type" "application/json" h
  = Some (Api.set_in "Content-Type" "application/json" h).
Proof. reflexivity. Qed.

(** X2. [request] gives [fetch] the content type [application/json],
    whatever headers the caller gave.  When the first cookie [csrf_token]
    has a value that is not empty, [request] sets the header [x-csrf-token]
    to that value, as [Headers.set] stores it: without the HTTP white space
    around it; and [request] fails with the [TypeError] of [set], before it
    calls [fetch], when the value holds a character beyond U+00FF, a NUL, a
    line feed or a carriage return.  With no such cookie, or an empty one,
    the header [x-csrf-token] is as the caller gave it. *)
Theorem request_headers_csrf (jar : list (string * string)) (init : Api.Headers) :
  Forall Api.plain_cookie jar ->
  match Api.first_value jar "csrf_token" with
  | Some (String c v) =>
      match Api.header_value (String c v) with
      | Some stored =>
          exists h,
            Api.request_headers (Api.document_cookie jar) init = Some h
            /\ Api.get_header "Content-Type" h = Some "application/json"
            /\ Api.get_header "X-CSRF-Token" h = Some stored
      | None => Api.request_headers (Api.document_cookie jar) init = None
      end
  | _ =>
      exists h,
        Api.request_headers (Api.document_cookie jar) init = Some h
        /\ Api.get_header "Content-Type" h = Some "application/json"
        /\ Api.get_header "X-CSRF-Token" h = Api.get_header "X-CSRF-Token" init
  end.
Proof.
  intros Hjar. unfold Api.request_headers.
  rewrite getCookie_document_cookie by (assumption || (apply not_in_existsb; reflexivity)).
  rewrite set_content_type.
  destruct (Api.first_value jar "csrf_token") as [[|c v]|].
  - eexists. split; [reflexivity|].
    split; [now apply get_set_in | now apply get_set_in_other].
  - unfold Api.set_header. change (Api.is_header_name "x-csrf-token") with true. cbv iota.
    destruct (Api.header_value (String c v)) as [stored|]; [|reflexivity].
    eexists. split; [reflexivity|]. split; [|now apply get_set_in].
    rewrite get_set_in_other by discriminate. now apply get_set_in.
  - eexists. split; [reflexivity|].
    split; [now apply get_set_in | now apply get_set_in_other].
Qed.

Lemma request_headers_csrf_witness :
  exists h,
    Api.request_headers (Api.document_cookie [("sid", "1"); ("csrf_token", " tok")])
                        [("content-type", "text/plain"); ("Accept", "image/png");
                         ("Content-Type", "text/html")]
    = Some h
    /\ Api.get_header "Content-Type" h = Some "application/json"
    /\ Api.get_header "X-CSRF-Token" h = Some "tok".
Proof.
  exact (request_headers_csrf
           [("sid", "1"); ("csrf_token", " tok")]
           [("content-type", "text/plain"); ("Accept", "image/png"); ("Content-Type", "text/html")]
           ltac:(repeat constructor; try (apply not_in_existsb; reflexivity); reflexivity)).
Defined.

(** A token with a character beyond U+00FF, here U+0142, makes [set] throw;
    a header given twice is read as one, and set as one. *)
Example request_headers_examples :
  Api.request_headers
    (Api.document_cookie [("csrf_token", String (byte 197) (String (byte 130) "x"))]) []
  = None
  /\ Api.get_header "accept" [("Accept", "text/html"); ("accept", "image/png")]
     = Some "text/html, image/png"
  /\ Api.request_headers "csrf_token=a=b; csrf_token=old"
                         [("X-Csrf-Token", "one"); ("x-csrf-token", "two")]
     = Some [("X-Csrf-Token", "a=b"); ("Content-Type", "application/json")].
Proof. vm_compute. repeat split. Qed.

(** X3. [request] throws an [Error] exactly when the status is outside
    200..299; the message is the body of the response, or [HTTP] and the
    status when the body is empty, so it is never empty.  Status 204 gives
    [undefined] without reading the body; any other status from 200 to 299
    gives the parsed body, and fails when the body is not JSON. *)
Theorem request_settles (res : Api.Response) :
  (Api.ok res = false <-> exists m, Api.request res = Api.Thrown m)
  /\ (forall m, Api.request res = Api.Thrown m ->
                m <> ""
                /\ (Api.text res <> "" -> m = Api.text res)
                /\ (Api.text res = "" ->
                    m = ("HTTP " ++ JsString.of_Z (Api.status res))%string))
  /\ (Api.status res = 204%Z -> Api.request res = Api.Undefined)
  /\ (Api.ok res = true -> Api.status res <> 204%Z ->
      Api.request res = match JSON_parse (Api.text res) with
                        | inl v => Api.Json v
                        | inr _ => Api.BadJson
                        end).
Proof.
  unfold Api.request. repeat split.
  - intros ->. simpl. eauto.
  - intros [m H]. destruct (Api.ok res); [|reflexivity]. simpl in H.
    destruct (Api.status res =? 204)%Z; [discriminate|].
    destruct (JSON_parse (Api.text res)); discriminate.
  - destruct (Api.ok res); simpl in H.
    + destruct (Api.status res =? 204)%Z; [discriminate|].
      destruct (JSON_parse (Api.text res)); discriminate.
    + injection H as <-. destruct (Api.text res); simpl; discriminate.
  - intros Hne. destruct (Api.ok res); simpl in H.
    + destruct (Api.status res =? 204)%Z; [discriminate|].
      destruct (JSON_parse (Api.text res)); discriminate.
    + injection H as <-. destruct (Api.text res); [congruence | reflexivity].
  - intros He. destruct (Api.ok res); simpl in H.
    + destruct (Api.status res =? 204)%Z; [discriminate|].
      destruct (JSON_parse (Api.text res)); discriminate.
    + injection H as <-. now rewrite He.
  - intros H. unfold Api.ok. rewrite H. reflexivity.
  - intros Hok Hst. rewrite Hok. simpl.
    destruct (Z.eqb_spec (Api.status res) 204); [congruence | reflexivity].
Qed.

Lemma request_settles_witness :
  Api.request {| Api.status := 409; Api.text := "" |} = Api.Thrown "HTTP 409"
  /\ Api.request {| Api.status := 204; Api.text := "" |} = Api.Undefined
  /\ Api.request {| Api.status := 201; Api.text := wire "{'quizId':3}" |}
     = Api.Json (JObject [("quizId", JNumber "3")]).
Proof.
  split; [|split].
  - destruct (proj1 (request_settles {| Api.status := 409; Api.text := "" |})) as [H _].
    destruct (H eq_refl) as [m Hm]. rewrite Hm. f_equal.
    apply (proj1 (proj2 (request_settles {| Api.status := 409; Api.text := "" |})) m Hm).
    reflexivity.
  - apply (request_settles {| Api.status := 204; Api.text := "" |}). reflexivity.
  - rewrite (proj2 (proj2 (proj2 (request_settles
                {| Api.status := 201; Api.text := wire "{'quizId':3}" |}))));
      [vm_compute; reflexivity | reflexivity | discriminate].
Defined.

(** ** The dashboard's choice of a mode *)

(** X4. [startSession] asks for the mode chosen last for that quiz, and for
    [classic] when none was chosen; what was chosen for other quizzes does
    not matter. *)
Theorem startSession_uses_choice (p : DashboardPage.ModeByQuiz) (quizId : Z)
        (m : DashboardPage.GameMode) :
  DashboardPage.requested_mode (DashboardPage.startSession (DashboardPage.choose quizId m p) quizId)
  = Some (DashboardPage.mode_string m)
  /\ (forall other m',
         other <> quizId ->
         DashboardPage.startSession (DashboardPage.choose other m' p) quizId
         = DashboardPage.startSession p quizId)
  /\ (DashboardPage.lookup p quizId = None ->
      DashboardPage.requested_mode (DashboardPage.startSession p quizId) = Some "classic").
Proof.
  unfold DashboardPage.startSession, DashboardPage.choose. simpl. rewrite Z.eqb_refl.
  split; [|split].
  - destruct m; reflexivity.
  - intros other m' Hne. destruct (Z.eqb_spec other quizId); [congruence | reflexivity].
  - intros ->. reflexivity.
Qed.

Lemma startSession_uses_choice_witness :
  DashboardPage.startSession
    (DashboardPage.choose 8 DashboardPage.shooter [(7%Z, DashboardPage.platformer)]) 7
  = DashboardPage.startSession [(7%Z, DashboardPage.platformer)] 7
  /\ DashboardPage.requested_mode (DashboardPage.startSession [(7%Z, DashboardPage.platformer)] 9)
     = Some "classic".
Proof.
  split.
  - apply (startSession_uses_choice [(7%Z, DashboardPage.platformer)] 7 DashboardPage.classic).
    discriminate.
  - apply (startSession_uses_choice [(7%Z, DashboardPage.platformer)] 9 DashboardPage.classic).
    reflexivity.
Defined.

(** ** Trimming *)

Section Strip.
Variable w1 : ascii -> bool.
Variable w2 : ascii -> ascii -> bool.
Variable w3 : ascii -> ascii -> ascii -> bool.

Lemma strip_fixed s :
  JsString.starts_white w1 w2 w3 s = false -> JsString.strip w1 w2 w3 s = s.
Proof.
  destruct s as [|a [|b [|c r]]]; cbn [JsString.starts_white JsString.strip]; intros H;
    repeat match goal with
           | |- context [if ?t then _ else _] => destruct t; cbn [orb] in H; try discriminate H
           end; reflexivity.
Qed.

(** White space at the head of a text is at the head of any text that
    starts with it. *)
Lemma starts_white_prefix p q :
  JsString.starts_white w1 w2 w3 (p ++ q) = false ->
  JsString.starts_white w1 w2 w3 p = false.
Proof.
  destruct p as [|a [|b [|c r]]]; cbn [JsString.starts_white app]; intros H;
    try reflexivity.
  - destruct (w1 a); [discriminate H | reflexivity].
  - destruct (w1 a); [discriminate H|]. cbn [orb] in *.
    destruct (w2 a b); [|reflexivity]. destruct q; discriminate H.
  - exact H.
Qed.

Lemma strip_bounded n : forall s,
  (length s <= n)%nat ->
  JsString.starts_white w1 w2 w3 (JsString.strip w1 w2 w3 s) = false
  /\ exists pre, s = pre ++ JsString.strip w1 w2 w3 s.
Proof.
  induction n as [|n IH]; intros s Hn.
  - destruct s; [|simpl in Hn; lia]. split; [reflexivity | exists []; reflexivity].
  - destruct s as [|a r]; [split; [reflexivity | exists []; reflexivity]|].
    cbn [length] in Hn. cbn [JsString.strip].
    destruct (w1 a) eqn:E1.
    { destruct (IH r ltac:(lia)) as [H [pre Hp]]. split; [exact H|].
      exists (a :: pre). cbn [app]. now rewrite <- Hp. }
    destruct r as [|b r'].
    { split; [cbn; now rewrite E1 | exists []; reflexivity]. }
    cbn [length] in Hn. destruct (w2 a b) eqn:E2.
    { destruct (IH r' ltac:(lia)) as [H [pre Hp]]. split; [exact H|].
      exists (a :: b :: pre). cbn [app]. now rewrite <- Hp. }
    destruct r' as [|c r''].
    { split; [cbn; now rewrite E1, E2 | exists []; reflexivity]. }
    cbn [length] in Hn. destruct (w3 a b c) eqn:E3.
    { destruct (IH r'' ltac:(lia)) as [H [pre Hp]]. split; [exact H|].
      exists (a :: b :: c :: pre). cbn [app]. now rewrite <- Hp. }
    split; [cbn; now rewrite E1, E2, E3 | exists []; reflexivity].
Qed.

Lemma strip_clean s :
  JsString.starts_white w1 w2 w3 (JsString.strip w1 w2 w3 s) = false.
Proof. apply (strip_bounded (length s)). lia. Qed.

Lemma strip_suffix s : exists pre, s = pre ++ JsString.strip w1 w2 w3 s.
Proof. apply (strip_bounded (length s)). lia. Qed.

Lemma strip_idempotent s :
  JsString.strip w1 w2 w3 (JsString.strip w1 w2 w3 s) = JsString.strip w1 w2 w3 s.
Proof. apply strip_fixed, strip_clean. Qed.
End Strip.

Lemma trim_bytes_idempotent s :
  JsString.trim_bytes (JsString.trim_bytes s) = JsString.trim_bytes s.
Proof.
  unfold JsString.trim_bytes at 1 2. unfold JsString.trimStart_bytes, JsString.strip_reversed.
  set (x := JsString.strip JsString.white1 JsString.white2 JsString.white3 s).
  set (back2 := fun b a => JsString.white2 a b).
  set (back3 := fun c b a => JsString.white3 a b c).
  set (y := JsString.strip JsString.white1 back2 back3 (rev x)).
  assert (JsString.strip JsString.white1 JsString.white2 JsString.white3 (rev y) = rev y) as ->.
  { apply strip_fixed.
    destruct (strip_suffix JsString.white1 back2 back3 (rev x)) as [pre Hp]. fold y in Hp.
    apply (starts_white_prefix _ _ _ (rev y) (rev pre)).
    rewrite <- rev_app_distr, <- Hp, rev_involutive. apply strip_clean. }
  rewrite rev_involutive. unfold y at 1. rewrite strip_idempotent.
  unfold JsString.trim_bytes, JsString.trimStart_bytes, JsString.strip_reversed. reflexivity.
Qed.

Lemma trim_idempotent s : JsString.trim (JsString.trim s) = JsString.trim s.
Proof.
  unfold JsString.trim. now rewrite list_ascii_of_string_of_list_ascii, trim_bytes_idempotent.
Qed.

(** [trim] removes the white space beyond ASCII as well: no-break spaces,
    ideographic spaces, the byte order mark. *)
Example trim_examples :
  JsString.trim "  ann " = "ann"
  /\ JsString.trim (String (byte 194) (String (byte 160) "a")) = "a"
  /\ JsString.trim (String (byte 227) (String (byte 128) (String (byte 128) ""))) = ""
  /\ JsString.trim ("a b" ++ String (byte 239) (String (byte 187) (String (byte 191) "")))
     = "a b"
  /\ JsString.trim (String (byte 194) (String (byte 133) "a"))
     = String (byte 194) (String (byte 133) "a").
Proof. vm_compute. repeat split. Qed.

(** ** Signing in and joining *)

(** X5. Whatever the form holds and however the server answers, the sign-in
    page calls the API only with the trimmed login, of at least 3 code
    units, and with the password as typed, of at least 8; in [register]
    mode it logs in only after the registration succeeded; and it goes to
    the dashboard exactly when no check failed and the login call
    resolved. *)
Theorem onSubmit_validates (mode : AuthPage.Mode) (user password : string)
        (rejects : AuthPage.Call -> option string) :
  let o := AuthPage.onSubmit mode user password rejects in
  (forall c, In c (AuthPage.calls o) ->
             AuthPage.user_of c = JsString.trim user
             /\ AuthPage.password_of c = password
             /\ (3 <= Text.length16 (JsString.trim user))%nat
             /\ (8 <= Text.length16 password)%nat)
  /\ (forall u p, In (AuthPage.Login u p) (AuthPage.calls o) ->
                  mode = AuthPage.register ->
                  rejects (AuthPage.Register u p) = None
                  /\ exists u' p', AuthPage.calls o = [AuthPage.Register u' p'; AuthPage.Login u p])
  /\ (AuthPage.navigated o = Some "/teacher/dashboard"
      <-> (3 <= Text.length16 (JsString.trim user))%nat
          /\ (8 <= Text.length16 password)%nat
          /\ (mode = AuthPage.register ->
              rejects (AuthPage.Register (JsString.trim user) password) = None)
          /\ rejects (AuthPage.Login (JsString.trim user) password) = None).
Proof.
  unfold AuthPage.onSubmit.
  destruct (Nat.ltb_spec (Text.length16 (JsString.trim user)) 3) as [H3|H3].
  { cbn -[Text.length16 JsString.trim]. split; [|split; [|split]].
    - intros c [].
    - intros u p [].
    - discriminate.
    - intros [? _]. lia. }
  destruct (Nat.ltb_spec (Text.length16 password) 8) as [H8|H8].
  { cbn -[Text.length16 JsString.trim]. split; [|split; [|split]].
    - intros c [].
    - intros u p [].
    - discriminate.
    - intros [_ [? _]]. lia. }
  destruct mode.
  - destruct (rejects (AuthPage.Login (JsString.trim user) password)) eqn:El;
      cbn -[Text.length16 JsString.trim]; (split; [|split; [|split]]).
    + intros c [<-|[]]. cbn. auto.
    + intros u p _ E. discriminate E.
    + discriminate.
    + intros [_ [_ [_ H]]]. discriminate H.
    + intros c [<-|[]]. cbn. auto.
    + intros u p _ E. discriminate E.
    + intros _. repeat split; auto. discriminate.
    + reflexivity.
  - destruct (rejects (AuthPage.Register (JsString.trim user) password)) eqn:Er.
    + cbn -[Text.length16 JsString.trim]. split; [|split; [|split]].
      * intros c [<-|[]]. cbn. auto.
      * intros u p [E|[]]. discriminate E.
      * discriminate.
      * intros [_ [_ [H _]]]. specialize (H eq_refl). discriminate H.
    + destruct (rejects (AuthPage.Login (JsString.trim user) password)) eqn:El;
        cbn -[Text.length16 JsString.trim]; (split; [|split; [|split]]).
      * intros c [<-|[<-|[]]]; cbn; auto.
      * intros u p [E|[E|[]]] _; [discriminate E|]. injection E as <- <-. eauto.
      * discriminate.
      * intros [_ [_ [_ H]]]. discriminate H.
      * intros c [<-|[<-|[]]]; cbn; auto.
      * intros u p [E|[E|[]]] _; [discriminate E|]. injection E as <- <-. eauto.
      * intros _. repeat split; auto.
      * reflexivity.
Qed.

Lemma onSubmit_validates_witness :
  AuthPage.user_of (AuthPage.Login "ann" "12345678") = JsString.trim "  ann "
  /\ AuthPage.navigated (AuthPage.onSubmit AuthPage.register "  ann " "12345678" (fun _ => None))
     = Some "/teacher/dashboard".
Proof.
  split.
  - apply (proj1 (onSubmit_validates AuthPage.register "  ann " "12345678" (fun _ => None))).
    right. left. reflexivity.
  - apply (proj2 (proj2 (onSubmit_validates AuthPage.register "  ann " "12345678"
                                           (fun _ => None)))).
    repeat split; vm_compute; intros; lia || reflexivity.
Defined.

Example onSubmit_examples :
  AuthPage.calls (AuthPage.onSubmit AuthPage.register "  ann  " "12345678" (fun _ => None))
  = [AuthPage.Register "ann" "12345678"; AuthPage.Login "ann" "12345678"]
  /\ AuthPage.calls (AuthPage.onSubmit AuthPage.register "  an  " "12345678" (fun _ => None)) = []
  /\ AuthPage.calls (AuthPage.onSubmit AuthPage.login "ann" "1234567" (fun _ => None)) = []
  /\ AuthPage.onSubmit AuthPage.register "ann" "12345678" (fun _ => Some "Error: taken")
     = {| AuthPage.calls := [AuthPage.Register "ann" "12345678"];
          AuthPage.error := "Error: taken"; AuthPage.navigated := None |}.
Proof. vm_compute. repeat split. Qed.

(** X6. The join form lets a student through exactly when the trimmed room
    code has at least 3 code units and the trimmed nickname at least 2; it
    then stores the trimmed nickname, and the waiting page sends [join_room]
    with that nickname on an open socket.  With no stored nickname the
    waiting page does not connect. *)
Theorem join_then_connect (toUpperCase : string -> string) (room nickname : string) :
  (JoinPage.join toUpperCase room nickname = None
   <-> (Text.length16 (JsString.trim room) < 3)%nat
       \/ (Text.length16 (JsString.trim nickname) < 2)%nat)
  /\ (forall stored path,
         JoinPage.join toUpperCase room nickname = Some (stored, path) ->
         stored = JsString.trim nickname
         /\ JsString.trim stored = stored
         /\ (2 <= Text.length16 stored)%nat
         /\ path = ("/wait/" ++ toUpperCase (JsString.trim room))%string
         /\ forall roomCode before,
              roomCode <> "" ->
              StudentWaitPage.connect (Some roomCode) (Some stored)
                {| readyState := OPEN; sent := before |}
              = Some {| readyState := OPEN;
                        sent := before
                                ++ [JSON_stringify
                                      (JObject [("event", JString "join_room");
                                                ("payload",
                                                 JObject [("role", JString "student");
                                                          ("nickname", JString stored)])])] |})
  /\ (forall roomCode ws, StudentWaitPage.connect roomCode None ws = None).
Proof.
  unfold JoinPage.join. split; [|split].
  - destruct (Nat.ltb_spec (Text.length16 (JsString.trim room)) 3) as [H3|H3];
      destruct (Nat.ltb_spec (Text.length16 (JsString.trim nickname)) 2) as [H2|H2];
      cbn [orb]; split; intros H; auto; try discriminate H; lia.
  - intros stored path.
    destruct (Nat.ltb_spec (Text.length16 (JsString.trim room)) 3) as [H3|H3];
      destruct (Nat.ltb_spec (Text.length16 (JsString.trim nickname)) 2) as [H2|H2];
      cbn [orb]; intros E; try discriminate E.
    injection E as <- <-. repeat split; auto using trim_idempotent.
    intros roomCode before Hr. unfold StudentWaitPage.connect.
    destruct roomCode as [|c r]; [congruence|].
    destruct (JsString.trim nickname) as [|c' n] eqn:En; [cbn in H2; lia|].
    reflexivity.
  - intros [r|] ws; reflexivity.
Qed.

(** White space beyond ASCII does not count either: a login of two no-break
    spaces and a letter is too short, and so is a nickname of two
    ideographic spaces. *)
Example trimmed_before_counting :
  let nbsp := fun s => String (byte 194) (String (byte 160) s) in
  let wide := fun s => String (byte 227) (String (byte 128) (String (byte 128) s)) in
  AuthPage.calls (AuthPage.onSubmit AuthPage.login (nbsp (nbsp "a")) "12345678" (fun _ => None))
  = []
  /\ JoinPage.join Schema.lower_string "abcdef" (wide (wide "")) = None
  /\ JoinPage.join Schema.lower_string "abcdef" (wide ("bob" ++ nbsp "")%string)
     = Some ("bob", "/wait/abcdef").
Proof. vm_compute. repeat split. Qed.

Lemma join_then_connect_witness :
  JoinPage.join Schema.lower_string " abcdef " "  bob " = Some ("bob", "/wait/abcdef")
  /\ JoinPage.join Schema.lower_string "abcdef" " b " = None.
Proof.
  split.
  - reflexivity.
  - apply (proj1 (join_then_connect Schema.lower_string "abcdef" " b ")).
    right. vm_compute. lia.
Defined.


(** ** The payload of the quiz builder *)

Lemma of_nat_inj n m : JsString.of_nat n = JsString.of_nat m -> n = m.
Proof.
  unfold JsString.of_nat. intros H.
  assert (forall k, Nat.to_uint k <> Decimal.Nil) as Hnn.
  { intros k E. pose proof (DecimalNat.Unsigned.to_of (Nat.to_uint k)) as T.
    rewrite DecimalNat.Unsigned.of_to in T. rewrite T in E.
    now apply DecimalFacts.unorm_nonnil in E. }
  apply (f_equal NilZero.uint_of_string) in H.
  rewrite !NilZero.usu in H by apply Hnn.
  injection H as H. now apply DecimalNat.Unsigned.to_uint_inj.
Qed.

Lemma option_id_inj i j : QuizEditor.option_id i = QuizEditor.option_id j -> i = j.
Proof.
  unfold QuizEditor.option_id. intros [= H]. apply of_nat_inj in H. lia.
Qed.

Lemma mapi_from_length {A B} (f : A -> nat -> B) l : forall i,
  length (JsString.mapi_from i f l) = length l.
Proof. induction l as [|x r IH]; intros i; simpl; [reflexivity | now rewrite IH]. Qed.

Lemma mapi_from_nth {A B} (f : A -> nat -> B) l : forall i k,
  nth_error (JsString.mapi_from i f l) k
  = match nth_error l k with Some x => Some (f x (i + k)) | None => None end.
Proof.
  induction l as [|x r IH]; intros i [|k]; simpl; try reflexivity.
  - now rewrite Nat.add_0_r.
  - rewrite IH. now rewrite Nat.add_succ_r.
Qed.

Lemma mapi_from_map {A B C} (g : B -> C) (f : A -> nat -> B) l : forall i,
  map g (JsString.mapi_from i f l) = JsString.mapi_from i (fun x k => g (f x k)) l.
Proof. induction l as [|x r IH]; intros i; simpl; [reflexivity | now rewrite IH]. Qed.

Lemma mapi_from_indices {A B} (h : nat -> B) (l : list A) : forall i,
  JsString.mapi_from i (fun _ k => h k) l = map h (seq i (length l)).
Proof. induction l as [|x r IH]; intros i; simpl; [reflexivity | now rewrite IH]. Qed.

Lemma mapi_from_values {A B} (h : A -> B) (l : list A) : forall i,
  JsString.mapi_from i (fun x _ => h x) l = map h l.
Proof. induction l as [|x r IH]; intros i; simpl; [reflexivity | now rewrite IH]. Qed.

Lemma payload_option_ids texts :
  map o_id (NewQuizPage.payload_options texts)
  = map QuizEditor.option_id (seq 0 (length texts)).
Proof.
  unfold NewQuizPage.payload_options, JsString.mapi. rewrite mapi_from_map. simpl.
  apply (mapi_from_indices QuizEditor.option_id).
Qed.

Lemma payload_option_texts texts :
  map o_text (NewQuizPage.payload_options texts) = map JsString.trim texts.
Proof.
  unfold NewQuizPage.payload_options, JsString.mapi. rewrite mapi_from_map. simpl.
  apply mapi_from_values.
Qed.

Lemma payload_options_length texts :
  length (NewQuizPage.payload_options texts) = length texts.
Proof. apply mapi_from_length. Qed.

Lemma payload_options_nth texts k :
  nth_error (NewQuizPage.payload_options texts) k
  = match nth_error texts k with
    | Some t => Some {| o_id := QuizEditor.option_id k; o_text := JsString.trim t |}
    | None => None
    end.
Proof. unfold NewQuizPage.payload_options, JsString.mapi. now rewrite mapi_from_nth. Qed.

Lemma NoDup_map_injective {A B} (f : A -> B) (l : list A) :
  (forall a b, f a = f b -> a = b) -> NoDup l -> NoDup (map f l).
Proof.
  intros Hf H. induction H as [|x l Hx H IH]; simpl; constructor; [|exact IH].
  intros Hin. apply in_map_iff in Hin. destruct Hin as [y [E Hy]].
  apply Hf in E. now subst.
Qed.

Lemma option_ids_NoDup n i : NoDup (map QuizEditor.option_id (seq i n)).
Proof.
  apply NoDup_map_injective; [apply option_id_inj | apply seq_NoDup].
Qed.

(** X7. The options of a choice question in the payload are those of the
    draft, in order: as many, with the ids [o1], [o2], ... by position, all
    different, and with the texts of the draft trimmed. *)
Theorem payload_options_numbered (q : NewQuizPage.DraftQuestion) :
  NewQuizPage.type q <> Open ->
  exists opts,
    q_options (NewQuizPage.toQuestion q) = Some opts
    /\ length opts = length (NewQuizPage.options q)
    /\ map o_id opts = map QuizEditor.option_id (seq 0 (length (NewQuizPage.options q)))
    /\ NoDup (map o_id opts)
    /\ map o_text opts = map JsString.trim (NewQuizPage.options q)
    /\ Forall (fun o => JsString.trim (o_text o) = o_text o) opts.
Proof.
  intros Ht. exists (NewQuizPage.payload_options (NewQuizPage.options q)).
  split.
  { unfold NewQuizPage.toQuestion.
    destruct (NewQuizPage.type q); [congruence | reflexivity..]. }
  split; [apply payload_options_length|].
  split; [apply payload_option_ids|].
  split; [rewrite payload_option_ids; apply option_ids_NoDup|].
  split; [apply payload_option_texts|].
  apply Forall_forall. intros o Ho. apply In_nth_error in Ho. destruct Ho as [k Hk].
  rewrite payload_options_nth in Hk. destruct (nth_error _ k); [|discriminate].
  injection Hk as <-. simpl. apply trim_idempotent.
Qed.

Lemma payload_options_numbered_witness :
  exists opts,
    q_options (NewQuizPage.toQuestion (NewQuizPage.createDraftQuestion 17 Multi 1)) = Some opts
    /\ length opts = 2%nat
    /\ map o_id opts = map QuizEditor.option_id [0; 1]%nat.
Proof.
  destruct (payload_options_numbered (NewQuizPage.createDraftQuestion 17 Multi 1))
    as [opts [H1 [H2 [H3 _]]]]; [discriminate|].
  exists opts. split; [exact H1 | split; [exact H2 | exact H3]].
Defined.

Lemma id_at_nth texts k :
  (k < length texts)%nat ->
  NewQuizPage.id_at_or_o1 (NewQuizPage.payload_options texts) k = QuizEditor.option_id k.
Proof.
  intros H. unfold NewQuizPage.id_at_or_o1. rewrite payload_options_nth.
  destruct (nth_error texts k) eqn:E; [reflexivity|].
  apply nth_error_None in E. lia.
Qed.

(** X8. The key of a single question in the payload is the id of the option
    at the position [singleCorrect], brought into the range of the options;
    it is an option of the question as soon as there is one, and [o1] when
    there is none. *)
Theorem single_key_is_an_option (q : NewQuizPage.DraftQuestion) :
  NewQuizPage.type q = Single ->
  let n := length (NewQuizPage.options q) in
  let i := Z.to_nat (Z.max 0 (Z.min (NewQuizPage.singleCorrect q) (Z.of_nat n - 1))) in
  (n = 0%nat -> q_answer (NewQuizPage.toQuestion q) = KOptionId "o1")
  /\ (n <> 0%nat ->
      q_answer (NewQuizPage.toQuestion q) = KOptionId (QuizEditor.option_id i)
      /\ (i < n)%nat
      /\ In (QuizEditor.option_id i)
            (map o_id (options_or_empty (NewQuizPage.toQuestion q))))
  /\ ((0 <= NewQuizPage.singleCorrect q < Z.of_nat n)%Z ->
      i = Z.to_nat (NewQuizPage.singleCorrect q)).
Proof.
  intros Ht n i. unfold NewQuizPage.toQuestion, options_or_empty. rewrite Ht. simpl.
  rewrite payload_options_length. fold n. fold i.
  split; [|split].
  - intros Hn. unfold NewQuizPage.id_at_or_o1. rewrite payload_options_nth.
    destruct (NewQuizPage.options q); [|discriminate Hn]. now destruct i.
  - intros Hn. assert (i < n)%nat as Hi by lia.
    split; [now rewrite id_at_nth|]. split; [assumption|].
    rewrite payload_option_ids. apply in_map, in_seq. lia.
  - intros H. unfold i. f_equal. lia.
Qed.

Lemma single_key_is_an_option_witness :
  q_answer (NewQuizPage.toQuestion
              {| NewQuizPage.id := "q1"; NewQuizPage.type := Single; NewQuizPage.prompt := "p";
                 NewQuizPage.options := ["a"; "b"; "c"]; NewQuizPage.openAnswer := "";
                 NewQuizPage.singleCorrect := 7; NewQuizPage.multiCorrect := [] |})
  = KOptionId (QuizEditor.option_id 2).
Proof.
  apply (single_key_is_an_option
           {| NewQuizPage.id := "q1"; NewQuizPage.type := Single; NewQuizPage.prompt := "p";
              NewQuizPage.options := ["a"; "b"; "c"]; NewQuizPage.openAnswer := "";
              NewQuizPage.singleCorrect := 7; NewQuizPage.multiCorrect := [] |} eq_refl).
  discriminate.
Defined.

Lemma selected_ids_from (p : nat -> bool) texts : forall i,
  map o_id
      (JsString.filteri_from i (fun _ idx => p idx)
         (JsString.mapi_from i
            (fun text index =>
               {| o_id := QuizEditor.option_id index; o_text := JsString.trim text |}) texts))
  = map QuizEditor.option_id (filter p (seq i (length texts))).
Proof.
  induction texts as [|t r IH]; intros i; simpl; [reflexivity|].
  destruct (p i); simpl; now rewrite IH.
Qed.

(** The positions ticked in a draft. *)
Lemma selected_ids_ticked q texts :
  NewQuizPage.selected_ids q (NewQuizPage.payload_options texts)
  = map QuizEditor.option_id
        (filter (fun k => nth k (NewQuizPage.multiCorrect q) false)
                (seq 0 (length texts))).
Proof. apply (selected_ids_from (fun k => nth k (NewQuizPage.multiCorrect q) false)). Qed.

(** X9. The key of a multi question in the payload has no id twice and is
    never empty.  When the draft has a ticked option the key holds exactly
    the ids of the ticked options; when nothing is ticked it is [o1], the
    first option, without the teacher having chosen it; and it holds only
    options of the question as soon as there is one. *)
Theorem multi_key_is_the_ticked (q : NewQuizPage.DraftQuestion) :
  NewQuizPage.type q = Multi ->
  let n := length (NewQuizPage.options q) in
  let ticked k := (k <? n)%nat && nth k (NewQuizPage.multiCorrect q) false in
  exists keys,
    q_answer (NewQuizPage.toQuestion q) = KOptionIds keys
    /\ keys <> []
    /\ NoDup keys
    /\ ((exists k, ticked k = true) ->
        forall k, In (QuizEditor.option_id k) keys <-> ticked k = true)
    /\ ((forall k, ticked k = false) -> keys = ["o1"])
    /\ (n <> 0%nat -> incl keys (map o_id (options_or_empty (NewQuizPage.toQuestion q)))).
Proof.
  intros Ht n ticked. unfold NewQuizPage.toQuestion, options_or_empty. rewrite Ht. simpl.
  rewrite selected_ids_ticked, payload_option_ids. fold n.
  set (sel := filter (fun k => nth k (NewQuizPage.multiCorrect q) false) (seq 0 n)).
  assert (forall k, In k sel <-> ticked k = true) as Hsel.
  { intros k. unfold sel, ticked. rewrite filter_In, in_seq, andb_true_iff, Nat.ltb_lt.
    intuition lia. }
  assert (NewQuizPage.id_at_or_o1 (NewQuizPage.payload_options (NewQuizPage.options q)) 0
          = "o1") as Ho1.
  { unfold NewQuizPage.id_at_or_o1. rewrite payload_options_nth.
    now destruct (NewQuizPage.options q). }
  destruct sel as [|k0 sel'] eqn:Es.
  - simpl. rewrite Ho1. exists ["o1"].
    split; [reflexivity|]. split; [discriminate|].
    split; [|split; [|split]].
    + repeat constructor. intros [].
    + intros [k Hk]. apply Hsel in Hk. destruct Hk.
    + reflexivity.
    + intros Hn x [<-|[]]. change "o1" with (QuizEditor.option_id 0).
      apply in_map, in_seq. lia.
  - exists (map QuizEditor.option_id (k0 :: sel')). rewrite <- Es in *.
    assert (exists k1 r, map QuizEditor.option_id sel = k1 :: r) as [k1 [r E1]]
        by (rewrite Es; simpl; eauto).
    split; [now rewrite E1|]. split; [rewrite E1; discriminate|].
    split; [|split; [|split]].
    + apply NoDup_map_injective; [apply option_id_inj|].
      unfold sel. apply NoDup_filter, seq_NoDup.
    + intros _ k. rewrite <- Hsel. split.
      * intros H. apply in_map_iff in H. destruct H as [k' [E H]].
        apply option_id_inj in E. now subst.
      * apply in_map.
    + intros H. specialize (H k0).
      assert (In k0 sel) as Hin by (rewrite Es; now left).
      apply Hsel in Hin. congruence.
    + intros _ x Hx. apply in_map_iff in Hx. destruct Hx as [k [<- Hk]].
      apply in_map. unfold sel in Hk. apply filter_In in Hk. tauto.
Qed.

Lemma multi_key_is_the_ticked_witness :
  exists keys,
    q_answer (NewQuizPage.toQuestion
                {| NewQuizPage.id := "q1"; NewQuizPage.type := Multi; NewQuizPage.prompt := "p";
                   NewQuizPage.options := ["a"; "b"; "c"]; NewQuizPage.openAnswer := "";
                   NewQuizPage.singleCorrect := 0;
                   NewQuizPage.multiCorrect := [false; true; true; true] |})
    = KOptionIds keys
    /\ (In (QuizEditor.option_id 2) keys <-> true = true)
    /\ incl keys (map o_id [{| o_id := "o1"; o_text := "a" |}; {| o_id := "o2"; o_text := "b" |};
                            {| o_id := "o3"; o_text := "c" |}]).
Proof.
  destruct (multi_key_is_the_ticked
              {| NewQuizPage.id := "q1"; NewQuizPage.type := Multi; NewQuizPage.prompt := "p";
                 NewQuizPage.options := ["a"; "b"; "c"]; NewQuizPage.openAnswer := "";
                 NewQuizPage.singleCorrect := 0;
                 NewQuizPage.multiCorrect := [false; true; true; true] |} eq_refl)
    as [keys [E [_ [_ [H1 [_ H2]]]]]].
  exists keys. split; [exact E | split].
  - apply (H1 (ex_intro _ 1%nat eq_refl) 2%nat).
  - apply H2. discriminate.
Defined.

Lemma payload_options_trimmed texts :
  NewQuizPage.payload_options (map JsString.trim texts) = NewQuizPage.payload_options texts.
Proof.
  apply nth_error_ext. intros k. rewrite !payload_options_nth, nth_error_map.
  destruct (nth_error texts k); simpl; [now rewrite trim_idempotent | reflexivity].
Qed.

Lemma findIndex_from_first {A} (p : A -> bool) l : forall i k x,
  nth_error l k = Some x -> p x = true ->
  (forall j y, (j < k)%nat -> nth_error l j = Some y -> p y = false) ->
  QuizEditor.findIndex_from i p l = (i + Z.of_nat k)%Z.
Proof.
  induction l as [|a r IH]; intros i k x Hk Hp Hb; [now destruct k|].
  destruct k as [|k]; simpl in *.
  - injection Hk as ->. rewrite Hp. lia.
  - rewrite (Hb 0%nat a (Nat.lt_0_succ k) eq_refl).
    rewrite (IH (i + 1)%Z k x Hk Hp); [lia|].
    intros j y Hj Hy. apply (Hb (S j)); [lia | exact Hy].
Qed.

Lemma findIndex_option_id texts k :
  (k < length texts)%nat ->
  QuizEditor.findIndex (fun o => String.eqb (o_id o) (QuizEditor.option_id k))
                       (NewQuizPage.payload_options texts) = Z.of_nat k.
Proof.
  intros Hk. unfold QuizEditor.findIndex.
  destruct (nth_error texts k) as [t|] eqn:Et; [|apply nth_error_None in Et; lia].
  rewrite (findIndex_from_first _ _ 0 k
             {| o_id := QuizEditor.option_id k; o_text := JsString.trim t |}).
  - reflexivity.
  - now rewrite payload_options_nth, Et.
  - apply String.eqb_refl.
  - intros j y Hj Hy. rewrite payload_options_nth in Hy.
    destruct (nth_error texts j); [|discriminate]. injection Hy as <-. simpl.
    apply String.eqb_neq. intros E. apply of_nat_inj in E. lia.
Qed.

Lemma id_at_nil k : NewQuizPage.id_at_or_o1 [] k = "o1".
Proof. now destruct k. Qed.

Lemma toQuestion_open_again q :
  NewQuizPage.type q = Open ->
  NewQuizPage.toQuestion (QuizEditor.applyQuestion (NewQuizPage.toQuestion q))
  = NewQuizPage.toQuestion q.
Proof.
  intros Ht. unfold NewQuizPage.toQuestion. rewrite Ht. cbn -[JsString.trim].
  now rewrite !trim_idempotent.
Qed.

Lemma toQuestion_single_again q :
  NewQuizPage.type q = Single ->
  NewQuizPage.toQuestion (QuizEditor.applyQuestion (NewQuizPage.toQuestion q))
  = NewQuizPage.toQuestion q.
Proof.
  intros Ht. unfold NewQuizPage.toQuestion at 2 3. rewrite Ht.
  set (opts := NewQuizPage.payload_options (NewQuizPage.options q)).
  set (i := Z.to_nat (Z.max 0 (Z.min (NewQuizPage.singleCorrect q) (Z.of_nat (length opts) - 1)))).
  unfold QuizEditor.applyQuestion, options_or_empty; cbn [q_type q_answer q_options q_id q_prompt].
  unfold NewQuizPage.toQuestion;
    cbn [NewQuizPage.type NewQuizPage.id NewQuizPage.prompt NewQuizPage.options
         NewQuizPage.singleCorrect].
  assert (NewQuizPage.payload_options (map o_text opts) = opts) as Ho
      by (unfold opts; now rewrite payload_option_texts, payload_options_trimmed).
  assert (length opts = length (NewQuizPage.options q)) as Hl by apply payload_options_length.
  rewrite !Ho, trim_idempotent. f_equal. f_equal.
  destruct (Nat.eq_dec (length (NewQuizPage.options q)) 0) as [H0|H0].
  - apply length_zero_iff_nil in H0. subst i opts. rewrite H0.
    change (NewQuizPage.payload_options []) with (@nil QuizOption). now rewrite !id_at_nil.
  - assert (i < length (NewQuizPage.options q))%nat as Hi by (unfold i; rewrite Hl; lia).
    assert (NewQuizPage.id_at_or_o1 opts i = QuizEditor.option_id i) as Hid
        by apply (id_at_nth _ _ Hi).
    rewrite Hid. pose proof (findIndex_option_id _ _ Hi) as Hf. fold opts in Hf. rewrite Hf.
    replace (0 <=? Z.of_nat i)%Z with true by (symmetry; apply Z.leb_le; lia).
    replace (Z.to_nat (Z.max 0 (Z.min (Z.of_nat i) (Z.of_nat (length opts) - 1)))) with i
      by (rewrite Hl; lia).
    exact Hid.
Qed.

Lemma existsb_option_id k sel :
  existsb (String.eqb (QuizEditor.option_id k)) (map QuizEditor.option_id sel) = true
  <-> In k sel.
Proof.
  rewrite existsb_exists. split.
  - intros [x [Hx E]]. apply String.eqb_eq in E. apply in_map_iff in Hx.
    destruct Hx as [j [Ej Hj]]. rewrite <- Ej in E. apply option_id_inj in E. now subst.
  - intros H. exists (QuizEditor.option_id k). split; [now apply in_map | apply String.eqb_refl].
Qed.

(** Reading the key of a multi question back: the option at position [k]
    is ticked when its id is in the key. *)
Lemma ticked_again texts keys k :
  (k < length texts)%nat ->
  nth k (map (fun o => existsb (String.eqb (o_id o)) keys)
             (NewQuizPage.payload_options texts)) false
  = existsb (String.eqb (QuizEditor.option_id k)) keys.
Proof.
  intros Hk.
  destruct (nth_error texts k) as [t|] eqn:Et; [|apply nth_error_None in Et; lia].
  apply nth_error_nth. rewrite nth_error_map, payload_options_nth, Et. reflexivity.
Qed.

Lemma toQuestion_multi_again q :
  NewQuizPage.type q = Multi ->
  NewQuizPage.toQuestion (QuizEditor.applyQuestion (NewQuizPage.toQuestion q))
  = NewQuizPage.toQuestion q.
Proof.
  intros Ht. unfold NewQuizPage.toQuestion at 2 3. rewrite Ht.
  rewrite selected_ids_ticked.
  set (opts := NewQuizPage.payload_options (NewQuizPage.options q)).
  set (n := length (NewQuizPage.options q)).
  set (tick := fun k => nth k (NewQuizPage.multiCorrect q) false).
  set (sel := filter tick (seq 0 n)).
  set (keys := match map QuizEditor.option_id sel with
               | [] => [NewQuizPage.id_at_or_o1 opts 0]
               | _ => map QuizEditor.option_id sel
               end).
  unfold QuizEditor.applyQuestion, options_or_empty; cbn [q_type q_answer q_options q_id q_prompt].
  unfold NewQuizPage.toQuestion;
    cbn [NewQuizPage.type NewQuizPage.id NewQuizPage.prompt NewQuizPage.options
         NewQuizPage.multiCorrect].
  assert (NewQuizPage.payload_options (map o_text opts) = opts) as Ho
      by (unfold opts; now rewrite payload_option_texts, payload_options_trimmed).
  rewrite !Ho, trim_idempotent. f_equal. f_equal.
  match goal with |- context [NewQuizPage.selected_ids ?d opts] =>
    pose proof (selected_ids_ticked d (NewQuizPage.options q)) as Hs;
    fold opts in Hs; rewrite Hs; clear Hs
  end.
  cbn [NewQuizPage.multiCorrect].
  fold n.
  assert (filter (fun k => nth k (map (fun o => existsb (String.eqb (o_id o)) keys) opts) false)
                 (seq 0 n)
          = filter (fun k => existsb (String.eqb (QuizEditor.option_id k)) keys) (seq 0 n)) as Hf.
  { apply filter_ext_in. intros k Hk. apply in_seq in Hk. apply ticked_again. fold n. lia. }
  rewrite Hf. clear Hf.
  destruct sel as [|k0 sel'] eqn:Es.
  - simpl in keys. destruct n as [|m] eqn:En.
    + reflexivity.
    + assert (NewQuizPage.id_at_or_o1 opts 0 = QuizEditor.option_id 0) as H0
          by (apply id_at_nth; fold n; lia).
      unfold keys. rewrite H0. cbn [seq filter existsb].
      rewrite String.eqb_refl. cbn [orb].
      rewrite filter_none; [reflexivity|].
      intros k Hk. apply in_seq in Hk. cbn [existsb]. rewrite orb_false_r.
      apply String.eqb_neq. intros E. apply option_id_inj in E. lia.
  - assert (keys = map QuizEditor.option_id sel) as Hkeys by (now rewrite Es).
    assert (filter (fun k => existsb (String.eqb (QuizEditor.option_id k)) keys) (seq 0 n) = sel)
      as Hf.
    { rewrite Hkeys. apply filter_ext_in. intros k Hk.
      apply eq_true_iff_eq. rewrite existsb_option_id. unfold sel. rewrite filter_In. tauto. }
    rewrite Hf, Hkeys, Es. reflexivity.
Qed.

Lemma toQuestion_again q :
  NewQuizPage.toQuestion (QuizEditor.applyQuestion (NewQuizPage.toQuestion q))
  = NewQuizPage.toQuestion q.
Proof.
  destruct (NewQuizPage.type q) eqn:Ht;
    [apply toQuestion_open_again | apply toQuestion_single_again | apply toQuestion_multi_again];
    exact Ht.
Qed.

(** X10. Saving is stable: a quiz that the builder has produced, loaded
    back into the builder and saved again without an edit, gives the same
    quiz, with the same texts, option ids and keys. *)
Theorem payload_round_trip (b : QuizEditor.Builder) :
  QuizEditor.payload (QuizEditor.applyQuizFromApi (QuizEditor.payload b)) = QuizEditor.payload b.
Proof.
  unfold QuizEditor.payload, QuizEditor.applyQuizFromApi, NewQuizPage.toQuizPayload.
  cbn [QuizEditor.b_title QuizEditor.b_description QuizEditor.b_questions
       Types.title Types.description Types.questions].
  rewrite trim_idempotent, !map_map. f_equal.
  - destruct (0 <? String.length (JsString.trim (QuizEditor.b_description b)))%nat eqn:E.
    + now rewrite trim_idempotent, E.
    + reflexivity.
  - apply map_ext. intros q. apply toQuestion_again.
Qed.

(** ** The editor of the quiz builder *)

Lemma array_set_length {A} (hole x : A) l : forall k,
  (k < length l)%nat -> length (QuizEditor.array_set hole k x l) = length l.
Proof.
  induction l as [|y r IH]; intros [|k] H; simpl in *; try lia.
  rewrite IH; lia.
Qed.

Lemma filteri_from_remove_length {A} (l : list A) : forall i k,
  (i <= k < i + length l)%nat ->
  length (JsString.filteri_from i (fun _ j => negb (Nat.eqb j k)) l) = (length l - 1)%nat.
Proof.
  induction l as [|x r IH]; intros i k H; simpl in *; [lia|].
  destruct (Nat.eqb_spec i k) as [->|Hne]; simpl.
  - clear IH H. rewrite Nat.sub_0_r.
    assert (forall j, (k < j)%nat ->
              length (JsString.filteri_from j (fun _ j' => negb (Nat.eqb j' k)) r) = length r)
      as Hall.
    { induction r as [|y r' IHr]; intros j Hj; simpl; [reflexivity|].
      destruct (Nat.eqb_spec j k); [lia|]. simpl. rewrite IHr; lia. }
    apply Hall. lia.
  - rewrite IH by lia. destruct r; simpl in *; lia.
Qed.

Lemma remove_at_length {A} (l : list A) k :
  (k < length l)%nat -> length (QuizEditor.remove_at k l) = (length l - 1)%nat.
Proof. intros H. apply filteri_from_remove_length. lia. Qed.

Lemma filteri_from_In {A} (p : A -> nat -> bool) (l : list A) : forall i x,
  In x (JsString.filteri_from i p l) -> In x l.
Proof.
  induction l as [|y r IH]; intros i x H; simpl in *; [exact H|].
  destruct (p y i); [destruct H as [H|H]; [now left | right; eauto] | right; eauto].
Qed.

Lemma mapi_from_Forall {A B} (P : A -> Prop) (Q : B -> Prop) (f : A -> nat -> B) l :
  (forall x k, P x -> Q (f x k)) -> forall i, Forall P l -> Forall Q (JsString.mapi_from i f l).
Proof.
  intros Hf. induction l as [|x r IH]; intros i H; simpl; [constructor|].
  inversion H; subst. constructor; auto.
Qed.

Lemma at_question_Forall (P : NewQuizPage.DraftQuestion -> Prop) f qIndex prev :
  (forall q, P q -> P (f q)) -> Forall P prev -> Forall P (QuizEditor.at_question qIndex f prev).
Proof.
  intros Hf. apply mapi_from_Forall. intros q k Hq. destruct (Nat.eqb k qIndex); auto.
Qed.

Lemma tidy_created stamp t seed : QuizEditor.tidy (NewQuizPage.createDraftQuestion stamp t seed).
Proof. destruct t; cbn; repeat split; lia. Qed.

Lemma first_only_length n : length (QuizEditor.first_only n) = n.
Proof. unfold QuizEditor.first_only. now rewrite length_map, length_seq. Qed.

Lemma tidy_changeType t q : QuizEditor.tidy (QuizEditor.changeType t q).
Proof.
  unfold QuizEditor.tidy, QuizEditor.changeType.
  destruct t; cbn [NewQuizPage.type NewQuizPage.options NewQuizPage.singleCorrect
                   NewQuizPage.multiCorrect].
  - reflexivity.
  - destruct (Nat.ltb_spec 1 (length (NewQuizPage.options q))); cbn [length]; lia.
  - rewrite first_only_length.
    destruct (Nat.ltb_spec 1 (length (NewQuizPage.options q))); cbn [length]; lia.
Qed.

Lemma tidy_pickSingle k q :
  NewQuizPage.type q = Single -> QuizEditor.rendered k q = true -> QuizEditor.tidy q ->
  QuizEditor.tidy (QuizEditor.pickSingle k q).
Proof.
  unfold QuizEditor.tidy, QuizEditor.rendered, QuizEditor.choice, QuizEditor.pickSingle.
  cbn [NewQuizPage.type NewQuizPage.options NewQuizPage.singleCorrect
       NewQuizPage.multiCorrect].
  intros -> Hr H.
  apply Nat.ltb_lt in Hr. lia.
Qed.

Lemma tidy_setMulti k v q :
  NewQuizPage.type q = Multi -> QuizEditor.rendered k q = true -> QuizEditor.tidy q ->
  QuizEditor.tidy (QuizEditor.setMulti k v q).
Proof.
  unfold QuizEditor.tidy, QuizEditor.rendered, QuizEditor.choice, QuizEditor.setMulti.
  cbn [NewQuizPage.type NewQuizPage.options NewQuizPage.singleCorrect
       NewQuizPage.multiCorrect].
  intros -> Hr [H1 H2].
  apply Nat.ltb_lt in Hr. rewrite array_set_length; lia.
Qed.

Lemma tidy_setOptionText k v q :
  QuizEditor.rendered k q = true -> QuizEditor.tidy q ->
  QuizEditor.tidy (QuizEditor.setOptionText k v q).
Proof.
  unfold QuizEditor.tidy, QuizEditor.rendered, QuizEditor.choice, QuizEditor.setOptionText.
  cbn [NewQuizPage.type NewQuizPage.options NewQuizPage.singleCorrect
       NewQuizPage.multiCorrect].
  intros Hr H.
  destruct (NewQuizPage.type q); [discriminate Hr| |]; apply Nat.ltb_lt in Hr;
    rewrite array_set_length by exact Hr; exact H.
Qed.

Lemma tidy_deleteOption k q :
  QuizEditor.rendered k q = true -> QuizEditor.tidy q ->
  QuizEditor.tidy (QuizEditor.deleteOption k q).
Proof.
  unfold QuizEditor.deleteOption. intros Hr H.
  destruct (Nat.leb_spec (length (NewQuizPage.options q)) 2) as [Hl|Hl]; [exact H|].
  revert Hr H. unfold QuizEditor.tidy, QuizEditor.rendered, QuizEditor.choice.
  cbn [NewQuizPage.type NewQuizPage.options NewQuizPage.singleCorrect NewQuizPage.multiCorrect].
  destruct (NewQuizPage.type q); [discriminate| |]; intros Hr H; apply Nat.ltb_lt in Hr.
  - rewrite remove_at_length by exact Hr.
    destruct (Z.leb_spec (Z.of_nat (length (NewQuizPage.options q) - 1))
                         (NewQuizPage.singleCorrect q)); lia.
  - rewrite !remove_at_length by lia. lia.
Qed.

Lemma tidy_addOption q :
  QuizEditor.choice q = true -> QuizEditor.tidy q -> QuizEditor.tidy (QuizEditor.addOption q).
Proof.
  unfold QuizEditor.tidy, QuizEditor.choice, QuizEditor.addOption.
  cbn [NewQuizPage.type NewQuizPage.options NewQuizPage.singleCorrect NewQuizPage.multiCorrect].
  destruct (NewQuizPage.type q); [discriminate| |]; intros _ H;
    rewrite !length_app; cbn [length]; lia.
Qed.

Lemma dispatch_keeps_tidy a prev :
  Forall QuizEditor.tidy prev -> Forall QuizEditor.tidy (QuizEditor.dispatch a prev).
Proof.
  intros H. destruct a; cbn [QuizEditor.dispatch].
  - constructor.
  - apply Forall_app. split; [exact H|]. repeat constructor. apply tidy_created.
  - apply Forall_forall. intros q Hq. apply filteri_from_In in Hq.
    revert q Hq. now apply Forall_forall.
  - apply at_question_Forall; [|exact H]. intros q _. apply tidy_changeType.
  - apply at_question_Forall; [|exact H]. intros q Hq. exact Hq.
  - apply at_question_Forall; [|exact H]. intros q Hq.
    destruct (NewQuizPage.type q) eqn:E; [|exact Hq..].
    unfold QuizEditor.tidy in *. unfold QuizEditor.setOpenAnswer.
    cbn [NewQuizPage.type NewQuizPage.options]. now rewrite E in *.
  - apply at_question_Forall; [|exact H]. intros q Hq.
    destruct (NewQuizPage.type q) eqn:E; try exact Hq.
    destruct (QuizEditor.rendered optIndex q) eqn:Er; [|exact Hq].
    now apply tidy_pickSingle.
  - apply at_question_Forall; [|exact H]. intros q Hq.
    destruct (NewQuizPage.type q) eqn:E; try exact Hq.
    destruct (QuizEditor.rendered optIndex q) eqn:Er; [|exact Hq].
    now apply tidy_setMulti.
  - apply at_question_Forall; [|exact H]. intros q Hq.
    destruct (QuizEditor.rendered optIndex q) eqn:Er; [|exact Hq].
    now apply tidy_setOptionText.
  - apply at_question_Forall; [|exact H]. intros q Hq.
    destruct (QuizEditor.rendered optIndex q) eqn:Er; [|exact Hq].
    now apply tidy_deleteOption.
  - apply at_question_Forall; [|exact H]. intros q Hq.
    destruct (QuizEditor.choice q) eqn:Er; [|exact Hq].
    now apply tidy_addOption.
Qed.

(** X11. Whatever the teacher does in the editor, the drafts stay well
    formed: an open question has no options, a single or multi question has
    at least two, the option picked on a single question is one of its
    options, and a multi question has one tick box per option.  It holds of
    the questions the editor starts from and is kept by every action. *)
Theorem editor_keeps_drafts_tidy (acts : list QuizEditor.Action)
        (prev : list NewQuizPage.DraftQuestion) :
  Forall QuizEditor.tidy prev ->
  Forall QuizEditor.tidy (fold_left (fun qs a => QuizEditor.dispatch a qs) acts prev).
Proof.
  revert prev. induction acts as [|a r IH]; intros prev H; simpl; [exact H|].
  apply IH, dispatch_keeps_tidy, H.
Qed.

Lemma editor_keeps_drafts_tidy_witness :
  Forall QuizEditor.tidy
         (QuizEditor.edit [QuizEditor.AddQuestion 5 Single; QuizEditor.AddOption 0;
                           QuizEditor.PickSingle 0 2; QuizEditor.DeleteOption 0 0;
                           QuizEditor.ChangeType 0 Multi; QuizEditor.ToggleMulti 0 1]).
Proof.
  apply (editor_keeps_drafts_tidy
           [QuizEditor.AddQuestion 5 Single; QuizEditor.AddOption 0;
            QuizEditor.PickSingle 0 2; QuizEditor.DeleteOption 0 0;
            QuizEditor.ChangeType 0 Multi; QuizEditor.ToggleMulti 0 1] []).
  constructor.
Defined.

(** ** The play page during a session *)

Lemma step_keeps_must roomCode nickname e l :
  StudentPlayPage.is_classic (StudentPlayPage.mode (PlaySession.page l)) = false ->
  StudentPlayPage.mustGetCorrect (PlaySession.page l) = true ->
  PlaySession.not_correct e = true ->
  StudentPlayPage.mode (PlaySession.page (PlaySession.step roomCode nickname e l))
  = StudentPlayPage.mode (PlaySession.page l)
  /\ StudentPlayPage.mustGetCorrect (PlaySession.page (PlaySession.step roomCode nickname e l))
     = true.
Proof.
  intros Hm Hc He. destruct l as [p ts loc]. cbn [PlaySession.page] in *.
  destruct e as [|msg|k|reason|answer|mobile tall]; cbn [PlaySession.step PlaySession.page].
  - unfold PlaySession.onopen. cbn [PlaySession.page]. rewrite Hm. cbn. auto.
  - destruct msg as [q|[|] next| |]; try discriminate He;
      unfold PlaySession.onMessage; cbn [PlaySession.page]; rewrite ?Hm; cbn; auto.
  - unfold PlaySession.fire. cbn [PlaySession.timers PlaySession.page].
    destruct (nth_error ts k) as [[d r]|]; cbn; auto.
  - rewrite Hm. cbn [PlaySession.with_page PlaySession.page].
    unfold StudentPlayPage.triggerQuestion.
    destruct (negb _ && _ && _); [auto|].
    destruct (StudentPlayPage.socket p); [|auto].
    rewrite Hc, !orb_true_r. auto.
  - destruct (PlaySession.card_shown p); [|auto].
    cbn [PlaySession.with_page PlaySession.page]. unfold StudentPlayPage.submitAnswer.
    destruct (StudentPlayPage.socket p), (StudentPlayPage.question p); cbn; auto.
  - cbn. auto.
Qed.

Lemma run_keeps_must roomCode nickname evs : forall l,
  StudentPlayPage.is_classic (StudentPlayPage.mode (PlaySession.page l)) = false ->
  StudentPlayPage.mustGetCorrect (PlaySession.page l) = true ->
  forallb PlaySession.not_correct evs = true ->
  StudentPlayPage.mode (PlaySession.page (PlaySession.run roomCode nickname evs l))
  = StudentPlayPage.mode (PlaySession.page l)
  /\ StudentPlayPage.mustGetCorrect (PlaySession.page (PlaySession.run roomCode nickname evs l))
     = true.
Proof.
  induction evs as [|e r IH]; intros l Hm Hc He; [now split|].
  cbn [forallb] in He. apply andb_true_iff in He. destruct He as [He Hr].
  destruct (step_keeps_must roomCode nickname e l Hm Hc He) as [Hm' Hc'].
  change (PlaySession.run roomCode nickname (e :: r) l)
    with (PlaySession.run roomCode nickname r (PlaySession.step roomCode nickname e l)).
  destruct (IH (PlaySession.step roomCode nickname e l)) as [H1 H2]; try assumption.
  - now rewrite Hm'.
  - split; [now rewrite H1 | exact H2].
Qed.

Lemma trigger_on_idle reason p :
  StudentPlayPage.idle p = true ->
  StudentPlayPage.mode (StudentPlayPage.triggerQuestion reason p) = StudentPlayPage.mode p
  /\ StudentPlayPage.is_classic (StudentPlayPage.mode p) = false
  /\ StudentPlayPage.mustGetCorrect (StudentPlayPage.triggerQuestion reason p) = true.
Proof.
  unfold StudentPlayPage.idle, StudentPlayPage.triggerQuestion. intros H.
  destruct (StudentPlayPage.is_classic (StudentPlayPage.mode p)); [discriminate H|].
  destruct (StudentPlayPage.mobileView p && StudentPlayPage.portrait p) eqn:Ev;
    [discriminate H|].
  cbn [negb andb] in *. rewrite <- andb_assoc in *. cbn [negb andb] in *. 
  destruct (StudentPlayPage.socket p) as [w|]; [|discriminate H].
  destruct (StudentPlayPage.some (StudentPlayPage.question p));
    [now destruct (Ws.readyState w)|].
  destruct (StudentPlayPage.awaitingNextQuestion p); [now destruct (Ws.readyState w)|].
  destruct (StudentPlayPage.mustGetCorrect p); [now destruct (Ws.readyState w)|].
  cbn. rewrite Ev. cbn. auto.
Qed.

(** X12. In a game mode, once a game event has made the page ask for a
    question, the game stays paused whatever happens next (questions
    arriving, answers submitted, wrong results, timers, the socket opening,
    the window changing size, further game events) as long as no result of
    the server says that an answer was correct. *)
Theorem paused_until_correct (roomCode nickname : string) (reason : GameCanvas.Reason)
        (evs : list PlaySession.Event) (l : PlaySession.Live) :
  StudentPlayPage.idle (PlaySession.page l) = true ->
  forallb PlaySession.not_correct evs = true ->
  PlaySession.gamePaused
    (PlaySession.page
       (PlaySession.run roomCode nickname (PlaySession.Triggers reason :: evs) l)) = true.
Proof.
  intros Hi He.
  destruct (trigger_on_idle reason _ Hi) as [Hm [Hc Hg]].
  change (PlaySession.run roomCode nickname (PlaySession.Triggers reason :: evs) l)
    with (PlaySession.run roomCode nickname evs
            (PlaySession.step roomCode nickname (PlaySession.Triggers reason) l)).
  cbn [PlaySession.step]. rewrite Hc.
  destruct (run_keeps_must roomCode nickname evs
              (PlaySession.with_page (StudentPlayPage.triggerQuestion reason) l)) as [H1 H2].
  - cbn [PlaySession.with_page PlaySession.page]. now rewrite Hm.
  - exact Hg.
  - exact He.
  - unfold PlaySession.gamePaused, PlaySession.overlayActive.
    rewrite H2, H1. cbn [PlaySession.with_page PlaySession.page]. rewrite Hm, Hc.
    now rewrite !orb_true_r.
Qed.

Lemma paused_until_correct_witness :
  PlaySession.gamePaused
    (PlaySession.page
       (PlaySession.run "ROOM" "ann"
          [PlaySession.Triggers GameCanvas.death;
           PlaySession.Receives
             (PlaySession.question_push
                {| q_id := "q1"; q_type := Open; q_prompt := "p"; q_options := None;
                   q_answer := KText "" |});
           PlaySession.Submits (JObject [("text", JString "x")]);
           PlaySession.Receives (PlaySession.answer_result false "retry");
           PlaySession.Fires 0]
          {| PlaySession.page := StudentPlayPage.playing; PlaySession.timers := [];
             PlaySession.location := None |})) = true.
Proof.
  apply (paused_until_correct "ROOM" "ann" GameCanvas.death
           [PlaySession.Receives
              (PlaySession.question_push
                 {| q_id := "q1"; q_type := Open; q_prompt := "p"; q_options := None;
                    q_answer := KText "" |});
            PlaySession.Submits (JObject [("text", JString "x")]);
            PlaySession.Receives (PlaySession.answer_result false "retry");
            PlaySession.Fires 0]
           {| PlaySession.page := StudentPlayPage.playing; PlaySession.timers := [];
              PlaySession.location := None |}); reflexivity.
Defined.

Lemma idle_page p :
  StudentPlayPage.idle p = true ->
  StudentPlayPage.is_classic (StudentPlayPage.mode p) = false
  /\ StudentPlayPage.mobileView p && StudentPlayPage.portrait p = false
  /\ (exists frames,
        StudentPlayPage.socket p = Some {| readyState := OPEN; sent := frames |})
  /\ StudentPlayPage.question p = None
  /\ StudentPlayPage.awaitingNextQuestion p = false
  /\ StudentPlayPage.mustGetCorrect p = false.
Proof.
  unfold StudentPlayPage.idle. intros H.
  repeat (apply andb_true_iff in H; let H' := fresh "H" in destruct H as [H H']).
  repeat match goal with
         | K : negb _ = true |- _ => apply negb_true_iff in K
         end.
  repeat split; try assumption.
  - destruct (StudentPlayPage.socket p) as [[[] frames]|]; try discriminate. now exists frames.
  - now destruct (StudentPlayPage.question p).
Qed.

(** X13. A whole round in a game mode: the game signals an event, the
    question arrives, the student submits an answer and the server reports
    it correct.  The page has then sent exactly two frames, the request for
    a question with the reason of the event and the answer with the id of
    the question, it has no timer pending, and the game runs again. *)
Theorem round_resumes_game (roomCode nickname : string) (reason : GameCanvas.Reason)
        (q : Question) (answer : value) (nextAction : string) (l : PlaySession.Live) :
  StudentPlayPage.idle (PlaySession.page l) = true ->
  let l' :=
    PlaySession.run roomCode nickname
      [PlaySession.Triggers reason;
       PlaySession.Receives (PlaySession.question_push q);
       PlaySession.Submits answer;
       PlaySession.Receives (PlaySession.answer_result true nextAction)] l in
  PlaySession.gamePaused (PlaySession.page l') = false
  /\ StudentPlayPage.requests (PlaySession.page l')
     = StudentPlayPage.requests (PlaySession.page l)
       ++ [StudentPlayPage.request_question (GameCanvas.reason_string reason);
           JSON_stringify
             (JObject [("event", JString "answer_submit");
                       ("payload", JObject [("questionId", JString (q_id q));
                                            ("answer", answer)])])]
  /\ PlaySession.timers l' = PlaySession.timers l.
Proof.
  intros Hi l'. subst l'.
  destruct (idle_page _ Hi) as [Hc [Hv [[frames Hs] [Hq [Ha Hm]]]]].
  destruct l as [p ts loc]. cbn [PlaySession.page] in *.
  destruct p as [m mv pt so qu aw mu st]. cbn in Hc, Hv, Hs, Hq, Ha, Hm. subst.
  destruct m; try discriminate Hc; destruct mv, pt; try discriminate Hv;
    cbn -[JSON_stringify]; (split; [reflexivity|]); (split; [|reflexivity]);
    unfold StudentPlayPage.request_question; now rewrite <- app_assoc.
Qed.

Lemma round_resumes_game_witness :
  PlaySession.gamePaused
    (PlaySession.page
       (PlaySession.run "ROOM" "ann"
          [PlaySession.Triggers GameCanvas.death;
           PlaySession.Receives
             (PlaySession.question_push
                {| q_id := "q1"; q_type := Open; q_prompt := "p"; q_options := None;
                   q_answer := KText "" |});
           PlaySession.Submits (JObject [("text", JString "x")]);
           PlaySession.Receives (PlaySession.answer_result true "continue")]
          {| PlaySession.page := StudentPlayPage.playing; PlaySession.timers := [];
             PlaySession.location := None |})) = false.
Proof.
  apply (round_resumes_game "ROOM" "ann" GameCanvas.death
           {| q_id := "q1"; q_type := Open; q_prompt := "p"; q_options := None;
              q_answer := KText "" |}
           (JObject [("text", JString "x")]) "continue"
           {| PlaySession.page := StudentPlayPage.playing; PlaySession.timers := [];
              PlaySession.location := None |}).
  reflexivity.
Defined.

(** X23. The game the play page runs is the one the start message names:
    the platformer or the shooter when it names one of them, the classic
    mode for any other name.  A start message without a game mode (or with
    an empty one) stores nothing, so the page runs whatever an earlier
    session has left in the storage. *)
Theorem start_quiz_decides_mode (gameMode stored : option string) :
  let mode := StudentPlayPage.initialMode (StudentWaitPage.on_start_quiz gameMode stored) in
  (gameMode = Some "platformer" -> mode = StudentPlayPage.platformer)
  /\ (gameMode = Some "shooter" -> mode = StudentPlayPage.shooter)
  /\ (forall m, gameMode = Some m -> m <> "" -> m <> "platformer" -> m <> "shooter" ->
                mode = StudentPlayPage.classic)
  /\ (gameMode = None \/ gameMode = Some "" -> mode = StudentPlayPage.initialMode stored).
Proof.
  intros mode. subst mode. repeat split.
  - intros ->. reflexivity.
  - intros ->. reflexivity.
  - intros m -> H0 H1 H2. unfold StudentWaitPage.on_start_quiz.
    destruct m as [|a r]; [congruence|]. cbn [String.length Nat.ltb Nat.leb].
    unfold StudentPlayPage.initialMode.
    destruct (String.eqb_spec (String a r) "platformer"); [congruence|].
    destruct (String.eqb_spec (String a r) "shooter"); [congruence|]. reflexivity.
  - intros [->| ->]; reflexivity.
Qed.

Lemma start_quiz_decides_mode_witness :
  StudentPlayPage.initialMode (StudentWaitPage.on_start_quiz (Some "tycoon") (Some "shooter"))
  = StudentPlayPage.classic
  /\ StudentPlayPage.initialMode (StudentWaitPage.on_start_quiz None (Some "shooter"))
     = StudentPlayPage.shooter.
Proof.
  split.
  - apply (start_quiz_decides_mode (Some "tycoon") (Some "shooter")) with (m := "tycoon");
      [reflexivity | discriminate..].
  - apply (start_quiz_decides_mode None (Some "shooter")). now left.
Defined.

(** ** The other keys of the storage schema *)

Lemma insert_keeps_apart {row K} (f : row -> K) (clash : row -> row -> bool) t r :
  (forall a b, f a = f b -> clash a b = true) ->
  NoDup (map f t) -> Schema.free clash t r = true -> NoDup (map f (t ++ [r])).
Proof.
  intros Hc Hn Hf. rewrite <- keys_total. rewrite <- keys_total in Hn.
  apply (insert_keeps_keys_apart row K (fun x => Some (f x)) clash); try assumption.
  intros a b k [= Ea] [= Eb]. apply Hc. congruence.
Qed.

Lemma without_keeps_apart {row K} (f : row -> K) id_of k (t : list row) :
  NoDup (map f t) -> NoDup (map f (Schema.without id_of k t)).
Proof.
  intros Hn. rewrite <- keys_total. rewrite <- keys_total in Hn.
  now apply filter_keeps_keys_apart.
Qed.

(** Closes the side condition of [insert_keeps_apart]: rows that agree on a
    key collide. *)
Ltac collide :=
  let a := fresh "a" in
  let b := fresh "b" in
  let E := fresh "E" in
  intros a b E;
  unfold Schema.teacher_clash, Schema.quiz_clash, Schema.quiz_question_clash,
    Schema.quiz_answer_clash, Schema.game_session_clash, Schema.session_participant_clash,
    Schema.session_answer_clash, Schema.stats_aggregate_clash, Schema.ci_eqb,
    SchemaKeys.login_key, SchemaKeys.external_key, SchemaKeys.room_key,
    SchemaKeys.token_key in *;
  try (injection E as E ?);
  repeat match goal with
         | H : _ = _ |- _ => rewrite H
         end;
  rewrite ?Z.eqb_refl, ?String.eqb_refl, ?orb_true_r; reflexivity.

Ltac kept :=
  first [ assumption
        | apply without_keeps_apart; assumption
        | eapply insert_keeps_apart;
            [ | assumption | eapply guard_true; eassumption ]; collide ].

Lemma exec_primary_keys strict st db db' :
  Schema.exec strict st db = Some db' ->
  SchemaKeys.primary_keys db -> SchemaKeys.primary_keys db'.
Proof.
  intros H (H1 & H2 & H3 & H4 & H5 & H6 & H7 & H8). unfold SchemaKeys.primary_keys.
  destruct st; accepted H; cbn [Schema.teachers Schema.quizzes Schema.quiz_questions
    Schema.quiz_answers Schema.game_sessions Schema.session_participants
    Schema.session_answers Schema.session_stats_aggregate];
    repeat split; kept.
Qed.

Lemma exec_unique_keys strict st db db' :
  Schema.exec strict st db = Some db' ->
  SchemaKeys.unique_keys db -> SchemaKeys.unique_keys db'.
Proof.
  intros H (H1 & H2 & H3 & H4 & H5). unfold SchemaKeys.unique_keys.
  destruct st; accepted H; cbn [Schema.teachers Schema.quizzes Schema.quiz_questions
    Schema.quiz_answers Schema.game_sessions Schema.session_participants
    Schema.session_answers Schema.session_stats_aggregate];
    repeat split; kept.
Qed.

Lemma reachable_induction strict (P : Schema.DB -> Prop) :
  P Schema.empty ->
  (forall st db db', Schema.exec strict st db = Some db' -> P db -> P db') ->
  forall db, Schema.reachable strict db -> P db.
Proof.
  intros H0 Hstep db [sts H]. revert H. generalize Schema.empty, H0.
  induction sts as [|st rest IH]; simpl; intros db0 Hdb0 H.
  - now injection H as <-.
  - destruct (Schema.exec strict st db0) as [db1|] eqn:E; [|discriminate].
    eapply IH; [|eassumption]. eapply Hstep; eassumption.
Qed.

(** X14. In every state of the database the [id] of a row is its own: in
    none of the tables do two rows have the same [id]. *)
Theorem primary_keys_unique strict db :
  Schema.reachable strict db -> SchemaKeys.primary_keys db.
Proof.
  apply reachable_induction.
  - repeat split; constructor.
  - apply exec_primary_keys.
Qed.

Lemma primary_keys_unique_witness :
  SchemaKeys.primary_keys (Schema.state_after true Schema.played).
Proof.
  apply (primary_keys_unique true (Schema.state_after true Schema.played)).
  exists Schema.played. reflexivity.
Defined.

(** X15. In every state of the database no two teachers have the same
    login, no two sessions the same room code or the same join token, each
    compared without regard to the case of letters; no two questions of a
    quiz have the same external id; and no question has two rows in
    [quiz_answers]. *)
Theorem unique_columns_hold strict db :
  Schema.reachable strict db -> SchemaKeys.unique_keys db.
Proof.
  apply reachable_induction.
  - repeat split; constructor.
  - apply exec_unique_keys.
Qed.

Lemma unique_columns_hold_witness :
  SchemaKeys.unique_keys (Schema.state_after true Schema.keyless_multi).
Proof.
  apply (unique_columns_hold true (Schema.state_after true Schema.keyless_multi)).
  exists Schema.keyless_multi. reflexivity.
Defined.

(** ** The touch controls of the canvas *)

Lemma has_In s x : Controls.has s x = true <-> In x s.
Proof.
  unfold Controls.has. rewrite existsb_exists. split.
  - intros [y [Hy E]]. apply String.eqb_eq in E. now subst.
  - intros H. exists x. split; [exact H | apply String.eqb_refl].
Qed.

Lemma has_false s x : Controls.has s x = false <-> ~ In x s.
Proof.
  rewrite <- has_In. destruct (Controls.has s x); split; intros H; congruence.
Qed.

Lemma delete_In s x y : In y (Controls.delete s x) <-> In y s /\ y <> x.
Proof.
  unfold Controls.delete. rewrite filter_In, negb_true_iff, String.eqb_neq. tauto.
Qed.

Lemma has_delete_same s x : Controls.has (Controls.delete s x) x = false.
Proof. apply has_false. rewrite delete_In. tauto. Qed.

Lemma has_delete_other s x y :
  x <> y -> Controls.has (Controls.delete s x) y = Controls.has s y.
Proof.
  intros H. apply eq_true_iff_eq. rewrite !has_In, delete_In. intuition congruence.
Qed.

Lemma has_add_other s x y :
  x <> y -> Controls.has (Controls.add s x) y = Controls.has s y.
Proof.
  intros H. unfold Controls.add. destruct (Controls.has s x); [reflexivity|].
  apply eq_true_iff_eq. rewrite !has_In, in_app_iff. simpl. intuition congruence.
Qed.

(** The keys held after [press] and [release]. *)
Lemma press_has mode_frame key code c x :
  Controls.has (Controls.pressed (Controls.press mode_frame key code c)) x
  = if Controls.paused c then Controls.has (Controls.pressed c) x
    else Controls.has (Controls.pressed c) x || String.eqb x (Controls.composite key code).
Proof.
  unfold Controls.press. destruct (Controls.paused c); [reflexivity|].
  destruct (Controls.has (Controls.pressed c) (Controls.composite key code)) eqn:E.
  - destruct (String.eqb_spec x (Controls.composite key code)) as [->|].
    + now rewrite E.
    + now rewrite orb_false_r.
  - cbn [Controls.pressed]. unfold Controls.add. rewrite E.
    unfold Controls.has. rewrite existsb_app. cbn [existsb]. now rewrite orb_false_r.
Qed.

Lemma release_has mode_frame key code c x :
  Controls.has (Controls.pressed (Controls.release mode_frame key code c)) x
  = Controls.has (Controls.pressed c) x && negb (String.eqb x (Controls.composite key code)).
Proof.
  unfold Controls.release.
  destruct (Controls.has (Controls.pressed c) (Controls.composite key code)) eqn:E;
    cbn [negb Controls.pressed].
  - destruct (String.eqb_spec x (Controls.composite key code)) as [->|Hn].
    + now rewrite has_delete_same, andb_false_r.
    + rewrite has_delete_other by congruence. now rewrite andb_true_r.
  - destruct (String.eqb_spec x (Controls.composite key code)) as [->|Hn].
    + now rewrite E.
    + now rewrite andb_true_r.
Qed.

Lemma press_paused frame key code c :
  Controls.paused (Controls.press frame key code c) = Controls.paused c.
Proof.
  unfold Controls.press. destruct (Controls.paused c) eqn:E; [exact E|].
  now destruct (Controls.has _ _).
Qed.

Lemma release_paused frame key code c :
  Controls.paused (Controls.release frame key code c) = Controls.paused c.
Proof. unfold Controls.release. now destruct (negb _). Qed.

Lemma opposite_thresholds x :
  Controls.leb x Controls.minus_threshold && Controls.geb x Controls.threshold = false.
Proof.
  unfold Controls.geb, Controls.leb, Controls.minus_threshold, Controls.threshold.
  destruct x as [| |n d|]; try reflexivity.
  apply andb_false_iff.
  match goal with
  | |- ?a = false \/ _ => destruct a eqn:E; [right | now left]
  end.
  apply Z.leb_le in E. apply Z.leb_gt. lia.
Qed.

Lemma updateJoystick_paused mode frame nx ny active c :
  Controls.paused (Controls.updateJoystick mode frame nx ny active c) = Controls.paused c.
Proof.
  unfold Controls.updateJoystick, Controls.post.
  destruct (negb active || Controls.paused c), (Controls.is_shooter mode),
    (Controls.leb nx Controls.minus_threshold), (Controls.geb nx Controls.threshold),
    (Controls.leb ny Controls.minus_threshold), (Controls.geb ny Controls.threshold);
    cbn [Controls.paused];
    repeat first [rewrite press_paused | rewrite release_paused]; reflexivity.
Qed.

(** Decides the comparisons of two composites that are written out. *)
Ltac closed_eqb :=
  repeat match goal with
         | |- context [String.eqb (Controls.composite ?a ?b) (Controls.composite ?c ?d)] =>
             let v := eval vm_compute in
                        (String.eqb (Controls.composite a b) (Controls.composite c d)) in
             change (String.eqb (Controls.composite a b) (Controls.composite c d)) with v
         end.

Ltac by_key x :=
  repeat match goal with
         | |- context [String.eqb x ?k] =>
             destruct (String.eqb_spec x k); [subst x; closed_eqb|]
         end.

Lemma press_or_release_has frame (b : bool) k c y :
  Controls.paused c = false ->
  Controls.has
    (Controls.pressed (if b then Controls.press frame k k c else Controls.release frame k k c))
    y
  = if String.eqb y (Controls.composite k k) then b else Controls.has (Controls.pressed c) y.
Proof.
  intros Hc. destruct b.
  - rewrite press_has, Hc. destruct (String.eqb y _); [apply orb_true_r | apply orb_false_r].
  - rewrite release_has. destruct (String.eqb y _); [apply andb_false_r | apply andb_true_r].
Qed.

Lemma press_or_release_paused frame (b : bool) k c :
  Controls.paused (if b then Controls.press frame k k c else Controls.release frame k k c)
  = Controls.paused c.
Proof. destruct b; [apply press_paused | apply release_paused]. Qed.

(** The keys held once [updateJoystick] has run. *)
Lemma updateJoystick_has mode frame nx ny active c x :
  Controls.has (Controls.pressed (Controls.updateJoystick mode frame nx ny active c)) x
  = if negb active || Controls.paused c then
      Controls.has (Controls.pressed c) x
      && negb (String.eqb x (Controls.composite "ArrowLeft" "ArrowLeft"))
      && negb (String.eqb x (Controls.composite "ArrowRight" "ArrowRight"))
      && negb (String.eqb x (Controls.composite "ArrowUp" "ArrowUp"))
      && negb (Controls.is_shooter mode
               && String.eqb x (Controls.composite "ArrowDown" "ArrowDown"))
    else if String.eqb x (Controls.composite "ArrowLeft" "ArrowLeft")
      then Controls.leb nx Controls.minus_threshold
    else if String.eqb x (Controls.composite "ArrowRight" "ArrowRight")
      then Controls.geb nx Controls.threshold
    else if String.eqb x (Controls.composite "ArrowUp" "ArrowUp")
      then Controls.leb ny Controls.minus_threshold
    else if Controls.is_shooter mode
            && String.eqb x (Controls.composite "ArrowDown" "ArrowDown")
      then Controls.geb ny Controls.threshold
    else Controls.has (Controls.pressed c) x.
Proof.
  unfold Controls.updateJoystick.
  destruct (negb active || Controls.paused c) eqn:Ea.
  - destruct (Controls.is_shooter mode); unfold Controls.post; cbn [Controls.pressed];
      rewrite !release_has; cbn [andb negb]; now rewrite ?andb_true_r.
  - apply orb_false_iff in Ea. destruct Ea as [_ Hp].
    destruct (Controls.is_shooter mode); unfold Controls.post; cbn [Controls.pressed andb];
      rewrite !press_or_release_has by (now rewrite ?press_or_release_paused);
      by_key x; reflexivity.
Qed.

Lemma updateJoystick_steered mode frame nx ny active c :
  Controls.steered mode c ->
  Controls.steered mode (Controls.updateJoystick mode frame nx ny active c).
Proof.
  unfold Controls.steered. intros (H1 & H2 & H3).
  rewrite !updateJoystick_has. closed_eqb.
  pose proof (opposite_thresholds nx) as Hx. pose proof (opposite_thresholds ny) as Hy.
  destruct (negb active || Controls.paused c); cbn [negb andb orb].
  - rewrite !andb_false_r. cbn [andb].
    split; [reflexivity|]. split; [reflexivity|].
    intros Hs. rewrite Hs. cbn [andb negb]. rewrite !andb_true_r. now apply H3.
  - split; [exact Hx|].
    destruct (Controls.is_shooter mode); cbn [andb].
    + split; [exact Hy | discriminate].
    + destruct (H3 eq_refl) as [Hd Hsp]. rewrite Hd, andb_false_r. auto.
Qed.

Lemma step_steered mode frame e c :
  Controls.steered mode c -> Controls.steered mode (Controls.step mode frame e c).
Proof.
  intros H. destruct e as [nx ny| | | | |kind code|now]; cbn [Controls.step].
  - now apply updateJoystick_steered.
  - now apply updateJoystick_steered.
  - destruct (Controls.is_shooter mode) eqn:Es; [|exact H].
    destruct H as (H1 & H2 & H3). unfold Controls.steered. rewrite !press_has, Es.
    closed_eqb. destruct (Controls.paused c); rewrite ?orb_false_r;
      (split; [exact H1 | split; [exact H2 | discriminate]]).
  - destruct (Controls.is_shooter mode) eqn:Es; [|exact H].
    destruct H as (H1 & H2 & H3). unfold Controls.steered. rewrite !release_has, Es.
    closed_eqb. cbn [negb]. rewrite ?andb_true_r.
    split; [exact H1 | split; [exact H2 | discriminate]].
  - destruct (Controls.is_shooter mode); exact H.
  - unfold Controls.onKey. destruct (Controls.fromCode code); exact H.
  - unfold Controls.onPaused. destruct frame; [destruct now|]; try exact H.
    repeat split; reflexivity.
Qed.

Lemma run_steered mode frame evs : Controls.steered mode (Controls.run mode frame evs).
Proof.
  unfold Controls.run.
  assert (forall c, Controls.steered mode c ->
                    Controls.steered mode
                      (fold_left (fun c e => Controls.step mode frame e c) evs c)) as H.
  { induction evs as [|e r IH]; intros c Hc; [exact Hc|].
    cbn [fold_left]. apply IH, step_steered, Hc. }
  apply H. repeat split; reflexivity.
Qed.

(** X17. The touch controls never hold opposite keys: whatever the finger
    does on the stick and the buttons, whatever keys are typed and however
    the page pauses the game, the canvas never holds the left and the right
    arrow together, nor the up and the down arrow, and in the platformer it
    holds neither the down arrow nor the space key. *)
Theorem controls_never_opposite (mode : GameCanvas.Mode) (frame : option Controls.FrameWindow)
        (evs : list Controls.Event) :
  Controls.steered mode (Controls.run mode frame evs).
Proof. apply run_steered. Qed.

Lemma has_none s : (forall x, Controls.has s x = false) -> s = [].
Proof.
  destruct s as [|y r]; [reflexivity|]. intros H. specialize (H y).
  apply has_false in H. exfalso. apply H. now left.
Qed.

Lemma step_paused_empty mode w e c :
  (Controls.paused c = true -> Controls.pressed c = []) ->
  Controls.paused (Controls.step mode (Some w) e c) = true ->
  Controls.pressed (Controls.step mode (Some w) e c) = [].
Proof.
  intros H. destruct e as [nx ny| | | | |kind code|now]; cbn [Controls.step].
  - rewrite updateJoystick_paused. intros Hp. apply has_none. intros x.
    rewrite updateJoystick_has, Hp, orb_true_r, (H Hp). reflexivity.
  - rewrite updateJoystick_paused. intros Hp. apply has_none. intros x.
    rewrite updateJoystick_has, Hp, orb_true_r, (H Hp). reflexivity.
  - destruct (Controls.is_shooter mode); [|exact H].
    rewrite press_paused. intros Hp. unfold Controls.press. rewrite Hp. now apply H.
  - destruct (Controls.is_shooter mode); [|exact H].
    rewrite release_paused. intros Hp. apply has_none. intros x.
    rewrite release_has, (H Hp). reflexivity.
  - destruct (Controls.is_shooter mode); exact H.
  - unfold Controls.onKey. destruct (Controls.fromCode code); exact H.
  - unfold Controls.onPaused. destruct now; [reflexivity | discriminate].
Qed.

Lemma run_paused_empty mode w evs :
  Controls.paused (Controls.run mode (Some w) evs) = true ->
  Controls.pressed (Controls.run mode (Some w) evs) = [].
Proof.
  unfold Controls.run.
  assert (forall c, (Controls.paused c = true -> Controls.pressed c = []) ->
                    let c' := fold_left (fun c e => Controls.step mode (Some w) e c) evs c in
                    Controls.paused c' = true -> Controls.pressed c' = []) as H.
  { induction evs as [|e r IH]; intros c Hc; [exact Hc|].
    cbn [fold_left]. apply IH. now apply step_paused_empty. }
  apply H. discriminate.
Qed.

(** X18. While the game is paused no key is held by touch: with the frame
    in place, whenever the canvas is paused its set of held keys is empty,
    whatever was touched or typed before and since. *)
Theorem paused_holds_no_key (mode : GameCanvas.Mode) (w : Controls.FrameWindow)
        (evs : list Controls.Event) :
  Controls.paused (Controls.run mode (Some w) evs) = true ->
  Controls.pressed (Controls.run mode (Some w) evs) = [].
Proof. apply run_paused_empty. Qed.

Lemma paused_holds_no_key_witness :
  Controls.pressed
    (Controls.run GameCanvas.shooter
       (Some {| Controls.onkeydown := true; Controls.onkeyup := true |})
       [Controls.FireStart; Controls.Stick Controls.NegInf Controls.zero;
        Controls.Paused true; Controls.FireStart; Controls.Stick Controls.PosInf Controls.NaN])
  = [].
Proof.
  apply (paused_holds_no_key GameCanvas.shooter
           {| Controls.onkeydown := true; Controls.onkeyup := true |}
           [Controls.FireStart; Controls.Stick Controls.NegInf Controls.zero;
            Controls.Paused true; Controls.FireStart;
            Controls.Stick Controls.PosInf Controls.NaN]).
  reflexivity.
Defined.

Lemma game_DOWN_app a b :
  Controls.game_DOWN (a ++ b)
  = fold_left (fun DOWN e => match e with
                             | Controls.Post data => Controls.game_onmessage DOWN data
                             | Controls.Call _ _ => DOWN
                             end) b (Controls.game_DOWN a).
Proof. unfold Controls.game_DOWN. apply fold_left_app. Qed.

(** What the game does with the effects of one [emitBridgeKey]. *)
Lemma game_after_key w kind key code a :
  (0 < String.length key)%nat ->
  Controls.game_DOWN (a ++ Controls.emitBridgeKey (Some w) kind key code)
  = match kind with
    | Controls.keydown => Controls.add (Controls.game_DOWN a) key
    | Controls.keyup => Controls.delete (Controls.game_DOWN a) key
    end.
Proof.
  intros Hk. rewrite game_DOWN_app. unfold Controls.emitBridgeKey.
  apply Nat.ltb_lt in Hk.
  destruct kind, (Controls.onkeydown w), (Controls.onkeyup w);
    cbn [fold_left Controls.game_onmessage]; rewrite Hk; cbn iota; rewrite Hk; reflexivity.
Qed.

Lemma touch_keys_apart a b :
  In a Controls.touch_composites -> In b Controls.touch_composites ->
  Controls.key_of a = Controls.key_of b -> a = b.
Proof.
  unfold Controls.touch_composites. cbn [In].
  intros Ha Hb; repeat destruct Ha as [<-|Ha]; try destruct Ha;
    repeat destruct Hb as [<-|Hb]; try destruct Hb;
    vm_compute; intros E; first [reflexivity | discriminate E].
Qed.

Lemma map_key_delete l x :
  incl l Controls.touch_composites -> In x Controls.touch_composites ->
  map Controls.key_of (Controls.delete l x)
  = Controls.delete (map Controls.key_of l) (Controls.key_of x).
Proof.
  intros Hl Hx. induction l as [|y r IH]; [reflexivity|].
  assert (In y Controls.touch_composites) as Hy by (apply Hl; now left).
  assert (incl r Controls.touch_composites) as Hr by (intros z Hz; apply Hl; now right).
  cbn [Controls.delete filter map]. fold (Controls.delete r x).
  fold (Controls.delete (map Controls.key_of r) (Controls.key_of x)).
  destruct (String.eqb_spec y x) as [->|Hn].
  - rewrite String.eqb_refl. cbn [negb]. now apply IH.
  - destruct (String.eqb_spec (Controls.key_of y) (Controls.key_of x)) as [E|_].
    + exfalso. apply Hn. now apply touch_keys_apart.
    + cbn [negb map]. now rewrite IH.
Qed.

Lemma press_mirrored w key code c :
  In (Controls.composite key code) Controls.touch_composites ->
  Controls.key_of (Controls.composite key code) = key ->
  (0 < String.length key)%nat ->
  Controls.mirrored c -> Controls.mirrored (Controls.press (Some w) key code c).
Proof.
  intros HT Hk Hlen (Hi & Hn & Hd). unfold Controls.press.
  destruct (Controls.paused c); [now repeat split|].
  destruct (Controls.has (Controls.pressed c) (Controls.composite key code)) eqn:Eh;
    [now repeat split|].
  apply has_false in Eh.
  unfold Controls.mirrored. cbn [Controls.pressed Controls.effects].
  assert (Controls.add (Controls.pressed c) (Controls.composite key code)
          = Controls.pressed c ++ [Controls.composite key code]) as Ea.
  { unfold Controls.add.
    now replace (Controls.has (Controls.pressed c) (Controls.composite key code)) with false
      by (symmetry; now apply has_false). }
  rewrite Ea.
  split; [|split].
  - intros x Hx. apply in_app_iff in Hx. destruct Hx as [Hx|[<-|[]]]; auto.
  - apply NoDup_rev in Hn. rewrite <- (rev_involutive (_ ++ _)). apply NoDup_rev.
    rewrite rev_app_distr. cbn [rev app]. constructor; [|exact Hn].
    now rewrite <- in_rev.
  - rewrite game_after_key by exact Hlen. rewrite Hd, map_app. cbn [map]. rewrite Hk.
    unfold Controls.add.
    replace (Controls.has (map Controls.key_of (Controls.pressed c)) key) with false;
      [reflexivity|].
    symmetry. apply has_false. intros Hin. apply in_map_iff in Hin.
    destruct Hin as [y [Ey Hy]]. apply Eh.
    rewrite <- Hk in Ey. apply touch_keys_apart in Ey; auto. now subst.
Qed.

Lemma release_mirrored w key code c :
  In (Controls.composite key code) Controls.touch_composites ->
  Controls.key_of (Controls.composite key code) = key ->
  (0 < String.length key)%nat ->
  Controls.mirrored c -> Controls.mirrored (Controls.release (Some w) key code c).
Proof.
  intros HT Hk Hlen (Hi & Hn & Hd). unfold Controls.release.
  destruct (Controls.has (Controls.pressed c) (Controls.composite key code));
    cbn [negb]; [|now repeat split].
  unfold Controls.mirrored. cbn [Controls.pressed Controls.effects].
  split; [|split].
  - intros x Hx. apply delete_In in Hx. now apply Hi.
  - now apply NoDup_filter.
  - rewrite game_after_key by exact Hlen. rewrite Hd, map_key_delete by assumption.
    now rewrite Hk.
Qed.

Lemma post_mirrored w payload c :
  match payload with Controls.quiz_key _ _ _ => False | _ => True end ->
  Controls.mirrored c -> Controls.mirrored (Controls.post (Some w) payload c).
Proof.
  intros Hp (Hi & Hn & Hd). unfold Controls.post, Controls.mirrored.
  cbn [Controls.pressed Controls.effects Controls.emitGameMessage].
  repeat split; try assumption.
  rewrite game_DOWN_app. cbn [fold_left]. now destruct payload.
Qed.

Ltac touch_pair :=
  first [ unfold Controls.touch_composites; cbn [In]; tauto
        | vm_compute; reflexivity
        | cbn; lia ].

Lemma updateJoystick_mirrored mode w nx ny active c :
  Controls.mirrored c ->
  Controls.mirrored (Controls.updateJoystick mode (Some w) nx ny active c).
Proof.
  intros H. unfold Controls.updateJoystick.
  destruct (negb active || Controls.paused c), (Controls.is_shooter mode),
    (Controls.leb nx Controls.minus_threshold), (Controls.geb nx Controls.threshold),
    (Controls.leb ny Controls.minus_threshold), (Controls.geb ny Controls.threshold);
    repeat first [ apply post_mirrored; [exact I|]
                 | apply press_mirrored; [touch_pair | touch_pair | touch_pair |]
                 | apply release_mirrored; [touch_pair | touch_pair | touch_pair |] ];
    exact H.
Qed.

(** The keys the game lets go when the canvas pauses. *)
Lemma game_after_pause w l : forall a,
  (forall s, In s l -> (0 < String.length (Controls.key_of s))%nat) ->
  Controls.game_DOWN
    (a ++ flat_map (fun s => let (key, code) := Controls.split_composite s in
                             Controls.emitBridgeKey (Some w) Controls.keyup key code) l)
  = fold_left Controls.delete (map Controls.key_of l) (Controls.game_DOWN a).
Proof.
  induction l as [|s r IH]; intros a Hl; cbn [flat_map map fold_left].
  - now rewrite app_nil_r.
  - rewrite app_assoc, IH by (intros z Hz; apply Hl; now right). f_equal.
    unfold Controls.key_of in *. specialize (Hl s (or_introl eq_refl)).
    destruct (Controls.split_composite s) as [key code]. cbn [fst] in *.
    now rewrite game_after_key.
Qed.

Lemma fold_delete_In ks : forall D x,
  In x (fold_left Controls.delete ks D) <-> In x D /\ ~ In x ks.
Proof.
  induction ks as [|k r IH]; intros D x; cbn [fold_left].
  - cbn. tauto.
  - rewrite IH, delete_In. cbn [In]. intuition congruence.
Qed.

Lemma fold_delete_all ks : fold_left Controls.delete ks ks = [].
Proof.
  destruct (fold_left Controls.delete ks ks) as [|x r] eqn:E; [reflexivity|].
  assert (In x (fold_left Controls.delete ks ks)) as H by (rewrite E; now left).
  apply fold_delete_In in H. tauto.
Qed.

Lemma touch_key_named s :
  In s Controls.touch_composites -> (0 < String.length (Controls.key_of s))%nat.
Proof.
  unfold Controls.touch_composites. cbn [In].
  intros H; repeat destruct H as [<-|H]; try destruct H; vm_compute; lia.
Qed.

Lemma step_mirrored mode w e c :
  Controls.by_touch e = true ->
  Controls.mirrored c -> Controls.mirrored (Controls.step mode (Some w) e c).
Proof.
  intros He H. destruct e as [nx ny| | | | |kind code|now]; cbn [Controls.step];
    try discriminate He.
  - now apply updateJoystick_mirrored.
  - now apply updateJoystick_mirrored.
  - destruct (Controls.is_shooter mode); [|exact H].
    apply press_mirrored; [touch_pair | touch_pair | touch_pair | exact H].
  - destruct (Controls.is_shooter mode); [|exact H].
    apply release_mirrored; [touch_pair | touch_pair | touch_pair | exact H].
  - destruct (Controls.is_shooter mode); [exact H|]. now apply post_mirrored.
  - destruct H as (Hi & Hn & Hd). unfold Controls.onPaused, Controls.mirrored.
    destruct now; cbn [Controls.pressed Controls.effects].
    + split; [intros x []|]. split; [constructor|].
      change (Controls.effects c ++ Controls.Post (Controls.quiz_pause true) :: ?l)
        with (Controls.effects c ++ [Controls.Post (Controls.quiz_pause true)] ++ l).
      rewrite app_assoc, game_after_pause
        by (intros s Hs; apply touch_key_named; now apply Hi).
      rewrite game_DOWN_app. cbn [fold_left Controls.game_onmessage].
      rewrite Hd. apply fold_delete_all.
    + repeat split; try assumption.
      rewrite game_DOWN_app. cbn [fold_left Controls.game_onmessage]. exact Hd.
Qed.

Lemma run_mirrored mode w evs :
  forallb Controls.by_touch evs = true ->
  Controls.mirrored (Controls.run mode (Some w) evs).
Proof.
  unfold Controls.run.
  assert (forall c, forallb Controls.by_touch evs = true -> Controls.mirrored c ->
                    Controls.mirrored
                      (fold_left (fun c e => Controls.step mode (Some w) e c) evs c)) as H.
  { induction evs as [|e r IH]; intros c He Hc; [exact Hc|].
    cbn [forallb] in He. apply andb_true_iff in He. destruct He as [He Hr].
    cbn [fold_left]. apply IH; [exact Hr|]. now apply step_mirrored. }
  intros He. apply H; [exact He|]. repeat split; [intros x [] | constructor].
Qed.

Lemma has_map_key l comp :
  incl l Controls.touch_composites -> In comp Controls.touch_composites ->
  Controls.has (map Controls.key_of l) (Controls.key_of comp) = Controls.has l comp.
Proof.
  intros Hl Hc. apply eq_true_iff_eq. rewrite !has_In, in_map_iff. split.
  - intros [y [E Hy]]. apply touch_keys_apart in E; auto. now subst.
  - intros H. now exists comp.
Qed.

Lemma has_map_other l k :
  incl l Controls.touch_composites ->
  existsb (fun s => String.eqb (Controls.key_of s) k) Controls.touch_composites = false ->
  Controls.has (map Controls.key_of l) k = false.
Proof.
  intros Hl Hk. apply has_false. intros H. apply in_map_iff in H. destruct H as [y [E Hy]].
  assert (existsb (fun s => String.eqb (Controls.key_of s) k) Controls.touch_composites = true)
    as Ht; [|congruence].
  apply existsb_exists. exists y. split; [now apply Hl | now apply String.eqb_eq].
Qed.

(** X19. On a device without a keyboard the game takes as down exactly the
    keys the touch controls hold: after any touches and pauses, and once the
    game has handled what the canvas posted, its set [DOWN] lists the keys
    of the composites the canvas holds, in the same order.  So it is empty
    while the game is paused, and the game never sees left and right down
    together. *)
Theorem game_mirrors_touch (mode : GameCanvas.Mode) (w : Controls.FrameWindow)
        (evs : list Controls.Event) :
  forallb Controls.by_touch evs = true ->
  let c := Controls.run mode (Some w) evs in
  let DOWN := Controls.game_DOWN (Controls.effects c) in
  DOWN = map Controls.key_of (Controls.pressed c)
  /\ (Controls.paused c = true -> DOWN = [])
  /\ Controls.leftKey DOWN [] && Controls.rightKey DOWN [] = false.
Proof.
  intros He c DOWN. destruct (run_mirrored mode w evs He) as (Hi & Hn & Hd).
  fold c in Hi, Hn, Hd. fold DOWN in Hd. split; [exact Hd|]. split.
  - intros Hp. rewrite Hd. unfold c. now rewrite run_paused_empty.
  - destruct (run_steered mode (Some w) evs) as (H1 & _). fold c in H1.
    unfold Controls.leftKey, Controls.rightKey. cbn [existsb]. rewrite !orb_false_r, Hd.
    rewrite (has_map_other _ "a" Hi), (has_map_other _ "d" Hi) by reflexivity.
    cbn [orb].
    change "ArrowLeft" with (Controls.key_of (Controls.composite "ArrowLeft" "ArrowLeft")).
    change "ArrowRight" with (Controls.key_of (Controls.composite "ArrowRight" "ArrowRight")).
    rewrite !has_map_key by (try exact Hi; touch_pair). exact H1.
Qed.

Lemma game_mirrors_touch_witness :
  Controls.game_DOWN
    (Controls.effects
       (Controls.run GameCanvas.shooter
          (Some {| Controls.onkeydown := false; Controls.onkeyup := false |})
          [Controls.FireStart; Controls.Stick Controls.NegInf Controls.PosInf;
           Controls.Stick Controls.PosInf Controls.zero]))
  = [" "; "ArrowRight"].
Proof.
  apply (game_mirrors_touch GameCanvas.shooter
           {| Controls.onkeydown := false; Controls.onkeyup := false |}
           [Controls.FireStart; Controls.Stick Controls.NegInf Controls.PosInf;
            Controls.Stick Controls.PosInf Controls.zero]).
  reflexivity.
Defined.

Lemma fromCode_named code k : Controls.fromCode code = Some k -> (0 < String.length k)%nat.
Proof.
  unfold Controls.fromCode.
  repeat match goal with
         | |- (if ?b then _ else _) = _ -> _ => destruct b; [intros [= <-]; cbn; lia|]
         end.
  discriminate.
Qed.

(** X22. A key typed on the page reaches the game as if it had been typed
    in the game: for the keys the canvas forwards (W, A, S, D, the arrows
    and the space bar), the game's set of keys down changes through the
    bridge exactly as its own keyboard listener would change it; any other
    key is not forwarded and changes nothing. *)
Theorem bridge_agrees_with_keyboard (w : Controls.FrameWindow) (kind : Controls.Kind)
        (code key : string) (c : Controls.Canvas) :
  Controls.game_DOWN (Controls.effects (Controls.onKey (Some w) kind code c))
  = match Controls.fromCode code with
    | Some _ => Controls.game_onkey kind code key (Controls.game_DOWN (Controls.effects c))
    | None => Controls.game_DOWN (Controls.effects c)
    end.
Proof.
  unfold Controls.onKey, Controls.game_onkey.
  destruct (Controls.fromCode code) as [k|] eqn:E; [|reflexivity].
  cbn [Controls.effects]. apply game_after_key. eapply fromCode_named, E.
Qed.

(** ** More on the answer card *)

Lemma includes_app l x y :
  QuestionCard.includes (l ++ [y]) x = QuestionCard.includes l x || String.eqb x y.
Proof.
  unfold QuestionCard.includes. rewrite existsb_app. cbn [existsb]. now rewrite orb_false_r.
Qed.

Lemma includes_filter l x y :
  QuestionCard.includes (filter (fun v => negb (String.eqb v y)) l) x
  = QuestionCard.includes l x && negb (String.eqb x y).
Proof.
  apply eq_true_iff_eq.
  rewrite andb_true_iff, !includes_In, filter_In, !negb_true_iff, !String.eqb_neq. tauto.
Qed.

Lemma dispatch_multi_includes q a s x :
  q_type q = Multi ->
  QuestionCard.includes (QuestionCard.multi (QuestionCard.dispatch q a s)) x
  = xorb (QuestionCard.includes (QuestionCard.multi s) x) (CardClicks.hits q x a).
Proof.
  intros Ht. unfold QuestionCard.dispatch, CardClicks.hits. rewrite Ht.
  destruct a as [v|i|i]; try now rewrite xorb_false_r.
  destruct (nth_error (options_or_empty q) i) as [o|]; [|now rewrite xorb_false_r].
  cbn [QuestionCard.multi]. unfold QuestionCard.onChange_multi.
  rewrite (String.eqb_sym (o_id o) x).
  destruct (QuestionCard.includes (QuestionCard.multi s) (o_id o)) eqn:E; cbn [negb].
  - rewrite includes_filter. destruct (String.eqb_spec x (o_id o)) as [->|_].
    + now rewrite E.
    + now rewrite andb_true_r, xorb_false_r.
  - rewrite includes_app. destruct (String.eqb_spec x (o_id o)) as [->|_].
    + now rewrite E.
    + now rewrite orb_false_r, xorb_false_r.
Qed.

(** X20. On the card of a multi question an option is part of the
    submission exactly when its checkbox was clicked an odd number of times
    since the card appeared. *)
Theorem ticked_when_clicked_odd (q : Question) (acts : list QuestionCard.Action) (x : string) :
  q_type q = Multi ->
  QuestionCard.includes (QuestionCard.multi (QuestionCard.run q acts)) x
  = Nat.odd (CardClicks.clicks q x acts).
Proof.
  intros Ht. unfold QuestionCard.run, CardClicks.clicks.
  assert (forall s,
            QuestionCard.includes
              (QuestionCard.multi (fold_left (fun s a => QuestionCard.dispatch q a s) acts s)) x
            = xorb (QuestionCard.includes (QuestionCard.multi s) x)
                   (Nat.odd (length (filter (CardClicks.hits q x) acts)))) as H.
  { induction acts as [|a r IH]; intros s; cbn [fold_left filter].
    - now rewrite xorb_false_r.
    - rewrite IH, dispatch_multi_includes by exact Ht.
      destruct (CardClicks.hits q x a).
      + cbn [length]. rewrite Nat.odd_succ, <- Nat.negb_odd.
        now destruct (QuestionCard.includes _ x), (Nat.odd _).
      + now rewrite xorb_false_r. }
  rewrite H. reflexivity.
Qed.

Lemma ticked_when_clicked_odd_witness :
  QuestionCard.includes
    (QuestionCard.multi
       (QuestionCard.run
          {| q_id := "q1"; q_type := Multi; q_prompt := "p";
             q_options := Some [{| o_id := "o1"; o_text := "a" |};
                                {| o_id := "o2"; o_text := "b" |}];
             q_answer := KOptionIds ["o2"] |}
          [QuestionCard.Toggle 1; QuestionCard.Toggle 0; QuestionCard.Toggle 1;
           QuestionCard.Toggle 1])) "o2"
  = true.
Proof.
  apply (ticked_when_clicked_odd
           {| q_id := "q1"; q_type := Multi; q_prompt := "p";
              q_options := Some [{| o_id := "o1"; o_text := "a" |};
                                 {| o_id := "o2"; o_text := "b" |}];
              q_answer := KOptionIds ["o2"] |}
           [QuestionCard.Toggle 1; QuestionCard.Toggle 0; QuestionCard.Toggle 1;
            QuestionCard.Toggle 1] "o2" eq_refl).
Defined.

Lemma dispatch_single pool q a s :
  (QuestionCard.is_single q = true -> incl (map o_id (options_or_empty q)) pool) ->
  QuestionCard.single s = "" \/ In (QuestionCard.single s) pool ->
  QuestionCard.single (QuestionCard.dispatch q a s) = ""
  \/ In (QuestionCard.single (QuestionCard.dispatch q a s)) pool.
Proof.
  intros Hq H. unfold QuestionCard.dispatch, QuestionCard.is_single in *.
  destruct a as [v|i|i], (q_type q); try exact H;
    destruct (nth_error (options_or_empty q) i) as [o|] eqn:E; try exact H.
  right. cbn [QuestionCard.single]. apply (Hq eq_refl), in_map. eapply nth_error_In, E.
Qed.

Lemma fold_step_single pool events : forall c,
  (forall q, In (QuestionCard.Shows q) events -> QuestionCard.is_single q = true ->
             incl (map o_id (options_or_empty q)) pool) ->
  (QuestionCard.is_single (QuestionCard.shown c) = true ->
   incl (map o_id (options_or_empty (QuestionCard.shown c))) pool) ->
  QuestionCard.single (QuestionCard.cells c) = ""
  \/ In (QuestionCard.single (QuestionCard.cells c)) pool ->
  QuestionCard.single (QuestionCard.cells (fold_left QuestionCard.step events c)) = ""
  \/ In (QuestionCard.single (QuestionCard.cells (fold_left QuestionCard.step events c))) pool.
Proof.
  induction events as [|e rest IH]; intros c Hev Hc Hs; cbn [fold_left]; [exact Hs|].
  apply IH.
  - intros q Hq. apply Hev. now right.
  - destruct e as [a|q]; cbn [QuestionCard.step QuestionCard.shown]; [exact Hc|].
    apply Hev. now left.
  - destruct e as [a|q]; cbn [QuestionCard.step QuestionCard.cells]; [|exact Hs].
    now apply dispatch_single.
Qed.

(** X21. The option a card submits for a single question is the empty text
    or the id of an option of a single question that the card has shown
    since it was mounted: of the question itself when the card has shown no
    other.  It is the empty text when nothing happened on the card: the
    button does not wait for a choice. *)
Theorem single_submission_is_an_option (q : Question) (events : list QuestionCard.Event) :
  let c := QuestionCard.play q events in
  q_type (QuestionCard.shown c) = Single ->
  exists picked,
    QuestionCard.click c = JObject [("optionId", JString picked)]
    /\ (picked = ""
        \/ In picked (QuestionCard.option_ids
                        (filter QuestionCard.is_single (QuestionCard.questions_shown q events))))
    /\ (QuestionCard.replaced events = false ->
        picked = "" \/ In picked (map o_id (options_or_empty q)))
    /\ (events = [] -> picked = "").
Proof.
  intros c Ht. exists (QuestionCard.single (QuestionCard.cells c)).
  split; [|split; [|split]].
  - unfold QuestionCard.click, QuestionCard.onSubmit_argument, QuestionCard.submitted.
    now rewrite Ht.
  - apply fold_step_single.
    + intros q' Hq' Hm. apply option_ids_incl, filter_In.
      split; [now apply shows_in_questions_shown | exact Hm].
    + intros Hm. apply option_ids_incl, filter_In. split; [now left | exact Hm].
    + now left.
  - intros Hr. apply fold_step_single.
    + intros q' Hq'. destruct (never_replaced events Hr) as [acts ->].
      apply in_map_iff in Hq'. destruct Hq' as [a [Ha _]]. discriminate Ha.
    + intros _ x Hx. exact Hx.
    + now left.
  - intros E. unfold c. rewrite E. reflexivity.
Qed.

Lemma single_submission_is_an_option_witness :
  let q1 := {| q_id := "q1"; q_type := Single; q_prompt := "first";
               q_options := Some [{| o_id := "o1"; o_text := "a" |};
                                  {| o_id := "o2"; o_text := "b" |}];
               q_answer := KOptionId "o2" |} in
  let q2 := {| q_id := "q2"; q_type := Single; q_prompt := "second";
               q_options := Some [{| o_id := "o5"; o_text := "e" |}];
               q_answer := KOptionId "o5" |} in
  exists picked,
    QuestionCard.click
      (QuestionCard.play q1 [QuestionCard.Does (QuestionCard.Pick 1);
                             QuestionCard.Does (QuestionCard.Toggle 0);
                             QuestionCard.Shows q2;
                             QuestionCard.Does (QuestionCard.Pick 5)])
    = JObject [("optionId", JString picked)]
    /\ (picked = "" \/ In picked ["o1"; "o2"; "o5"]).
Proof.
  intros q1 q2.
  destruct (single_submission_is_an_option q1
              [QuestionCard.Does (QuestionCard.Pick 1);
               QuestionCard.Does (QuestionCard.Toggle 0);
               QuestionCard.Shows q2;
               QuestionCard.Does (QuestionCard.Pick 5)] eq_refl)
    as [picked [H1 [H2 _]]].
  exists picked. split; [exact H1 | exact H2].
Defined.

(** The radio button chosen for one question is sent for the next one when
    the page replaces the question before the answer is sent. *)
Example stale_choice_submitted :
  let q1 := {| q_id := "q1"; q_type := Single; q_prompt := "first";
               q_options := Some [{| o_id := "o1"; o_text := "a" |};
                                  {| o_id := "o2"; o_text := "b" |}];
               q_answer := KOptionId "o2" |} in
  let q2 := {| q_id := "q2"; q_type := Single; q_prompt := "second";
               q_options := Some [{| o_id := "o5"; o_text := "e" |}];
               q_answer := KOptionId "o5" |} in
  QuestionCard.click
    (QuestionCard.play q1 [QuestionCard.Does (QuestionCard.Pick 1); QuestionCard.Shows q2])
  = JObject [("optionId", JString "o2")].
Proof. reflexivity. Qed.
